(** * PDF editor agent: a shallow embedding of the orchestration core

    The development follows the TypeScript sources:

    - the PDF tools [split_pdf], [move_pages] and [find_whitespace] of
      [server/services/pdfMcpTools.ts] (module [PdfMcpTools]);
    - their file-based siblings [splitPDF] and [movePages] of the PDF
      operations service, [unnamed/part_004] (module [PdfOperations]);
    - [callLLM], [callClaude] and [callManus] of the LLM service,
      [unnamed/part_005], imported by the agent as [./llmService]
      (module [LlmService]);
    - [runPdfAgent], the PDF agent with tool calling, which follows
      [findWhitespace] in [server/services/whitespaceDetection.ts]
      (module [PdfAgent]);
    - the session ids and storage keys of [server/_core/session.ts]
      (module [Session]) and [localStoragePut] of the storage service,
      [unnamed/part_003] (module [Storage]), with [path.join] of Node.js
      on POSIX (module [NodePath]);
    - [downloadPdfFromS3], [clear_revised_documents] and
      [delete_documents] of [pdfMcpTools.ts] (module [DocumentTools]),
      [combine_pdfs] and its sibling [combinePDFs] (module
      [CombineTools]);
    - the window test and the scan of the service [findWhitespace] in
      [server/services/whitespaceDetection.ts] (module
      [WhitespaceService]);
    - the document map of [server/routes/pdfAgentRouter.ts] with its
      requests, the two cleanup callbacks of [chat] and the documents
      that [chat] adds after a turn (module [Router]).

    Conventions.  JavaScript values of type [any] are values of [JsValue];
    a [throw] is the [Threw] constructor of [Throws]; integers held in JS
    numbers are [Z] (the sources stay far below 2^53); the fractional
    quantities of the whitespace search (inches, points, scores) are
    doubles, the kernel's [float] with its IEEE 754 arithmetic (module
    [JsNumber]).  A saved PDF file is the sequence of its pages.
    Wall-clock time stamps and random identifiers are left out of the
    records: no property below depends on them. *)

From Stdlib Require Import ZArith QArith String List Bool Lia.
From Stdlib Require Import DecimalString.
From Stdlib Require Import Permutation Sorted.
From Stdlib Require Import Ascii Strings.Byte.
From Stdlib Require Import Floats.PrimFloat Floats.SpecFloat Floats.FloatOps.
From Equations Require Import Equations.
From stdpp Require Import base list strings.
Import ListNotations.

Open Scope string_scope.
Open Scope list_scope.
Open Scope Z_scope.

Set Warnings "-inexact-float".

(** ** JavaScript values and exceptions *)

Module Js.

(** What an [await f(...)] or a block of statements can do: return a
    value, or throw an [Error] carrying a [message]. *)
Inductive Throws (A : Type) : Type :=
| Returned (a : A)
| Threw (message : string).
Arguments Returned {A} a.
Arguments Threw {A} message.

Definition bind {A B} (c : Throws A) (k : A -> Throws B) : Throws B :=
  match c with
  | Returned a => k a
  | Threw m => Threw m
  end.

Definition ret {A} (a : A) : Throws A := Returned a.

Notation "'let*' x ':=' c 'in' k" := (bind c (fun x => k))
  (at level 10, x name, c at level 100, k at level 200).

(** [for (const a of l) { ... }] with a body that may throw: the first
    throw leaves the loop. *)
Fixpoint mapM {A B} (f : A -> Throws B) (l : list A) : Throws (list B) :=
  match l with
  | [] => Returned []
  | a :: l' => let* b := f a in let* bs := mapM f l' in ret (b :: bs)
  end.

(** Values of type [any]. *)
#[warnings="-register-all"]
Inductive JsValue : Type :=
| JUndefined
| JNull
| JBool (b : bool)
| JNum (q : Q)
| JStr (s : string)
| JArr (items : list JsValue)
| JObj (fields : list (string * JsValue)).

(** ToBoolean. *)
Definition truthy (v : JsValue) : bool :=
  match v with
  | JUndefined | JNull => false
  | JBool b => b
  | JNum q => negb (Qeq_bool q 0)
  | JStr s => negb (String.eqb s "")
  | JArr _ | JObj _ => true
  end.

(** [a || b]. *)
Definition or_else (a b : JsValue) : JsValue := if truthy a then a else b.

Fixpoint assoc (k : string) (fields : list (string * JsValue)) : JsValue :=
  match fields with
  | [] => JUndefined
  | (k', v) :: rest => if String.eqb k k' then v else assoc k rest
  end.

(** [v.k]: a property read.  Reading a property of [undefined] or [null]
    throws a TypeError; a key an object does not have (and any key of a
    primitive or array, for the keys read in these sources) is
    [undefined]. *)
Definition prop (v : JsValue) (k : string) : Throws JsValue :=
  match v with
  | JUndefined =>
      Threw ("Cannot read properties of undefined (reading '" +:+ k +:+ "')")
  | JNull =>
      Threw ("Cannot read properties of null (reading '" +:+ k +:+ "')")
  | JObj fields => Returned (assoc k fields)
  | _ => Returned JUndefined
  end.

(** [s || d] on strings: the empty string is falsy. *)
Definition str_or (s d : string) : string :=
  if String.eqb s "" then d else s.

(** [String(n)] and [`${n}`] for an integer [n]. *)
Definition Z_to_string (n : Z) : string :=
  NilZero.string_of_int (Z.to_int n).

(** [arr[i]] for an integer index: [undefined] (here [None]) outside
    [0 .. length-1]. *)
Definition index {A} (arr : list A) (i : Z) : option A :=
  if i <? 0 then None else arr !! Z.to_nat i.

End Js.
Import Js.

(** ** JavaScript numbers *)

Module JsNumber.

(** A JavaScript number is an IEEE 754 double: the kernel's [float],
    whose [*], [/], [+] and [-] round as the operators of JavaScript
    do.  Numbers that hold integers far below 2^53 (indices, counts,
    pixel positions) are [Z]. *)

(** A number in a condition: [0], [-0] and [NaN] are falsy. *)
Definition truthy_number (x : float) : bool :=
  negb ((x =? 0)%float || is_nan x).

(** [Math.floor(x)] for a finite [x]: the largest integer at or below
    [x], read from the sign, the mantissa and the exponent of the double.
    [Math.floor] leaves [NaN] and the infinities as they are; they hold
    no integer, and 0 stands in for them here: what calls [Math_floor]
    below tests [is_finite] first. *)
Definition Math_floor (x : float) : Z :=
  match Prim2SF x with
  | S754_finite s m e =>
      let n := if s then Z.neg m else Z.pos m in
      if 0 <=? e then n * 2 ^ e else n / 2 ^ (- e)
  | _ => 0
  end.

(** The number that holds the integer [z]: [z] itself up to 2^53, the
    nearest double beyond. *)
Definition integer (z : Z) : float :=
  SF2Prim (binary_normalize prec emax z 0 false).

(** The rational that a finite number denotes (0 for [NaN] and the
    infinities, which denote none). *)
Definition value (x : float) : Q :=
  match Prim2SF x with
  | S754_finite s m e =>
      let n := if s then Z.neg m else Z.pos m in
      if 0 <=? e then inject_Z (n * 2 ^ e) else (n # 2 ^ Z.to_pos (- e))%Q
  | _ => 0%Q
  end.

End JsNumber.
Import JsNumber.

(** ** pdf-lib, as far as the tools use it *)

Module PdfLib.

(** A page; the number identifies its content. *)
Definition PDFPage := nat.

(** The content of the blank page that [doc.addPage()] creates. *)
Definition blankPage : PDFPage := O.

(** A loaded document is the sequence of its pages. *)
Definition PDFDocument := list PDFPage.

Definition getPageCount (doc : PDFDocument) : Z := Z.of_nat (length doc).

(** [PDFDocument.getPageIndices()]. *)
Definition getPageIndices (doc : PDFDocument) : list Z :=
  map Z.of_nat (seq 0 (length doc)).

(** [newPdf.copyPages(srcDoc, indices)].  pdf-lib reads
    [srcPages[indices[idx]]] and then its [.node]: an index outside the
    source document reads [undefined] and the call rejects with a
    TypeError; otherwise it resolves to one copied page per index, in the
    order of [indices]. *)
Definition copyPages (srcDoc : PDFDocument) (indices : list Z)
  : Throws (list PDFPage) :=
  mapM (fun i =>
          match index srcDoc i with
          | Some page => Returned page
          | None => Threw "Cannot read properties of undefined (reading 'node')"
          end) indices.

(** [doc.save()], as the pages of the file it writes.  With its default
    options ([addDefaultPage]) pdf-lib first adds a blank page to a
    document that has no page. *)
Definition save (doc : PDFDocument) : PDFDocument :=
  match doc with
  | [] => [blankPage]
  | _ :: _ => doc
  end.

End PdfLib.
Import PdfLib.

(** [Array.from({ length: n }, (_, i) => f(i))]; a length below 1 gives
    the empty array. *)
Definition Array_from_length {A} (n : Z) (f : Z -> A) : list A :=
  map (fun i => f (Z.of_nat i)) (seq 0 (Z.to_nat n)).

Record PageRange := mkPageRange {
  range_start : Z;
  range_end : Z;
  range_filename : string   (* [filename || outputName]; empty when absent *)
}.

(** ** pdfMcpTools.ts: the page tools *)

Module PdfMcpTools.

(** One entry of [results] in [split_pdf], with the pages of the file
    that was saved and uploaded for it. *)
Record SplitFile := mkSplitFile {
  file_filename : string;
  file_pages : string;                (* `${range.start}-${range.end}` *)
  file_content : PDFDocument
}.

Record SplitResult := mkSplitResult {
  split_success : bool;
  split_files : list SplitFile
}.

(** The indices handed to [copyPages] for one range. *)
Definition split_indices (range : PageRange) : list Z :=
  Array_from_length (range_end range - range_start range + 1)
                    (fun i => range_start range - 1 + i).

(** The body of [for (const range of input.pageRanges)]. *)
Definition split_range (pdfDoc : PDFDocument) (range : PageRange)
  : Throws SplitFile :=
  let* pages := copyPages pdfDoc (split_indices range) in
  (* pages.forEach(page => newPdf.addPage(page)) *)
  let newPdf : PDFDocument := pages in
  let span :=
    Z_to_string (range_start range) +:+ "-" +:+ Z_to_string (range_end range) in
  let filename := str_or (range_filename range) ("split_" +:+ span) in
  let newPdfBytes := save newPdf in
  ret (mkSplitFile filename span newPdfBytes).

(** [split_pdf], from the loaded [pdfDoc] on. *)
Definition split_pdf (pdfDoc : PDFDocument) (pageRanges : list PageRange)
  : Throws SplitResult :=
  let* results := mapM (split_range pdfDoc) pageRanges in
  ret (mkSplitResult true results).

Record MoveResult := mkMoveResult {
  move_success : bool;
  move_reordered : Z;                 (* input.pageOrder.length, in the message *)
  move_content : PDFDocument
}.

(** [move_pages], from the loaded [pdfDoc] on. *)
Definition move_pages (pdfDoc : PDFDocument) (pageOrder : list Z)
  : Throws MoveResult :=
  let* pages := copyPages pdfDoc (map (fun n => n - 1) pageOrder) in
  let newPdf : PDFDocument := pages in
  let newPdfBytes := save newPdf in
  ret (mkMoveResult true (Z.of_nat (length pageOrder)) newPdfBytes).

(** *** find_whitespace *)

Inductive Prefer :=
| bottom_right | bottom_left | top_right | top_left | bottom | top | any.

(** [FindWhitespaceInput] without [documentId]. *)
Record FindWhitespaceInput := mkFindWhitespaceInput {
  minWidthInches : option float;
  minHeightInches : option float;
  minWidth : option float;
  minHeight : option float;
  page : option Z;
  pageNumber : option Z;
  prefer : option Prefer
}.

(** The raw grayscale buffer [data] of the rendered page with [info.width]
    and [info.height]. *)
Record Raster := mkRaster {
  data : list Z;
  width : nat;
  height : nat
}.

(** [x || d] for an optional number: [undefined], [0] and [NaN] are
    falsy. *)
Definition num_or (x : option float) (d : float) : float :=
  match x with
  | Some q => if truthy_number q then q else d
  | None => d
  end.

Definition int_or (x : option Z) (d : Z) : Z :=
  match x with
  | Some n => if n =? 0 then d else n
  | None => d
  end.

Definition dpi : float := 150%float.

(** Pixels brighter than this are whitespace. *)
Definition threshold : Z := 250.

(** [x ? x / 72 : d]. *)
Definition points_to_inches_or (x : option float) (d : float) : float :=
  match x with
  | Some points => if truthy_number points then (points / 72)%float else d
  | None => d
  end.

(** [input.minWidthInches || (input.minWidth ? input.minWidth / 72 : 1.5)]. *)
Definition effMinWidthInches (input : FindWhitespaceInput) : float :=
  num_or (minWidthInches input)
         (points_to_inches_or (minWidth input) 1.5%float).

(** [input.minHeightInches || (input.minHeight ? input.minHeight / 72 : 0.5)]. *)
Definition effMinHeightInches (input : FindWhitespaceInput) : float :=
  num_or (minHeightInches input)
         (points_to_inches_or (minHeight input) 0.5%float).

(** [Math.floor(minWidthInches * dpi)]: the product is a double, rounded
    before the floor is taken. *)
Definition minWidthPx (input : FindWhitespaceInput) : Z :=
  Math_floor (effMinWidthInches input * dpi).

Definition minHeightPx (input : FindWhitespaceInput) : Z :=
  Math_floor (effMinHeightInches input * dpi).

(** Both products are numbers of pixels: neither [NaN] nor infinite. *)
Definition sizes_finite (input : FindWhitespaceInput) : bool :=
  is_finite (effMinWidthInches input * dpi)
  && is_finite (effMinHeightInches input * dpi).

Definition pageToCheck (input : FindWhitespaceInput) : Z :=
  int_or (page input) (int_or (pageNumber input) 1).

Definition effPrefer (input : FindWhitespaceInput) : Prefer :=
  match prefer input with
  | Some p => p
  | None => bottom_right
  end.

(** [data[y * width + x] >= threshold ? 1 : 0]; a read past the end of
    the buffer is [undefined], which is not [>= threshold]. *)
Definition isWhite (r : Raster) (y x : nat) : Z :=
  match data r !! (y * width r + x)%nat with
  | Some v => if v >=? threshold then 1 else 0
  | None => 0
  end.

(** The table [integral]: [height + 1] rows of [width + 1] cells. *)
Abbreviation Integral := (list (list Z)).

(** A read [integral[y][x]] inside the table. *)
Definition cell (integral : Integral) (y x : nat) : Z :=
  default 0 (integral !! y ≫= fun row => row !! x).

(** The assignment [integral[y][x] = v] inside the table. *)
Definition set_cell (integral : Integral) (y x : nat) (v : Z) : Integral :=
  alter (fun row => <[x := v]> row) y integral.

(** The body of the inner [for] loop that builds the table. *)
Definition integral_step (r : Raster) (y : nat) (integral : Integral) (x : nat)
  : Integral :=
  set_cell integral (S y) (S x)
           (isWhite r y x + cell integral y (S x) + cell integral (S y) x
            - cell integral y x).

Definition build_integral (r : Raster) : Integral :=
  fold_left
    (fun integral y => fold_left (integral_step r y) (seq 0 (width r)) integral)
    (seq 0 (height r))
    (replicate (S (height r)) (replicate (S (width r)) 0)).

(** [integral[y][x]] for arbitrary integers: reading a row that does not
    exist and then indexing it throws a TypeError; a cell that does not
    exist in an existing row is [undefined] (here [None]). *)
Definition read_cell (integral : Integral) (y x : Z) : Throws (option Z) :=
  match index integral y with
  | Some row => Returned (index row x)
  | None =>
      Threw ("Cannot read properties of undefined (reading '"
               +:+ Z_to_string x +:+ "')")
  end.

(** [regionIsClear]: arithmetic on [undefined] gives [NaN], and
    [NaN === expected] is false. *)
Definition regionIsClear (integral : Integral) (x1 y1 x2 y2 : Z) : Throws bool :=
  let* a := read_cell integral y2 x2 in
  let* b := read_cell integral y1 x2 in
  let* c := read_cell integral y2 x1 in
  let* d := read_cell integral y1 x1 in
  let expected := (x2 - x1) * (y2 - y1) in
  match a, b, c, d with
  | Some a, Some b, Some c, Some d => ret (a - b - c + d =? expected)
  | _, _, _, _ => ret false
  end.

Record Candidate := mkCandidate {
  cand_x : Z;
  cand_y : Z;
  score : float
}.

(** The values taken by [v] in [for (let v = start; v <= stop; v += step)]
    for a positive [step]. *)
Definition for_range (start stop step : Z) : list Z :=
  if stop <? start then []
  else map (fun k => start + Z.of_nat k * step)
           (seq 0 (S (Z.to_nat ((stop - start) / step)))).

Definition preference_score (p : Prefer) (nx ny : float) : float :=
  (match p with
   | bottom_right => nx + ny
   | bottom_left => (1 - nx) + ny
   | top_right => nx + (1 - ny)
   | top_left => (1 - nx) + (1 - ny)
   | bottom => ny
   | top => 1 - ny
   | any => 0
   end)%float.

Definition marginPx : Z := Math_floor (0.5 * dpi)%float.

Section Scan.

Variable input : FindWhitespaceInput.
Variable r : Raster.
Variable integral : Integral.

Let w := Z.of_nat (width r).
Let h := Z.of_nat (height r).

(** The body of the inner scanning loop: the candidates it pushes. *)
Definition scan_at (y x : Z) : Throws (list Candidate) :=
  let* clear :=
    regionIsClear integral x y (x + minWidthPx input) (y + minHeightPx input) in
  if clear
  then
    let nx := (integer x / integer (Z.max 1 (w - minWidthPx input)))%float in
    let ny := (integer y / integer (Z.max 1 (h - minHeightPx input)))%float in
    ret [mkCandidate x y (preference_score (effPrefer input) nx ny)]
  else ret [].

Definition stepX : Z := Z.max 1 (minWidthPx input / 4).
Definition stepY : Z := Z.max 1 (minHeightPx input / 4).

Definition scan_row (y : Z) : Throws (list Candidate) :=
  let* found :=
    mapM (scan_at y)
         (for_range marginPx (w - minWidthPx input - marginPx) stepX) in
  ret (concat found).

(** The two nested scanning loops: [candidates], in discovery order.
    When a size in pixels is [NaN] or [Infinity], the loop condition
    [y <= height - minHeightPx - marginPx] or the one on [x] is false
    at once and no candidate is pushed.  (With [-Infinity] the loops of
    the source do not end; the model has no candidate there either.) *)
Definition scan : Throws (list Candidate) :=
  if sizes_finite input
  then
    let* found :=
      mapM scan_row
           (for_range marginPx (h - minHeightPx input - marginPx) stepY) in
    ret (concat found)
  else ret [].

End Scan.

(** [candidates.sort((a, b) => b.score - a.score)]: descending by score;
    [Array.prototype.sort] is stable, so equal scores keep their
    discovery order.  The scores are finite, and the difference of two
    finite doubles is positive, zero or negative as the first denotes
    more than, as much as or less than the second: the comparison is
    the one of the values. *)
Fixpoint insert_by_score (c : Candidate) (sorted : list Candidate)
  : list Candidate :=
  match sorted with
  | [] => [c]
  | d :: rest =>
      if Qle_bool (value (score d)) (value (score c)) then c :: d :: rest
      else d :: insert_by_score c rest
  end.

Definition sort_by_score (candidates : list Candidate) : list Candidate :=
  fold_right insert_by_score [] candidates.

Record Region := mkRegion {
  rank : Z;
  xInches : float;
  yInches : float;
  xPoints : float;
  yPoints : float;
  widthInches : float;
  heightInches : float
}.

(** The callback of [candidates.slice(0, 5).map((c, i) => ...)]. *)
Definition toRegion (input : FindWhitespaceInput) (r : Raster)
           (i : nat) (c : Candidate) : Region :=
  let flipped := Z.of_nat (height r) - cand_y c - minHeightPx input in
  mkRegion (Z.of_nat i + 1)
           (integer (cand_x c) / dpi)%float
           (integer flipped / dpi)%float      (* Flip Y for PDF coordinates *)
           (integer (cand_x c) / dpi * 72)%float
           (integer flipped / dpi * 72)%float
           (effMinWidthInches input)
           (effMinHeightInches input).

(** The result object, without the page size in inches and the message. *)
Record FindWhitespaceResult := mkFindWhitespaceResult {
  ws_success : bool;
  ws_page : Z;
  searchedFor : float * float * Prefer;
  found : bool;
  candidatesFound : Z;
  regions : list Region
}.

(** [find_whitespace], from the decoded raster on. *)
Definition find_whitespace (input : FindWhitespaceInput) (r : Raster)
  : Throws FindWhitespaceResult :=
  if ((width r =? 0) || (height r =? 0))%nat
  then Threw "Could not read image dimensions"
  else
    let integral := build_integral r in
    let* candidates := scan input r integral in
    let sorted := sort_by_score candidates in
    let regions := imap (toRegion input r) (take 5 sorted) in
    ret (mkFindWhitespaceResult
           true (pageToCheck input)
           (effMinWidthInches input, effMinHeightInches input, effPrefer input)
           (0 <? Z.of_nat (length regions))
           (Z.of_nat (length candidates))
           regions).

End PdfMcpTools.

(** ** pdfOperations.ts: the file-based siblings *)

Module PdfOperations.

(** The body of [for (const range of pageRanges)] in [splitPDF]. *)
Definition splitPDF_range (sourcePdf : PDFDocument) (range : PageRange)
  : Throws PDFDocument :=
  let totalPages := getPageCount sourcePdf in
  let start := range_start range in
  let end_ := range_end range in
  (* Validate range (1-indexed, inclusive) *)
  if start <? 1
  then Threw ("Invalid start page " +:+ Z_to_string start +:+ ": must be >= 1")
  else if end_ <? start
  then Threw ("Invalid range: end (" +:+ Z_to_string end_ +:+ ") < start ("
                +:+ Z_to_string start +:+ ")")
  else if start >? totalPages
  then Threw ("Start page " +:+ Z_to_string start
                +:+ " exceeds document length ("
                +:+ Z_to_string totalPages +:+ " pages)")
  else
    (* Clamp end to document length *)
    let actualEnd := Z.min end_ totalPages in
    let pageIndices :=
      Array_from_length (actualEnd - start + 1) (fun i => start - 1 + i) in
    let* copiedPages := copyPages sourcePdf pageIndices in
    let newPdf : PDFDocument := copiedPages in
    ret (save newPdf).

Definition splitPDF (sourcePdf : PDFDocument) (pageRanges : list PageRange)
  : Throws (list PDFDocument) :=
  mapM (splitPDF_range sourcePdf) pageRanges.

Definition movePages (sourcePdf : PDFDocument) (pageOrder : list Z)
  : Throws PDFDocument :=
  let totalPages := getPageCount sourcePdf in
  (* Convert 1-indexed to 0-indexed and validate *)
  let validPageIndices :=
    List.filter (fun idx => (idx >=? 0) && (idx <? totalPages))
           (map (fun pageNum => pageNum - 1) pageOrder) in
  let* copiedPages := copyPages sourcePdf validPageIndices in
  let newPdf : PDFDocument := copiedPages in
  ret (save newPdf).

End PdfOperations.

(** ** llmService.ts: the provider adapter *)

Module LlmService.

Inductive Provider := claude | manus.

Definition Provider_eqb (a b : Provider) : bool :=
  match a, b with
  | claude, claude | manus, manus => true
  | _, _ => false
  end.

Record LLMConfig := mkLLMConfig {
  provider : Provider;
  anthropicApiKey : option string;
  model : option string
}.

Inductive Role := system | user | assistant | tool.

Definition Role_eqb (a b : Role) : bool :=
  match a, b with
  | system, system | user, user | assistant, assistant | tool, tool => true
  | _, _ => false
  end.

Record LLMToolCall := mkToolCall {
  tc_id : string;
  tc_name : string;
  tc_input : JsValue
}.

Record LLMMessage := mkMessage {
  role : Role;
  content : string;
  tool_call_id : option string;
  name : option string;
  tool_calls : option (list LLMToolCall)
}.

Record LLMTool := mkTool {
  tool_name : string;
  tool_description : string;
  tool_input_schema : JsValue
}.

Record LLMResponse := mkResponse {
  resp_content : string;
  toolCalls : option (list LLMToolCall);
  stopReason : string
}.

(** [x || d] for an optional string: [undefined] and [""] are falsy. *)
Definition opt_or (x : option string) (d : string) : string :=
  match x with
  | Some s => str_or s d
  | None => d
  end.

Definition opt_truthy (x : option string) : bool :=
  match x with
  | Some s => negb (String.eqb s "")
  | None => false
  end.

(** *** Protocol A: the Anthropic wire format *)

Inductive ContentBlock :=
| TextBlock (text : string)
| ToolUseBlock (id : string) (name : string) (input : JsValue)
| ToolResultBlock (tool_use_id : string) (content : string).

Inductive WireRole := wire_user | wire_assistant.

Inductive WireContent :=
| Text (text : string)
| Blocks (blocks : list ContentBlock).

Record MessageParam := mkParam {
  param_role : WireRole;
  param_content : WireContent
}.

Record AnthropicTool := mkAnthropicTool {
  at_name : string;
  at_description : string;
  at_input_schema : JsValue
}.

Record CreateParams := mkCreateParams {
  cp_model : string;
  cp_max_tokens : Z;
  cp_system : string;
  cp_messages : list MessageParam;
  cp_tools : list AnthropicTool
}.

Record AnthropicMessage := mkAnthropicMessage {
  am_content : list ContentBlock;
  am_stop_reason : option string
}.

Definition convertToolToAnthropic (t : LLMTool) : AnthropicTool :=
  mkAnthropicTool (tool_name t) (tool_description t) (tool_input_schema t).

(** The block pushed for one tool message inside the [while] loop. *)
Definition toolResultBlock (toolMsg : LLMMessage) : ContentBlock :=
  ToolResultBlock (opt_or (tool_call_id toolMsg) "unknown") (content toolMsg).

(** The inner loop [while (j < length && conversationMessages[j].role ===
    'tool')], started at [j]: the blocks it pushes, and the messages from
    the index at which it stops. *)
Fixpoint collectToolResults (from_j : list LLMMessage)
  : list ContentBlock * list LLMMessage :=
  match from_j with
  | [] => ([], [])
  | toolMsg :: rest =>
      if Role_eqb (role toolMsg) tool
      then let r := collectToolResults rest in
           (toolResultBlock toolMsg :: fst r, snd r)
      else ([], from_j)
  end.

(** The wire message for an assistant message. *)
Definition assistantParam (msg : LLMMessage) : MessageParam :=
  match tool_calls msg with
  | Some (tc :: tcs) =>
      let textPart :=
        if negb (String.eqb (content msg) "")
        then [TextBlock (content msg)] else [] in
      let contentBlocks :=
        textPart ++
        map (fun tc => ToolUseBlock (tc_id tc) (tc_name tc) (tc_input tc))
            (tc :: tcs) in
      mkParam wire_assistant (Blocks contentBlocks)
  | _ =>
      (* Regular assistant message without tool calls *)
      mkParam wire_assistant (Text (content msg))
  end.

(** The loop [for (let i = 0; i < conversationMessages.length; i++)] that
    fills [anthropicMessages], as a function of the messages from index
    [i] on.  On a tool message the inner loop starts at [j = i], so its
    first test succeeds; [i = j - 1; continue] resumes at the message on
    which it stopped. *)
Equations? toAnthropicMessages (from_i : list LLMMessage)
  : list MessageParam by wf (length from_i) lt :=
  toAnthropicMessages [] := [];
  toAnthropicMessages (msg :: rest) with role msg := {
    | tool :=
        mkParam wire_user
                (Blocks (toolResultBlock msg :: fst (collectToolResults rest)))
        :: toAnthropicMessages (snd (collectToolResults rest));
    | assistant := assistantParam msg :: toAnthropicMessages rest;
    | _ := mkParam wire_user (Text (content msg)) :: toAnthropicMessages rest }.
Proof.
  all: try (simpl; lia).
  clear toAnthropicMessages. simpl.
  enough (H : (length (snd (collectToolResults rest)) <= length rest)%nat) by lia.
  induction rest as [|m rest' IH]; simpl; [lia|].
  destruct (Role_eqb (role m) tool); simpl; lia.
Qed.

(** Separate system messages from conversation. *)
Definition systemMessages (messages : list LLMMessage) : list LLMMessage :=
  List.filter (fun m => Role_eqb (role m) system) messages.

Definition conversationMessages (messages : list LLMMessage)
  : list LLMMessage :=
  List.filter (fun m => negb (Role_eqb (role m) system)) messages.

(** The array [anthropicMessages] that [callClaude] sends. *)
Definition anthropicMessages (messages : list LLMMessage)
  : list MessageParam :=
  toAnthropicMessages (conversationMessages messages).

(** [systemMessages.map(m => m.content).join('\n\n')]. *)
Fixpoint join (sep : string) (parts : list string) : string :=
  match parts with
  | [] => ""
  | [s] => s
  | s :: rest => s +:+ sep +:+ join sep rest
  end.

Definition paragraph_break : string :=
  String (Ascii.ascii_of_nat 10) (String (Ascii.ascii_of_nat 10) "").

(** The loop over [response.content]: the text of the text blocks,
    concatenated, and one tool call per [tool_use] block. *)
Fixpoint extractBlocks (blocks : list ContentBlock)
  : string * list LLMToolCall :=
  match blocks with
  | [] => ("", [])
  | block :: rest =>
      let r := extractBlocks rest in
      match block with
      | TextBlock text => (text +:+ fst r, snd r)
      | ToolUseBlock id name input => (fst r, mkToolCall id name input :: snd r)
      | ToolResultBlock _ _ => r
      end
  end.

(** [toolCalls.length > 0 ? toolCalls : undefined]. *)
Definition nonempty_or_undefined {A} (l : list A) : option (list A) :=
  match l with
  | [] => None
  | _ => Some l
  end.

Definition parseClaudeResponse (response : AnthropicMessage) : LLMResponse :=
  let r := extractBlocks (am_content response) in
  mkResponse (fst r) (nonempty_or_undefined (snd r))
             (opt_or (am_stop_reason response) "end_turn").

(** *** Protocol B: the flat format of [invokeLLM] *)

Record OpenAIMessage := mkOpenAIMessage {
  oa_role : Role;
  oa_content : string;
  oa_tool_call_id : option string;
  oa_name : option string
}.

Record OpenAITool := mkOpenAITool {
  oa_fn_name : string;
  oa_fn_description : string;
  oa_fn_parameters : JsValue
}.

Record OpenAIToolCall := mkOpenAIToolCall {
  otc_id : string;
  otc_function_name : string;
  otc_function_arguments : string
}.

Record Choice := mkChoice {
  choice_content : JsValue;            (* message.content *)
  choice_tool_calls : option (list OpenAIToolCall);
  finish_reason : option string
}.

Record InvokeParams := mkInvokeParams {
  ip_messages : list OpenAIMessage;
  ip_tools : list OpenAITool;
  ip_toolChoice : string;
  ip_maxTokens : Z
}.

Definition convertToolToOpenAI (t : LLMTool) : OpenAITool :=
  mkOpenAITool (tool_name t) (tool_description t) (tool_input_schema t).

Definition toOpenAIMessage (msg : LLMMessage) : OpenAIMessage :=
  if opt_truthy (tool_call_id msg)
  then mkOpenAIMessage (role msg) (content msg) (tool_call_id msg) (name msg)
  else mkOpenAIMessage (role msg) (content msg) None None.

Section Backends.

(** The network boundary and the JSON codec. *)
Variable messages_create :
  string (* apiKey *) -> CreateParams -> Throws AnthropicMessage.
Variable invokeLLM : InvokeParams -> Throws (list Choice).
Variable JSON_stringify : JsValue -> string.
Variable JSON_parse : string -> Throws JsValue.

Definition callClaude (messages : list LLMMessage) (tools : list LLMTool)
           (config : LLMConfig) : Throws LLMResponse :=
  let* response :=
    messages_create
      (opt_or (anthropicApiKey config) "")
      (mkCreateParams (opt_or (model config) "claude-opus-4-20250514")
                      4096
                      (join paragraph_break
                            (map content (systemMessages messages)))
                      (anthropicMessages messages)
                      (map convertToolToAnthropic tools)) in
  ret (parseClaudeResponse response).

Definition callManus (messages : list LLMMessage) (tools : list LLMTool)
           (config : LLMConfig) : Throws LLMResponse :=
  let openaiMessages := map toOpenAIMessage messages in
  let* choices :=
    invokeLLM (mkInvokeParams openaiMessages (map convertToolToOpenAI tools)
                              "auto" 4096) in
  match choices with
  | [] => Threw "No response from LLM"
  | choice :: _ =>
      let content :=
        match choice_content choice with
        | JStr s => s
        | other => JSON_stringify other
        end in
      let* toolCalls :=
        match choice_tool_calls choice with
        | Some tcs =>
            mapM (fun tc =>
                    let* input := JSON_parse (otc_function_arguments tc) in
                    ret (mkToolCall (otc_id tc) (otc_function_name tc) input))
                 tcs
        | None => ret []
        end in
      ret (mkResponse content (nonempty_or_undefined toolCalls)
                      (opt_or (finish_reason choice) "stop"))
  end.

Definition callLLM (messages : list LLMMessage) (tools : list LLMTool)
           (config : LLMConfig) : Throws LLMResponse :=
  if Provider_eqb (provider config) claude
     && opt_truthy (anthropicApiKey config)
  then callClaude messages tools config
  else callManus messages tools config.

End Backends.

End LlmService.

(** ** pdfAgent.ts: the agent loop *)

Module PdfAgent.
Import LlmService.

Inductive LogType := tool_use | tool_result | message | error.

(** [AgentLog] without its time stamp. *)
Record AgentLog := mkLog {
  log_type : LogType;
  log_tool : option string;
  log_input : option JsValue;
  log_output : option JsValue;
  log_message : option string;
  log_error : option string
}.

(** One entry of [operations], without its time stamp. *)
Record Operation := mkOperation {
  op_tool : string;
  op_input : JsValue;
  op_result : JsValue
}.

Record HistoryMessage := mkHistory {
  hist_role : string;
  hist_content : string
}.

(** [AgentContext].  [onLog] only observes the entries of [logs]; the two
    cleanup callbacks are handed to the tools unchanged and are part of
    the tool functions here. *)
Record AgentContext := mkContext {
  ctx_documents : list JsValue;
  userId : string;
  conversationHistory : option (list HistoryMessage);
  llmConfig : option LLMConfig
}.

(** [toolContext], as far as it varies during a turn. *)
Record ToolContext := mkToolContext {
  tool_documents : list JsValue;
  tool_userId : string
}.

Record AgentResult := mkResult {
  response : string;
  operations : list Operation
}.

(** The variables of [runPdfAgent] that the loop assigns, the arrays it
    pushes to (among them [context.documents]), and the number of
    [callLLM] calls made so far. *)
Record LoopState := mkState {
  messages : list LLMMessage;
  st_operations : list Operation;
  logs : list AgentLog;
  documents : list JsValue;
  continueLoop : bool;
  finalResponse : string;
  iteration : nat;
  llmCalls : nat
}.

Definition maxIterations : nat := 20.

Definition limitResponse : string :=
  "I reached the maximum number of operations. Please start a new conversation.".

Definition push_message (m : LLMMessage) (st : LoopState) : LoopState :=
  mkState (messages st ++ [m]) (st_operations st) (logs st) (documents st)
          (continueLoop st) (finalResponse st) (iteration st) (llmCalls st).

Definition push_operation (op : Operation) (st : LoopState) : LoopState :=
  mkState (messages st) (st_operations st ++ [op]) (logs st) (documents st)
          (continueLoop st) (finalResponse st) (iteration st) (llmCalls st).

(** [log(logEntry)]. *)
Definition log (entry : AgentLog) (st : LoopState) : LoopState :=
  mkState (messages st) (st_operations st) (logs st ++ [entry]) (documents st)
          (continueLoop st) (finalResponse st) (iteration st) (llmCalls st).

Definition set_documents (docs : list JsValue) (st : LoopState) : LoopState :=
  mkState (messages st) (st_operations st) (logs st) docs
          (continueLoop st) (finalResponse st) (iteration st) (llmCalls st).

(** [finalResponse = text; continueLoop = false]. *)
Definition finish (text : string) (st : LoopState) : LoopState :=
  mkState (messages st) (st_operations st) (logs st) (documents st)
          false text (iteration st) (llmCalls st).

(** [iteration++] followed by the [callLLM] of the round. *)
Definition begin_round (st : LoopState) : LoopState :=
  mkState (messages st) (st_operations st) (logs st) (documents st)
          (continueLoop st) (finalResponse st) (S (iteration st))
          (S (llmCalls st)).

(** The object pushed to [context.documents] for a tool result or for one
    of its [files]. *)
Definition revisedDocument (toolName : string) (id filename url pages : JsValue)
  : JsValue :=
  JObj [("id", id);
        ("name", or_else filename (JStr (toolName +:+ "_result.pdf")));
        ("url", url);
        ("type", JStr "revised");
        ("pages", pages)].

(** [if (toolResult.id && toolResult.url) context.documents.push(...)]:
    the documents afterwards, or the TypeError of reading a property of
    [undefined] or [null]. *)
Definition pushResultDocument (toolName : string) (toolResult : JsValue)
           (docs : list JsValue) : Throws (list JsValue) :=
  let* id := prop toolResult "id" in
  let* url := prop toolResult "url" in
  if truthy id && truthy url
  then let* filename := prop toolResult "filename" in
       ret (docs ++ [revisedDocument toolName id filename url (JStr "unknown")])
  else ret docs.

(** [for (const file of toolResult.files)]: the documents after the
    pushes that were made, and the message of the TypeError that ended
    the loop early, if any. *)
Fixpoint pushFileDocuments (toolName : string) (files : list JsValue)
         (docs : list JsValue) : list JsValue * option string :=
  match files with
  | [] => (docs, None)
  | file :: rest =>
      match prop file "id", prop file "url",
            prop file "filename", prop file "pages" with
      | Returned id, Returned url, Returned filename, Returned pages =>
          if truthy id && truthy url
          then pushFileDocuments toolName rest
                 (docs ++ [revisedDocument toolName id filename url
                                           (or_else pages (JStr "unknown"))])
          else pushFileDocuments toolName rest docs
      | Threw m, _, _, _ | _, Threw m, _, _
      | _, _, Threw m, _ | _, _, _, Threw m => (docs, Some m)
      end
  end.

(** The statements of the [try] block that follow the tool call and
    precede [log]: the documents afterwards, and the message of a thrown
    TypeError, if any. *)
Definition addNewDocuments (toolName : string) (toolResult : JsValue)
           (docs : list JsValue) : list JsValue * option string :=
  match pushResultDocument toolName toolResult docs with
  | Threw m => (docs, Some m)
  | Returned docs1 =>
      match prop toolResult "files" with
      | Returned (JArr files) => pushFileDocuments toolName files docs1
      | Returned _ => (docs1, None)
      | Threw m => (docs1, Some m)
      end
  end.

Section Agent.

(** [callLLM], seen from the loop: its outcome may depend on the number
    of calls already made in the turn (a scripted provider) and on the
    arguments. *)
Variable callLLM :
  nat -> list LLMMessage -> list LLMTool -> LLMConfig -> Throws LLMResponse.

(** [(pdfMcpTools as any)[toolName]]: [None] is [undefined]. *)
Variable pdfMcpTools :
  string -> option (JsValue -> ToolContext -> Throws JsValue).

Variable JSON_stringify : JsValue -> string.

(** The catalogue [PDF_TOOLS] and the template of the system message. *)
Variable PDF_TOOLS : list LLMTool.
Variable systemMessage : list JsValue -> string.

Variable userMessage : string.
Variable context : AgentContext.

Definition toolMessage (toolCall : LLMToolCall) (payload : JsValue)
  : LLMMessage :=
  mkMessage tool (JSON_stringify payload) (Some (tc_id toolCall))
            (Some (tc_name toolCall)) None.

(** The [catch] block of one tool call and the [operations.push] after
    it. *)
Definition tool_failed (toolCall : LLMToolCall) (thrown : string)
           (st : LoopState) : LoopState :=
  let toolName := tc_name toolCall in
  let errorMessage := str_or thrown "Tool execution failed" in
  let operation :=
    mkOperation toolName (tc_input toolCall)
                (JObj [("success", JBool false); ("error", JStr errorMessage)]) in
  let st := log (mkLog error (Some toolName) None None None
                       (Some errorMessage)) st in
  let st := push_message
              (toolMessage toolCall (JObj [("error", JStr errorMessage)])) st in
  push_operation operation st.

(** The body of [for (const toolCall of result.toolCalls)]. *)
Definition process_tool_call (st : LoopState) (toolCall : LLMToolCall)
  : LoopState :=
  let toolName := tc_name toolCall in
  let toolInput := tc_input toolCall in
  let st := log (mkLog tool_use (Some toolName) (Some toolInput)
                       None None None) st in
  match pdfMcpTools toolName with
  | None => tool_failed toolCall ("Tool " +:+ toolName +:+ " not found") st
  | Some toolFunction =>
      match toolFunction toolInput
              (mkToolContext (documents st) (userId context)) with
      | Threw thrown => tool_failed toolCall thrown st
      | Returned toolResult =>
          let added := addNewDocuments toolName toolResult (documents st) in
          let st := set_documents (fst added) st in
          match snd added with
          | Some thrown => tool_failed toolCall thrown st
          | None =>
              let st := log (mkLog tool_result (Some toolName) None
                                   (Some toolResult) None None) st in
              let st := push_message (toolMessage toolCall toolResult) st in
              push_operation (mkOperation toolName toolInput toolResult) st
          end
      end
  end.

(** The body of the [while] loop. *)
Definition loop_body (st : LoopState) (config : LLMConfig) : LoopState :=
  let earlierCalls := llmCalls st in
  let st := begin_round st in
  match callLLM earlierCalls (messages st) PDF_TOOLS config with
  | Returned result =>
      match toolCalls result with
      | Some (tc :: tcs) =>
          let st := push_message
                      (mkMessage assistant (str_or (resp_content result) "")
                                 None None (Some (tc :: tcs))) st in
          fold_left process_tool_call (tc :: tcs) st
      | _ =>
          (* No more tool calls, we have the final response *)
          let st := push_message
                      (mkMessage assistant (str_or (resp_content result) "")
                                 None None None) st in
          let st := finish (resp_content result) st in
          log (mkLog message None None None (Some (resp_content result))
                     None) st
      end
  | Threw thrown =>
      let st := log (mkLog error None None None None
                           (Some (str_or thrown "Agent execution failed")))
                    st in
      finish ("I encountered an error: " +:+ thrown +:+ ". Please try again.")
             st
  end.

(** [while (continueLoop && iteration < maxIterations) { ... }]: every
    round increments [iteration], so [maxIterations] rounds of fuel are
    never used up while the guard still holds ([while_loop_exits]
    below). *)
Fixpoint while_loop (fuel : nat) (config : LLMConfig) (st : LoopState)
  : LoopState :=
  match fuel with
  | O => st
  | S fuel' =>
      if continueLoop st && (iteration st <? maxIterations)%nat
      then while_loop fuel' config (loop_body st config)
      else st
  end.

(** Default to Manus models if no config provided. *)
Definition effectiveConfig : LLMConfig :=
  match llmConfig context with
  | Some config => config
  | None => mkLLMConfig manus None (Some "gemini-2.5-flash")
  end.

(** [conversationHistory.slice(0, -1)], role-mapped. *)
Definition historyMessages : list LLMMessage :=
  match conversationHistory context with
  | Some history =>
      map (fun histMsg =>
             mkMessage (if String.eqb (hist_role histMsg) "user"
                        then user else assistant)
                       (hist_content histMsg) None None None)
          (removelast history)
  | None => []
  end.

(** The state on entry to the [while] loop. *)
Definition initialState : LoopState :=
  mkState
    ([mkMessage system (systemMessage (ctx_documents context)) None None None]
       ++ historyMessages
       ++ [mkMessage user userMessage None None None])
    [] [] (ctx_documents context) true "" 0 0.

(** The state at the [return]. *)
Definition finalState : LoopState :=
  let st := while_loop maxIterations effectiveConfig initialState in
  if (maxIterations <=? iteration st)%nat
  then mkState (messages st) (st_operations st) (logs st) (documents st)
               (continueLoop st) limitResponse (iteration st) (llmCalls st)
  else st.

Definition runPdfAgent : AgentResult :=
  mkResult (str_or (finalResponse finalState) "Operation completed.")
           (st_operations finalState).

End Agent.


End PdfAgent.

(** ** String operations of the sources *)

Module JsString.

(** [s.startsWith(p)], with the rest of [s]: [Some rest] when
    [s = p + rest]. *)
Fixpoint strip_prefix (p s : string) : option string :=
  match p, s with
  | EmptyString, _ => Some s
  | String a p', String b s' =>
      if Ascii.eqb a b then strip_prefix p' s' else None
  | String _ _, EmptyString => None
  end.

Definition startsWith (s p : string) : bool :=
  match strip_prefix p s with
  | Some _ => true
  | None => false
  end.

(** [s.slice(0, n)] and [s.slice(n)]. *)
Fixpoint take_chars (n : nat) (s : string) : string :=
  match n, s with
  | S n', String a s' => String a (take_chars n' s')
  | _, _ => EmptyString
  end.

Fixpoint drop_chars (n : nat) (s : string) : string :=
  match n, s with
  | S n', String _ s' => drop_chars n' s'
  | _, _ => s
  end.

(** [s.replace(/^\/+/, '')]. *)
Fixpoint strip_leading_slashes (s : string) : string :=
  match s with
  | String c rest =>
      if Ascii.eqb c "/" then strip_leading_slashes rest else s
  | EmptyString => s
  end.

End JsString.

(** ** _core/session.ts *)

Module Session.
Import JsString.

(** One character of the class [[a-f0-9]]. *)
Definition is_hex_digit (c : ascii) : bool :=
  let n := Ascii.nat_of_ascii c in
  ((48 <=? n) && (n <=? 57) || (97 <=? n) && (n <=? 102))%nat.

Fixpoint all_hex_digits (s : string) : bool :=
  match s with
  | EmptyString => true
  | String c rest => is_hex_digit c && all_hex_digits rest
  end.

(** [/^[a-f0-9]{32}$/.test(s)]. *)
Definition is_session_id (s : string) : bool :=
  (String.length s =? 32)%nat && all_hex_digits s.

(** [isValidSessionId]; [None] is [undefined]. *)
Definition isValidSessionId (sessionId : option string) : bool :=
  match sessionId with
  | None => false
  | Some s => if String.eqb s "" then false else is_session_id s
  end.

(** [buf.toString('hex')]: two lowercase digits per byte. *)
Definition hex_digit (n : nat) : ascii :=
  nth n (list_ascii_of_string "0123456789abcdef") "0"%char.

Definition hex_of_byte (b : Byte.byte) : string :=
  let n := Byte.to_nat b in
  String (hex_digit (n / 16)) (String (hex_digit (n mod 16)) EmptyString).

Definition toString_hex (buf : list Byte.byte) : string :=
  String.concat "" (map hex_of_byte buf).

(** The value of a request header. *)
Inductive HeaderValue :=
| single (value : string)
| repeated (values : list string).

(** [getSessionIdFromRequest], from [req.headers['x-session-id']] on. *)
Definition getSessionIdFromRequest (sessionId : option HeaderValue)
  : option string :=
  let id := match sessionId with
            | Some (repeated values) => head values
            | Some (single value) => Some value
            | None => None
            end in
  if isValidSessionId id then id else None.

Definition buildSessionScopedKey (sessionId filename : string) : string :=
  "sessions/" +:+ sessionId +:+ "/" +:+ filename.

(** [key.match(/^sessions\/([a-f0-9]{32})\//)], and the first group of
    the match. *)
Definition extractSessionIdFromKey (key : string) : option string :=
  match strip_prefix "sessions/" key with
  | Some rest =>
      let id := take_chars 32 rest in
      if is_session_id id && startsWith (drop_chars 32 rest) "/"
      then Some id else None
  | None => None
  end.

Section Random.

(** [randomBytes(n)] of [crypto]. *)
Variable randomBytes : nat -> list Byte.byte.

Definition generateSessionId : string := toString_hex (randomBytes 16).

End Random.

End Session.

(** ** The [path] module of Node.js, on POSIX *)

Module NodePath.

(** [s.split('/')]. *)
Fixpoint split_slash (s : string) : list string :=
  match s with
  | EmptyString => [EmptyString]
  | String c rest =>
      if Ascii.eqb c "/" then EmptyString :: split_slash rest
      else match split_slash rest with
           | segment :: segments => String c segment :: segments
           | [] => [String c EmptyString]
           end
  end.

(** An absolute path in normal form: the names from the root down, and
    whether a separator ends it. *)
Record Path := mkPath {
  segments : list string;
  trailingSeparator : bool
}.

(** The normalisation of an absolute path, segment by segment; [res]
    holds the names kept so far, the last one first.  An empty segment
    and [.] are dropped, [..] removes the name before it, and at the
    root it is dropped. *)
Fixpoint normalizeString (res : list string) (path : list string)
  : list string :=
  match path with
  | [] => rev res
  | segment :: rest =>
      if String.eqb segment "" || String.eqb segment "."
      then normalizeString res rest
      else if String.eqb segment ".."
           then normalizeString (tl res) rest
           else normalizeString (segment :: res) rest
  end.

(** [path.join(dir, key)] for an absolute directory [dir] in normal form,
    given by its names: the normal form of [dir + '/' + key]; an empty
    [key] is left out of the join. *)
Definition join (dir : list string) (key : string) : Path :=
  if String.eqb key "" then mkPath (normalizeString [] dir) false
  else
    let names := normalizeString [] (dir ++ split_slash key) in
    mkPath names
           (String.eqb (List.last (split_slash key) "") ""
            && negb (Nat.eqb (length names) 0)).

End NodePath.

(** ** storage.ts: the local file system *)

Module Storage.
Import JsString NodePath.

(** What [localStoragePut] writes and returns: the path [filePath] of
    the file and the pair of [key] and [url]. *)
Record Stored := mkStored {
  stored_path : Path;
  stored_key : string;
  stored_url : string
}.

Section LocalStorage.

(** The names of [UPLOADS_DIR], from the root down: [tmp], [uploads] on
    Vercel, the working directory and [uploads] otherwise. *)
Variable UPLOADS_DIR : list string.

Definition localStoragePut (relKey : string) : Stored :=
  let key := strip_leading_slashes relKey in
  let filePath := join UPLOADS_DIR key in
  mkStored filePath key ("/uploads/" +:+ key).

End LocalStorage.

End Storage.

(** ** pdfMcpTools.ts: documents of the context *)

Module DocumentTools.
Import JsString.

(** Where [downloadPdfFromS3] reads the bytes of a document from. *)
Inductive PdfSource :=
| LocalFile (relativePath : string)   (* [path.join(UPLOADS_DIR, relativePath)] *)
| RemoteUrl (url : string).

(** [localPath]: the file that is read for a local source. *)
Definition localPath (UPLOADS_DIR : list string) (source : PdfSource)
  : option NodePath.Path :=
  match source with
  | LocalFile relativePath => Some (NodePath.join UPLOADS_DIR relativePath)
  | RemoteUrl _ => None
  end.

(** [d.id === documentId]. *)
Definition has_id (documentId : string) (d : JsValue) : Throws bool :=
  let* id := prop d "id" in
  ret (match id with
       | JStr s => String.eqb s documentId
       | _ => false
       end).

(** [documents.find(d => d.id === documentId)]. *)
Fixpoint find_document (documentId : string) (documents : list JsValue)
  : Throws (option JsValue) :=
  match documents with
  | [] => Returned None
  | d :: rest =>
      let* found := has_id documentId d in
      if found then Returned (Some d) else find_document documentId rest
  end.

Section Download.

(** [String(v)] for a value of type [any], as template literals and
    [Array.prototype.join] apply it. *)
Variable String_of : JsValue -> string.

(** [documents.map(d => d.id).join(', ')]. *)
Fixpoint available_ids (documents : list JsValue) : Throws (list string) :=
  match documents with
  | [] => Returned []
  | d :: rest =>
      let* id := prop d "id" in
      let* ids := available_ids rest in
      ret ((match id with
            | JUndefined | JNull => ""
            | _ => String_of id
            end) :: ids)
  end.

(** [downloadPdfFromS3], up to the read of the file or the request. *)
Definition downloadPdfFromS3 (documentId : string) (documents : list JsValue)
  : Throws PdfSource :=
  let* doc := find_document documentId documents in
  match doc with
  | None =>
      let* ids := available_ids documents in
      Threw ("Document " +:+ documentId +:+ " not found. Available documents: "
               +:+ LlmService.join ", " ids)
  | Some doc =>
      let* url := prop doc "url" in
      if negb (truthy url)
      then Threw ("Document " +:+ documentId +:+ " has no URL")
      else
        match url with
        | JStr url =>
            (* If URL is a local path (starts with /uploads/), read from
               UPLOADS_DIR *)
            match strip_prefix "/uploads/" url with
            | Some relativePath => Returned (LocalFile relativePath)
            | None => Returned (RemoteUrl url)
            end
        | _ => Threw "doc.url.startsWith is not a function"
        end
  end.

End Download.

(** [d.type === t]. *)
Definition has_type (t : string) (d : JsValue) : Throws bool :=
  let* type := prop d "type" in
  ret (match type with
       | JStr s => String.eqb s t
       | _ => false
       end).

(** [arr.filter(p)] for a callback that may throw. *)
Fixpoint filterM {A} (p : A -> Throws bool) (l : list A) : Throws (list A) :=
  match l with
  | [] => Returned []
  | a :: rest =>
      let* keep := p a in
      let* kept := filterM p rest in
      ret (if keep then a :: kept else kept)
  end.

(** The callback of the two filters in [delete_documents]:
    [doc && doc.type === t] for the document found under [id]. *)
Definition found_with_type (t : string) (documents : list JsValue)
           (id : string) : Throws bool :=
  let* doc := find_document id documents in
  match doc with
  | Some doc => has_type t doc
  | None => ret false
  end.

(** The objects that the two cleanup tools return. *)
Inductive CleanupResult :=
| Cleared (message : string) (deletedCount : Z)
| WouldClear (message : string) (revisedDocumentCount : Z)
| Deleted (message : string) (deletedCount skippedOriginals : Z)
| WouldDelete (message : string) (revisedToDelete originalsSkipped : Z).

Section Cleanup.

(** The state that the callbacks of the context act on. *)
Variable Store : Type.

(** [clear_revised_documents]. *)
Definition clear_revised_documents
           (documents : list JsValue)
           (clearRevisedCallback : option (Store -> Z * Store))
           (store : Store) : Throws CleanupResult * Store :=
  (* Count current revised documents *)
  match filterM (has_type "revised") documents with
  | Threw thrown => (Threw thrown, store)
  | Returned revisedDocs =>
      match clearRevisedCallback with
      | Some callback =>
          let (deletedCount, store) := callback store in
          (Returned
             (Cleared ("Cleared " +:+ Z_to_string deletedCount
                         +:+ " revised document(s)") deletedCount),
           store)
      | None =>
          let n := Z.of_nat (length revisedDocs) in
          (Returned
             (WouldClear ("Would clear " +:+ Z_to_string n
                            +:+ " revised document(s)") n),
           store)
      end
  end.

(** [delete_documents]. *)
Definition delete_documents
           (documentIds : list string) (documents : list JsValue)
           (deleteDocumentsCallback :
              option (list string -> Store -> Z * Z * Store))
           (store : Store) : Throws CleanupResult * Store :=
  (* Filter to only revised documents *)
  match filterM (found_with_type "revised" documents) documentIds with
  | Threw thrown => (Threw thrown, store)
  | Returned revisedIds =>
      match filterM (found_with_type "original" documents) documentIds with
      | Threw thrown => (Threw thrown, store)
      | Returned originalIds =>
          match deleteDocumentsCallback with
          | Some callback =>
              let '(deletedCount, skippedOriginals, store) :=
                callback revisedIds store in
              (Returned
                 (Deleted
                    ("Deleted " +:+ Z_to_string deletedCount
                       +:+ " revised document(s)"
                       +:+ (if 0 <? skippedOriginals
                            then ". Skipped " +:+ Z_to_string skippedOriginals
                                   +:+ " original document(s) (cannot delete originals)."
                            else ""))
                    deletedCount skippedOriginals),
               store)
          | None =>
              let revisedToDelete := Z.of_nat (length revisedIds) in
              let originalsSkipped := Z.of_nat (length originalIds) in
              (Returned
                 (WouldDelete
                    ("Would delete " +:+ Z_to_string revisedToDelete
                       +:+ " revised document(s)"
                       +:+ (if 0 <? originalsSkipped
                            then ". Would skip "
                                   +:+ Z_to_string originalsSkipped
                                   +:+ " original document(s)."
                            else ""))
                    revisedToDelete originalsSkipped),
               store)
          end
      end
  end.

End Cleanup.

End DocumentTools.

(** ** pdfMcpTools.ts and pdfOperations.ts: combining documents *)

Module CombineTools.

Section Combine.

(** [downloadPdfFromS3] followed by [PDFDocument.load] (in
    [combinePDFs]: [fs.readFile] followed by [PDFDocument.load]). *)
Variable load : string -> Throws PDFDocument.

(** The loop [for (const docId of input.documentIds)], entered with
    the pages that [mergedPdf] holds. *)
Fixpoint combine_loop (documentIds : list string) (mergedPdf : PDFDocument)
  : Throws PDFDocument :=
  match documentIds with
  | [] => Returned mergedPdf
  | docId :: rest =>
      let* pdf := load docId in
      let* pages := copyPages pdf (getPageIndices pdf) in
      (* pages.forEach(page => mergedPdf.addPage(page)) *)
      combine_loop rest (mergedPdf ++ pages)
  end.

(** [combine_pdfs] and [combinePDFs]: the pages of the file that is
    saved. *)
Definition combine_pdfs (documentIds : list string) : Throws PDFDocument :=
  let* mergedPdf := combine_loop documentIds [] in
  ret (save mergedPdf).

End Combine.

End CombineTools.

(** ** whitespaceDetection.ts: the window test of findWhitespace *)

Module WhitespaceService.
Import PdfMcpTools.

(** [data[idx] < threshold]; a read past the end of the buffer is
    [undefined], which is not [< threshold]. *)
Definition dark (data : list Z) (threshold idx : Z) : bool :=
  match index data idx with
  | Some v => v <? threshold
  | None => false
  end.

(** The loop [for (let px = x; px < x + minWidthPixels; px++)], entered
    at [px] with [n] columns to go: [false] when it breaks. *)
Fixpoint row_is_clear (data : list Z) (threshold width py px : Z) (n : nat)
  : bool :=
  match n with
  | O => true
  | S n' =>
      if dark data threshold (py * width + px) then false
      else row_is_clear data threshold width py (px + 1) n'
  end.

(** The loop labelled [outer], entered at [py] with [rows] rows to go:
    the value of [isClear] after it. *)
Fixpoint window_is_clear (data : list Z) (threshold width py : Z) (rows : nat)
         (x : Z) (columns : nat) : bool :=
  match rows with
  | O => true
  | S rows' =>
      if row_is_clear data threshold width py x columns
      then window_is_clear data threshold width (py + 1) rows' x columns
      else false
  end.

(** The two scanning loops of [findWhitespace] on one page: the pixel
    positions of the candidates, in the order of their discovery. *)
Definition candidate_positions (data : list Z) (width height : Z)
           (minWidthPixels minHeightPixels threshold : Z) : list (Z * Z) :=
  let stepX := Z.max 1 (minWidthPixels / 4) in
  let stepY := Z.max 1 (minHeightPixels / 4) in
  flat_map
    (fun y =>
       flat_map
         (fun x =>
            if window_is_clear data threshold width y
                               (Z.to_nat minHeightPixels) x
                               (Z.to_nat minWidthPixels)
            then [(x, y)] else [])
         (for_range 0 (width - minWidthPixels) stepX))
    (for_range 0 (height - minHeightPixels) stepY).

End WhitespaceService.

(** ** pdfAgentRouter.ts: the documents of the sessions *)

Module Router.
Import JsString.

Inductive DocumentType := original | revised.

Definition type_name (t : DocumentType) : string :=
  match t with
  | original => "original"
  | revised => "revised"
  end.

(** A value of the map [documents], without [uploadedAt]; [operation]
    and [pages] are absent ([None], [JUndefined]) in an upload. *)
Record Document := mkDocument {
  doc_id : JsValue;
  doc_name : JsValue;
  doc_url : JsValue;
  doc_type : DocumentType;
  doc_sessionId : string;
  doc_operation : option string;
  doc_pages : JsValue
}.

(** The object that the tools see in [context.documents]. *)
Definition to_js (d : Document) : JsValue :=
  JObj [("id", doc_id d);
        ("name", doc_name d);
        ("url", doc_url d);
        ("type", JStr (type_name (doc_type d)));
        ("sessionId", JStr (doc_sessionId d));
        ("operation", match doc_operation d with
                      | Some tool => JStr tool
                      | None => JUndefined
                      end);
        ("pages", doc_pages d)].

(** [Map<string, any>]: the entries in insertion order, every key once. *)
Abbreviation Documents := (list (string * Document)).

(** [documents.get(key)]. *)
Fixpoint map_get (key : string) (documents : Documents) : option Document :=
  match documents with
  | [] => None
  | (k, d) :: rest => if String.eqb k key then Some d else map_get key rest
  end.

(** [documents.set(key, doc)]: a key that is present keeps its place. *)
Fixpoint map_set (key : string) (doc : Document) (documents : Documents)
  : Documents :=
  match documents with
  | [] => [(key, doc)]
  | (k, d) :: rest =>
      if String.eqb k key then (k, doc) :: rest
      else (k, d) :: map_set key doc rest
  end.

(** [documents.delete(key)]. *)
Fixpoint map_delete (key : string) (documents : Documents) : Documents :=
  match documents with
  | [] => []
  | (k, d) :: rest =>
      if String.eqb k key then rest else (k, d) :: map_delete key rest
  end.

Definition docKey (sessionId docId : string) : string :=
  sessionId +:+ ":" +:+ docId.

(** [key.startsWith(`${sessionId}:`)]. *)
Definition of_session (sessionId : string) (entry : string * Document) : bool :=
  startsWith (fst entry) (sessionId +:+ ":").

Definition is_revised (d : Document) : bool :=
  match doc_type d with
  | revised => true
  | original => false
  end.

Definition getSessionDocuments (sessionId : string) (documents : Documents)
  : list Document :=
  map snd (List.filter (of_session sessionId) documents).

(** [upload], from the generated [docId] and the stored [url] on. *)
Definition upload (sessionId : option string) (docId filename url : string)
           (type : DocumentType) (documents : Documents)
  : Throws (Document * Documents) :=
  match sessionId with
  | None => Threw "Session ID required. Call initSession first."
  | Some sessionId =>
      if String.eqb sessionId ""
      then Threw "Session ID required. Call initSession first."
      else
        let document :=
          mkDocument (JStr docId) (JStr filename) (JStr url) type sessionId
                     None JUndefined in
        Returned (document, map_set (docKey sessionId docId) document documents)
  end.

(** The keys that [clearRevisedCallback] and [clearRevisedDocuments]
    collect before they delete. *)
Definition revisedKeys (sessionId : string) (documents : Documents)
  : list string :=
  map fst (List.filter (fun e => of_session sessionId e && is_revised (snd e))
                       documents).

(** [clearRevisedCallback] of [chat]: [deletedCount] and the map
    afterwards. *)
Definition clearRevisedCallback (sessionId : string) (documents : Documents)
  : Z * Documents :=
  fold_left (fun acc key => (fst acc + 1, map_delete key (snd acc)))
            (revisedKeys sessionId documents)
            (0, documents).

(** [deleteDocumentsCallback] of [chat]: [deletedCount],
    [skippedOriginals] and the map afterwards. *)
Definition deleteDocumentsCallback (sessionId : string) (ids : list string)
           (documents : Documents) : Z * Z * Documents :=
  fold_left
    (fun acc docId =>
       let '(deletedCount, skippedOriginals, documents) := acc in
       let key := docKey sessionId docId in
       match map_get key documents with
       | Some doc =>
           if is_revised doc
           then (deletedCount + 1, skippedOriginals, map_delete key documents)
           else (deletedCount, skippedOriginals + 1, documents)
       | None => acc
       end)
    ids (0, 0, documents).

(** [deleteDocument]. *)
Definition deleteDocument (sessionId : option string) (documentId : string)
           (documents : Documents) : Throws Documents :=
  match sessionId with
  | None => Threw "Session ID required"
  | Some sessionId =>
      if String.eqb sessionId "" then Threw "Session ID required"
      else
        let key := docKey sessionId documentId in
        match map_get key documents with
        | None => Threw "Document not found"
        | Some _ => Returned (map_delete key documents)
        end
  end.

(** [clearAll], as far as the documents go: [success],
    [deletedDocuments] and the map afterwards. *)
Definition clearAll (sessionId : option string) (documents : Documents)
  : bool * Z * Documents :=
  match sessionId with
  | None => (false, 0, documents)
  | Some sessionId =>
      if String.eqb sessionId "" then (false, 0, documents)
      else
        let sessionKeys :=
          map fst (List.filter (of_session sessionId) documents) in
        let cleared :=
          fold_left (fun acc key => (fst acc + 1, map_delete key (snd acc)))
                    sessionKeys (0, documents) in
        (true, fst cleared, snd cleared)
  end.

Section Chat.

(** [`${v}`] for a value of type [any]. *)
Variable String_of : JsValue -> string.

(** The [n]-th [randomBytes(8).toString('hex')] of the request. *)
Variable randomId : nat -> string.

(** The loop [for (const file of op.result.files)]: the number of
    random ids drawn and the map afterwards. *)
Fixpoint storeFiles (sessionId tool : string) (files : list JsValue)
         (drawn : nat) (documents : Documents) : Throws (nat * Documents) :=
  match files with
  | [] => Returned (drawn, documents)
  | file :: rest =>
      let* id := prop file "id" in
      let fileDocId := if truthy id then id else JStr (randomId drawn) in
      let drawn := if truthy id then drawn else S drawn in
      let* filename := prop file "filename" in
      let* url := prop file "url" in
      let* pages := prop file "pages" in
      let document :=
        mkDocument fileDocId
                   (or_else filename (JStr (tool +:+ "_result.pdf")))
                   url revised sessionId (Some tool) pages in
      storeFiles sessionId tool rest drawn
                 (map_set (docKey sessionId (String_of fileDocId)) document
                          documents)
  end.

(** The body of [for (const op of result.operations)] in [chat]. *)
Definition storeOperation (sessionId : string) (op : PdfAgent.Operation)
           (drawn : nat) (documents : Documents) : Throws (nat * Documents) :=
  let result := PdfAgent.op_result op in
  let tool := PdfAgent.op_tool op in
  let* url := prop result "url" in
  let* id := prop result "id" in
  let* filename := prop result "filename" in
  let documents :=
    if truthy url && truthy id
    then map_set (docKey sessionId (String_of id))
                 (mkDocument id
                             (or_else filename (JStr (tool +:+ "_result.pdf")))
                             url revised sessionId (Some tool) JUndefined)
                 documents
    else documents in
  (* Handle multiple files (like split_pdf) *)
  let* files := prop result "files" in
  match files with
  | JArr files => storeFiles sessionId tool files drawn documents
  | _ => Returned (drawn, documents)
  end.

(** [chat], after [runPdfAgent] has returned: the new revised documents
    of the operations are added to the map. *)
Fixpoint storeOperations (sessionId : string)
         (operations : list PdfAgent.Operation)
         (drawn : nat) (documents : Documents) : Throws (nat * Documents) :=
  match operations with
  | [] => Returned (drawn, documents)
  | op :: rest =>
      let* stored := storeOperation sessionId op drawn documents in
      storeOperations sessionId rest (fst stored) (snd stored)
  end.

End Chat.

Section InitSession.

Variable randomBytes : nat -> list Byte.byte.

(** [initSession]: the session id of the reply. *)
Definition initSession (sessionId : option string) : string :=
  match sessionId with
  | Some s =>
      if negb (String.eqb s "") && Session.is_session_id s then s
      else Session.generateSessionId randomBytes
  | None => Session.generateSessionId randomBytes
  end.

End InitSession.

End Router.

(** * Properties *)

(** ** Page ranges and page orders *)

Section PageTools.
Import PdfMcpTools.

Lemma index_Some_iff {A} (arr : list A) (i : Z) :
  is_Some (index arr i) <-> 0 <= i < Z.of_nat (length arr).
Proof.
  unfold index. destruct (Z.ltb_spec i 0) as [Hneg|Hpos].
  - split; [intros [x Hx]; discriminate | lia].
  - rewrite lookup_lt_is_Some. lia.
Qed.

Lemma mapM_length {A B} (f : A -> Throws B) (l : list A) (bs : list B) :
  mapM f l = Returned bs -> length bs = length l.
Proof.
  revert bs. induction l as [|a l IH]; simpl; intros bs H.
  - now inversion H.
  - destruct (f a); simpl in H; [|discriminate].
    destruct (mapM f l); simpl in H; [|discriminate].
    inversion H; subst. simpl. now rewrite (IH _ eq_refl).
Qed.

Lemma mapM_Returned {A B} (f : A -> Throws B) (g : A -> B) (l : list A) :
  (forall a, In a l -> f a = Returned (g a)) ->
  mapM f l = Returned (map g l).
Proof.
  induction l as [|a l IH]; simpl; intros H; [reflexivity|].
  rewrite (H a) by now left. simpl.
  rewrite IH by (intros; apply H; now right). reflexivity.
Qed.

Lemma mapM_Threw {A B} (f : A -> Throws B) (l : list A) (a : A) (m : string) :
  In a l -> (forall a', f a' = Threw m \/ exists b, f a' = Returned b) ->
  f a = Threw m -> mapM f l = Threw m.
Proof.
  intros Hin Hf Ha. induction l as [|a' l IH]; [contradiction|].
  simpl. destruct (Hf a') as [Hthrow|[b Hb]].
  - now rewrite Hthrow.
  - rewrite Hb. simpl. destruct Hin as [->|Hin].
    + congruence.
    + now rewrite (IH Hin).
Qed.

(** [copyPages] yields one page per index when it resolves. *)
Lemma copyPages_length srcDoc indices pages :
  copyPages srcDoc indices = Returned pages -> length pages = length indices.
Proof. apply mapM_length. Qed.

(** [copyPages] resolves when every index lies inside the source. *)
Lemma copyPages_in_range srcDoc indices :
  (forall i, In i indices -> 0 <= i < getPageCount srcDoc) ->
  copyPages srcDoc indices =
  Returned (map (fun i => nth (Z.to_nat i) srcDoc O) indices).
Proof.
  intros Hin. apply mapM_Returned. intros i Hi.
  destruct (proj2 (index_Some_iff srcDoc i) (Hin i Hi)) as [page Hpage].
  rewrite Hpage. f_equal.
  unfold index in Hpage. destruct (i <? 0); [discriminate|].
  symmetry. apply nth_lookup_Some with (d := O) in Hpage. exact Hpage.
Qed.

(** [copyPages] rejects as soon as one index lies outside the source. *)
Lemma copyPages_out_of_range srcDoc indices i :
  In i indices -> ~ (0 <= i < getPageCount srcDoc) ->
  copyPages srcDoc indices =
  Threw "Cannot read properties of undefined (reading 'node')".
Proof.
  intros Hin Hout. unfold copyPages.
  apply mapM_Threw with (a := i); [exact Hin| |].
  - intros a'. destruct (index srcDoc a'); eauto.
  - destruct (index srcDoc i) as [page|] eqn:E; [|reflexivity].
    exfalso. apply Hout. apply index_Some_iff. rewrite E. eauto.
Qed.

Lemma Array_from_length_length {A} n (f : Z -> A) :
  length (Array_from_length n f) = Z.to_nat n.
Proof. unfold Array_from_length. now rewrite length_map, length_seq. Qed.

Lemma In_Array_from_length {A} n (f : Z -> A) a :
  In a (Array_from_length n f) <-> exists i, 0 <= i < n /\ a = f i.
Proof.
  unfold Array_from_length. rewrite in_map_iff. split.
  - intros [k [<- Hk]]. apply in_seq in Hk. exists (Z.of_nat k). split; [lia|reflexivity].
  - intros [i [Hi ->]]. exists (Z.to_nat i). split.
    + f_equal. lia.
    + apply in_seq. lia.
Qed.

(** [save] leaves a document that has a page as it is. *)
Lemma save_pages (doc : PDFDocument) : (0 < length doc)%nat -> save doc = doc.
Proof. destruct doc; simpl; [lia|reflexivity]. Qed.

Lemma save_no_pages : save [] = [blankPage].
Proof. reflexivity. Qed.

(** Inside the document, [split_pdf] writes the pages [start .. end]:
    [end - start + 1] of them. *)
Lemma split_range_within_document pdfDoc range :
  1 <= range_start range <= range_end range ->
  range_end range <= getPageCount pdfDoc ->
  exists file,
    split_range pdfDoc range = Returned file /\
    Z.of_nat (length (file_content file))
    = range_end range - range_start range + 1.
Proof.
  intros Hse Hend. unfold split_range.
  rewrite copyPages_in_range.
  - simpl. eexists. split; [reflexivity|]. simpl.
    assert (Hlen : length (map (fun i => nth (Z.to_nat i) pdfDoc O)
                               (split_indices range))
                   = Z.to_nat (range_end range - range_start range + 1)).
    { rewrite length_map. unfold split_indices.
      now rewrite Array_from_length_length. }
    rewrite save_pages by lia. lia.
  - intros i Hi. apply In_Array_from_length in Hi as [k [Hk ->]]. lia.
Qed.

(** [split_pdf] has no clamp: any range that reaches outside the document
    makes the tool reject, and no file is produced. *)
Lemma split_range_outside_document pdfDoc range :
  range_start range <= range_end range ->
  range_start range < 1 \/ getPageCount pdfDoc < range_end range ->
  split_range pdfDoc range =
  Threw "Cannot read properties of undefined (reading 'node')".
Proof.
  intros Hse Hout. unfold split_range.
  assert (Hbad : exists i, In i (split_indices range)
                           /\ ~ (0 <= i < getPageCount pdfDoc)).
  { destruct Hout as [Hlow|Hhigh].
    - exists (range_start range - 1). split; [|lia].
      apply In_Array_from_length. exists 0. split; lia.
    - exists (range_end range - 1). split; [|lia].
      apply In_Array_from_length.
      exists (range_end range - range_start range). split; lia. }
  destruct Hbad as [i [Hi Hout']].
  now rewrite (copyPages_out_of_range _ _ i Hi Hout').
Qed.

(** The sibling [splitPDF] validates the start and clamps the end: on an
    N-page document a range with [1 <= start <= end] and [start <= N]
    gives [min(end, N) - start + 1] pages. *)
Lemma splitPDF_range_clamps sourcePdf range :
  1 <= range_start range <= range_end range ->
  range_start range <= getPageCount sourcePdf ->
  exists out,
    PdfOperations.splitPDF_range sourcePdf range = Returned out /\
    Z.of_nat (length out)
    = Z.min (range_end range) (getPageCount sourcePdf) - range_start range + 1.
Proof.
  intros Hse Hstart. unfold PdfOperations.splitPDF_range.
  destruct (Z.ltb_spec (range_start range) 1); [lia|].
  destruct (Z.ltb_spec (range_end range) (range_start range)); [lia|].
  destruct (Z.gtb_spec (range_start range) (getPageCount sourcePdf)); [lia|].
  rewrite copyPages_in_range.
  - simpl. eexists. split; [reflexivity|].
    match goal with
    | |- context [save ?pages] =>
        assert (Hlen : length pages
                       = Z.to_nat (Z.min (range_end range)
                                         (getPageCount sourcePdf)
                                   - range_start range + 1))
          by (now rewrite length_map, Array_from_length_length)
    end.
    rewrite save_pages by lia. lia.
  - intros i Hi. apply In_Array_from_length in Hi as [k [Hk ->]]. lia.
Qed.

(** ... and reports a start outside the document. *)
Lemma splitPDF_range_rejects_start sourcePdf range :
  range_start range < 1 \/ getPageCount sourcePdf < range_start range ->
  exists m, PdfOperations.splitPDF_range sourcePdf range = Threw m.
Proof.
  intros Hout. unfold PdfOperations.splitPDF_range.
  destruct (Z.ltb_spec (range_start range) 1); [eauto|].
  destruct (Z.ltb_spec (range_end range) (range_start range)); [eauto|].
  destruct (Z.gtb_spec (range_start range) (getPageCount sourcePdf)); [eauto|].
  lia.
Qed.

Definition five_pages : PDFDocument := [1; 2; 3; 4; 5]%nat.

(** C1.  On a 5-page document the range [2 .. 10] should give the 4 pages
    [2 .. 5], the end being clamped to the document length.  [split_pdf]
    asks [copyPages] for the nine indices [1 .. 9] instead, and the call
    rejects: no file is produced.  The sibling [splitPDF] does clamp. *)
Theorem split_pdf_end_beyond_length_not_clamped :
  split_indices (mkPageRange 2 10 "") = [1; 2; 3; 4; 5; 6; 7; 8; 9]
  /\ split_pdf five_pages [mkPageRange 2 10 ""]
     = Threw "Cannot read properties of undefined (reading 'node')"
  /\ PdfOperations.splitPDF five_pages [mkPageRange 2 10 ""]
     = Returned [[2; 3; 4; 5]%nat].
Proof. repeat split; reflexivity. Qed.

(** [move_pages] hands every requested index to [copyPages]: an order
    with an index outside [1 .. pageCount] makes the tool reject. *)
Lemma move_pages_out_of_range pdfDoc pageOrder n :
  In n pageOrder -> ~ (1 <= n <= getPageCount pdfDoc) ->
  move_pages pdfDoc pageOrder =
  Threw "Cannot read properties of undefined (reading 'node')".
Proof.
  intros Hin Hout. unfold move_pages.
  rewrite (copyPages_out_of_range _ _ (n - 1)); [reflexivity| |lia].
  apply in_map_iff. eauto.
Qed.

(** When it resolves, [move_pages] returns as many pages as were
    requested, and one blank page when none was. *)
Lemma move_pages_length pdfDoc pageOrder out :
  move_pages pdfDoc pageOrder = Returned out ->
  length (move_content out) = Nat.max 1 (length pageOrder).
Proof.
  unfold move_pages. intros H.
  destruct (copyPages pdfDoc _) as [pages|] eqn:E; simpl in H; [|discriminate].
  inversion H; subst; simpl.
  apply copyPages_length in E. rewrite length_map in E.
  destruct pages; simpl in *; lia.
Qed.

(** The sibling [movePages] drops the indices outside the document and
    keeps the others in the given order. *)
Lemma movePages_drops_out_of_range sourcePdf pageOrder :
  PdfOperations.movePages sourcePdf pageOrder =
  Returned
    (save
       (map (fun n => nth (Z.to_nat (n - 1)) sourcePdf O)
            (List.filter (fun n => (1 <=? n) && (n <=? getPageCount sourcePdf))
                    pageOrder))).
Proof.
  unfold PdfOperations.movePages.
  rewrite copyPages_in_range.
  - simpl. do 2 f_equal.
    induction pageOrder as [|n l IH]; [reflexivity|].
    simpl.
    destruct (Z.geb_spec (n - 1) 0), (Z.ltb_spec (n - 1) (getPageCount sourcePdf)),
             (Z.leb_spec 1 n), (Z.leb_spec n (getPageCount sourcePdf));
      simpl; try lia; now rewrite ?IH.
  - intros i Hi. apply filter_In in Hi as [_ Hi].
    apply andb_true_iff in Hi as [H1 H2]. lia.
Qed.

(** C3.  The order [3, 99, 1] on a 5-page document should give the two
    pages [3, 1], index 99 being dropped.  [move_pages] asks [copyPages]
    for the indices [2, 98, 0] instead, and the call rejects: no document
    is produced.  The sibling [movePages] does drop the index. *)
Theorem move_pages_out_of_range_index_not_dropped :
  map (fun n => n - 1) [3; 99; 1] = [2; 98; 0]
  /\ move_pages five_pages [3; 99; 1]
     = Threw "Cannot read properties of undefined (reading 'node')"
  /\ PdfOperations.movePages five_pages [3; 99; 1] = Returned [3; 1]%nat.
Proof. repeat split; reflexivity. Qed.

End PageTools.

(** ** The provider adapter *)

Section Adapter.
Import LlmService.

(** One step of the conversion loop. *)
Lemma toAnthropicMessages_cons msg rest :
  toAnthropicMessages (msg :: rest) =
  match role msg with
  | tool =>
      mkParam wire_user
              (Blocks (toolResultBlock msg :: fst (collectToolResults rest)))
      :: toAnthropicMessages (snd (collectToolResults rest))
  | assistant => assistantParam msg :: toAnthropicMessages rest
  | _ => mkParam wire_user (Text (content msg)) :: toAnthropicMessages rest
  end.
Proof. simp toAnthropicMessages. destruct (role msg); reflexivity. Qed.

Definition starts_without_tool (l : list LLMMessage) : Prop :=
  match l with
  | [] => True
  | m :: _ => role m <> tool
  end.

Lemma Role_eqb_eq a b : Role_eqb a b = true <-> a = b.
Proof. destruct a, b; simpl; split; congruence. Qed.

Lemma collectToolResults_stops l :
  starts_without_tool l -> collectToolResults l = ([], l).
Proof.
  destruct l as [|m l]; simpl; [reflexivity|]. intros H.
  destruct (Role_eqb (role m) tool) eqn:E; [|reflexivity].
  apply Role_eqb_eq in E. contradiction.
Qed.

Lemma collectToolResults_app l rest :
  starts_without_tool rest ->
  collectToolResults (l ++ rest) =
  (fst (collectToolResults l), snd (collectToolResults l) ++ rest).
Proof.
  intros Hrest. induction l as [|m l IH]; simpl.
  - now apply collectToolResults_stops.
  - destruct (Role_eqb (role m) tool); [|reflexivity].
    now rewrite IH.
Qed.

Lemma collectToolResults_tools tools :
  Forall (fun m => role m = tool) tools ->
  collectToolResults tools = (map toolResultBlock tools, []).
Proof.
  induction 1 as [|m l Hm _ IH]; simpl; [reflexivity|].
  rewrite Hm, IH. reflexivity.
Qed.

Lemma collectToolResults_shorter l :
  (length (snd (collectToolResults l)) <= length l)%nat.
Proof.
  induction l as [|m l IH]; simpl; [lia|].
  destruct (Role_eqb (role m) tool); simpl; lia.
Qed.

(** The conversion of a prefix does not depend on what follows it, as
    long as the rest does not start with a tool message. *)
Lemma toAnthropicMessages_app pre rest :
  starts_without_tool rest ->
  toAnthropicMessages (pre ++ rest) =
  toAnthropicMessages pre ++ toAnthropicMessages rest.
Proof.
  intros Hrest.
  remember (length pre) as n eqn:Hn.
  revert pre Hn. induction n as [n IH] using lt_wf_ind. intros pre ->.
  destruct pre as [|msg pre]; [reflexivity|].
  simpl app. rewrite !toAnthropicMessages_cons.
  destruct (role msg); simpl.
  - f_equal. eapply IH; [|reflexivity]. simpl; lia.
  - f_equal. eapply IH; [|reflexivity]. simpl; lia.
  - f_equal. eapply IH; [|reflexivity]. simpl; lia.
  - rewrite collectToolResults_app by assumption. simpl. f_equal.
    eapply IH; [|reflexivity].
    pose proof (collectToolResults_shorter pre). simpl; lia.
Qed.

Lemma conversationMessages_app l1 l2 :
  conversationMessages (l1 ++ l2) =
  conversationMessages l1 ++ conversationMessages l2.
Proof. apply List.filter_app. Qed.

Lemma conversationMessages_tools tools :
  Forall (fun m => role m = tool) tools -> conversationMessages tools = tools.
Proof.
  induction 1 as [|m l Hm _ IH]; [reflexivity|].
  unfold conversationMessages in *. simpl. rewrite Hm. simpl. now rewrite IH.
Qed.

(** C7.  When the tool messages [results] (at least one) directly follow
    the assistant message [asst], and the next message of the
    conversation, if any, is not a tool message, the array sent to
    Protocol A holds, right after the wire form of [asst], exactly one
    user message, whose blocks are the [tool_result] blocks of [results]
    in the same order; the messages before and after are converted on
    their own. *)
Theorem tool_results_coalesce_into_one_user_message
        (before : list LLMMessage) (asst : LLMMessage)
        (results after : list LLMMessage) :
  role asst = assistant ->
  results <> [] ->
  Forall (fun m => role m = tool) results ->
  starts_without_tool (conversationMessages after) ->
  anthropicMessages (before ++ asst :: results ++ after) =
  anthropicMessages before
    ++ [assistantParam asst;
        mkParam wire_user (Blocks (map toolResultBlock results))]
    ++ anthropicMessages after.
Proof.
  intros Hasst Hne Htools Hafter. unfold anthropicMessages.
  rewrite conversationMessages_app.
  change (asst :: results ++ after) with ([asst] ++ results ++ after).
  rewrite !conversationMessages_app, (conversationMessages_tools results Htools).
  assert (Hc : conversationMessages [asst] = [asst]).
  { unfold conversationMessages. simpl. now rewrite Hasst. }
  rewrite Hc. simpl app.
  rewrite toAnthropicMessages_app by (simpl; congruence).
  f_equal. rewrite toAnthropicMessages_cons, Hasst. simpl. f_equal.
  destruct results as [|t ts]; [congruence|].
  inversion Htools as [|? ? Ht Hts]; subst.
  simpl app. rewrite toAnthropicMessages_cons, Ht.
  rewrite collectToolResults_app by assumption.
  rewrite (collectToolResults_tools ts Hts). reflexivity.
Qed.

Definition sample_call_1 : LLMToolCall :=
  mkToolCall "toolu_01" "split_pdf"
             (JObj [("documentId", JStr "doc1");
                    ("pageRanges",
                     JArr [JObj [("start", JNum 1); ("end", JNum 2)]])]).

Definition sample_call_2 : LLMToolCall :=
  mkToolCall "toolu_02" "extract_text" (JObj [("documentId", JStr "doc1")]).

Definition sample_assistant : LLMMessage :=
  mkMessage assistant "Working on it." None None
            (Some [sample_call_1; sample_call_2]).

Definition sample_results : list LLMMessage :=
  [mkMessage tool "split done" (Some "toolu_01") (Some "split_pdf") None;
   mkMessage tool "text of the document" (Some "toolu_02") (Some "extract_text") None].

Definition sample_before : list LLMMessage :=
  [mkMessage system "You are a PDF operations assistant." None None None;
   mkMessage user "Split the first two pages and read them." None None None].

Definition sample_after : list LLMMessage :=
  [mkMessage assistant "Both steps are done." None None None].

Lemma tool_results_coalesce_witness :
  anthropicMessages
    (sample_before ++ sample_assistant :: sample_results ++ sample_after) =
  anthropicMessages sample_before
    ++ [assistantParam sample_assistant;
        mkParam wire_user (Blocks (map toolResultBlock sample_results))]
    ++ anthropicMessages sample_after.
Proof.
  apply tool_results_coalesce_into_one_user_message.
  - reflexivity.
  - discriminate.
  - repeat constructor.
  - simpl. discriminate.
Defined.

Lemma append_empty_r (s : string) : s +:+ "" = s.
Proof.
  induction s as [|a s IH]; [reflexivity|].
  change (String a (s +:+ "") = String a s). now rewrite IH.
Qed.

Lemma extractBlocks_tool_use tcs :
  extractBlocks
    (map (fun tc => ToolUseBlock (tc_id tc) (tc_name tc) (tc_input tc)) tcs)
  = ("", tcs).
Proof.
  induction tcs as [|tc tcs IH]; simpl; [reflexivity|].
  rewrite IH. simpl. now destruct tc.
Qed.

(** C8.  An assistant message that carries the tool calls [calls] (at
    least one) is sent to Protocol A as one assistant message made of
    content blocks; reading these blocks back as [callClaude] reads a
    reply gives exactly [calls] again - same number, ids, names and
    inputs, the inputs as the values they were - and the text of the
    message. *)
Theorem tool_calls_round_trip
        (msg : LLMMessage) (calls : list LLMToolCall) (stop : option string) :
  role msg = assistant ->
  tool_calls msg = Some calls ->
  calls <> [] ->
  exists blocks,
    toAnthropicMessages [msg] = [mkParam wire_assistant (Blocks blocks)]
    /\ toolCalls (parseClaudeResponse (mkAnthropicMessage blocks stop))
       = Some calls
    /\ resp_content (parseClaudeResponse (mkAnthropicMessage blocks stop))
       = content msg.
Proof.
  intros Hrole Hcalls Hne.
  destruct calls as [|tc tcs]; [congruence|].
  rewrite toAnthropicMessages_cons, Hrole.
  unfold assistantParam. rewrite Hcalls.
  pose proof (extractBlocks_tool_use (tc :: tcs)) as Hread.
  set (uses := map _ (tc :: tcs)) in *.
  eexists. split; [reflexivity|].
  unfold parseClaudeResponse.
  destruct (String.eqb_spec (content msg) "") as [Hempty|Hfull].
  - cbn -[uses]. rewrite Hread. cbn. now rewrite Hempty.
  - cbn -[uses]. rewrite Hread. cbn.
    split; [reflexivity|apply append_empty_r].
Qed.

Lemma tool_calls_round_trip_witness :
  exists blocks,
    toAnthropicMessages [sample_assistant]
    = [mkParam wire_assistant (Blocks blocks)]
    /\ toolCalls (parseClaudeResponse
                    (mkAnthropicMessage blocks (Some "tool_use")))
       = Some [sample_call_1; sample_call_2]
    /\ resp_content (parseClaudeResponse
                       (mkAnthropicMessage blocks (Some "tool_use")))
       = "Working on it.".
Proof.
  apply (tool_calls_round_trip sample_assistant [sample_call_1; sample_call_2]).
  - reflexivity.
  - reflexivity.
  - discriminate.
Defined.

(** *** Choice of the backend *)

Definition no_key_config : LLMConfig :=
  mkLLMConfig claude None (Some "claude-opus-4-20250514").

Definition anthropic_rejects : string -> CreateParams -> Throws AnthropicMessage :=
  fun _ _ => Threw "Could not resolve authentication method".

Definition manus_answers : InvokeParams -> Throws (list Choice) :=
  fun _ => Returned [mkChoice (JStr "Hello from the Manus backend") None
                              (Some "stop")].

(** C2, refuted as stated: with provider [claude] and no API key,
    [callLLM] returns the reply of the Manus backend; it does not fail. *)
Lemma callLLM_claude_without_key_falls_back :
  callLLM anthropic_rejects manus_answers (fun _ => "null")
          (fun _ => Returned JNull)
          [mkMessage user "Hello" None None None] [] no_key_config
  = Returned (mkResponse "Hello from the Manus backend" None "stop")
  /\ ~ exists m,
        callLLM anthropic_rejects manus_answers (fun _ => "null")
                (fun _ => Returned JNull)
                [mkMessage user "Hello" None None None] [] no_key_config
        = Threw m.
Proof. split; [reflexivity|]. intros [m H]. discriminate H. Qed.

(** C2, as the code has it.  With provider [claude] and no API key
    (absent or empty), [callLLM] is [callManus]: it returns what the Manus
    backend returns and fails only when that backend fails; [callClaude]
    is not called. *)
Theorem callLLM_without_key_is_callManus
        (messages_create : string -> CreateParams -> Throws AnthropicMessage)
        (invokeLLM : InvokeParams -> Throws (list Choice))
        (JSON_stringify : JsValue -> string)
        (JSON_parse : string -> Throws JsValue)
        (messages : list LLMMessage) (tools : list LLMTool)
        (config : LLMConfig) :
  provider config = claude ->
  opt_truthy (anthropicApiKey config) = false ->
  callLLM messages_create invokeLLM JSON_stringify JSON_parse
          messages tools config
  = callManus invokeLLM JSON_stringify JSON_parse messages tools config.
Proof.
  intros Hprovider Hkey. unfold callLLM.
  now rewrite Hprovider, Hkey.
Qed.

Lemma callLLM_without_key_is_callManus_witness :
  callLLM anthropic_rejects manus_answers (fun _ => "null")
          (fun _ => Returned JNull)
          [mkMessage user "Hello" None None None] [] no_key_config
  = callManus manus_answers (fun _ => "null") (fun _ => Returned JNull)
              [mkMessage user "Hello" None None None] [] no_key_config.
Proof.
  apply callLLM_without_key_is_callManus; reflexivity.
Defined.

(** With a key, the Claude backend is used. *)
Lemma callLLM_with_key_is_callClaude
      (messages_create : string -> CreateParams -> Throws AnthropicMessage)
      (invokeLLM : InvokeParams -> Throws (list Choice))
      (JSON_stringify : JsValue -> string)
      (JSON_parse : string -> Throws JsValue)
      (messages : list LLMMessage) (tools : list LLMTool)
      (config : LLMConfig) :
  provider config = claude ->
  opt_truthy (anthropicApiKey config) = true ->
  callLLM messages_create invokeLLM JSON_stringify JSON_parse
          messages tools config
  = callClaude messages_create messages tools config.
Proof.
  intros Hprovider Hkey. unfold callLLM.
  now rewrite Hprovider, Hkey.
Qed.

End Adapter.

(** ** The agent loop *)

Section AgentLoop.
Import LlmService PdfAgent.

Variable callLLM :
  nat -> list LLMMessage -> list LLMTool -> LLMConfig -> Throws LLMResponse.
Variable pdfMcpTools :
  string -> option (JsValue -> ToolContext -> Throws JsValue).
Variable JSON_stringify : JsValue -> string.
Variable PDF_TOOLS : list LLMTool.
Variable systemMessage : list JsValue -> string.
Variable userMessage : string.
Variable context : AgentContext.

Abbreviation config := (effectiveConfig context).
Abbreviation process := (process_tool_call pdfMcpTools JSON_stringify context).
Abbreviation body := (loop_body callLLM pdfMcpTools JSON_stringify PDF_TOOLS context).
Abbreviation loop := (while_loop callLLM pdfMcpTools JSON_stringify PDF_TOOLS context).

(** The provider's reply to call number [n] (counted from 0) carries at
    least one tool call, whatever the messages. *)
Definition replies_with_tool_calls (n : nat) : Prop :=
  forall msgs, exists r tc tcs,
    callLLM n msgs PDF_TOOLS config = Returned r
    /\ toolCalls r = Some (tc :: tcs).

(** The provider's reply to call number [n] is the text [text] without
    tool calls. *)
Definition replies_with_final_answer (n : nat) (text : string) : Prop :=
  forall msgs, exists r,
    callLLM n msgs PDF_TOOLS config = Returned r
    /\ resp_content r = text
    /\ (toolCalls r = None \/ toolCalls r = Some []).



(** The operation recorded for a failed call, and the tool message that
    feeds the error back to the model. *)
Definition failed_operation (toolCall : LLMToolCall) (thrown : string)
  : Operation :=
  mkOperation (tc_name toolCall) (tc_input toolCall)
              (JObj [("success", JBool false);
                     ("error", JStr (str_or thrown "Tool execution failed"))]).

Definition error_message (toolCall : LLMToolCall) (thrown : string)
  : LLMMessage :=
  mkMessage tool
            (JSON_stringify
               (JObj [("error", JStr (str_or thrown "Tool execution failed"))]))
            (Some (tc_id toolCall)) (Some (tc_name toolCall)) None.

(** [l'] is [l] with entries pushed at its end. *)
Definition extends {A} (l l' : list A) : Prop := exists pushed, l' = l ++ pushed.

Lemma extends_refl {A} (l : list A) : extends l l.
Proof. exists []. now rewrite app_nil_r. Qed.

Lemma extends_trans {A} (l1 l2 l3 : list A) :
  extends l1 l2 -> extends l2 l3 -> extends l1 l3.
Proof. intros [p ->] [q ->]. exists (p ++ q). now rewrite app_assoc. Qed.

Lemma extends_push {A} (l : list A) a : extends l (l ++ [a]).
Proof. now exists [a]. Qed.


(** What the loop never touches while it executes tool calls. *)
Definition same_control (st st' : LoopState) : Prop :=
  continueLoop st' = continueLoop st
  /\ finalResponse st' = finalResponse st
  /\ iteration st' = iteration st
  /\ llmCalls st' = llmCalls st.

Lemma tool_failed_spec toolCall thrown st :
  let st' := tool_failed JSON_stringify toolCall thrown st in
  same_control st st'
  /\ st_operations st' = st_operations st ++ [failed_operation toolCall thrown]
  /\ messages st' = messages st ++ [error_message toolCall thrown].
Proof. repeat split. Qed.

(** Every tool call, whether it returns or throws, pushes exactly one
    operation and exactly one tool message, and leaves the control
    variables of the loop alone. *)
Lemma process_tool_call_spec st toolCall :
  let st' := process st toolCall in
  same_control st st'
  /\ (exists op, st_operations st' = st_operations st ++ [op]
                 /\ op_tool op = tc_name toolCall)
  /\ (exists m, messages st' = messages st ++ [m]
                /\ role m = tool
                /\ tool_call_id m = Some (tc_id toolCall)).
Proof.
  unfold process_tool_call.
  destruct (pdfMcpTools (tc_name toolCall)) as [toolFunction|].
  - destruct (toolFunction _ _) as [toolResult|thrown].
    + destruct (snd (addNewDocuments _ toolResult _)).
      * repeat split; eexists; simpl; eauto.
      * repeat split; eexists; simpl; eauto.
    + repeat split; eexists; simpl; eauto.
  - repeat split; eexists; simpl; eauto.
Qed.


Lemma process_all_spec calls : forall st,
  let st' := fold_left process calls st in
  same_control st st'
  /\ extends (st_operations st) (st_operations st')
  /\ extends (messages st) (messages st')
  /\ length (st_operations st') = (length (st_operations st) + length calls)%nat.
Proof.
  induction calls as [|tc calls IH]; intros st; simpl.
  - repeat split; try apply extends_refl. lia.
  - destruct (process_tool_call_spec st tc)
      as [[Hc [Hf [Hi Hl]]] [[op [Hop _]] [m [Hm _]]]].
    destruct (IH (process st tc)) as [[Hc' [Hf' [Hi' Hl']]] [Hops [Hmsgs Hlen]]].
    repeat split; try congruence.
    + eapply extends_trans; [|exact Hops]. rewrite Hop. apply extends_push.
    + eapply extends_trans; [|exact Hmsgs]. rewrite Hm. apply extends_push.
    + rewrite Hlen, Hop, length_app. simpl. lia.
Qed.


(** A round whose reply carries tool calls: the assistant message with
    the calls is pushed, every call is processed, and the loop goes on. *)
Lemma loop_body_tool_calls st :
  replies_with_tool_calls (llmCalls st) ->
  let st' := body st config in
  continueLoop st' = continueLoop st
  /\ finalResponse st' = finalResponse st
  /\ iteration st' = S (iteration st)
  /\ llmCalls st' = S (llmCalls st)
  /\ extends (st_operations st) (st_operations st')
  /\ extends (messages st) (messages st').
Proof.
  intros Hreply. destruct (Hreply (messages st)) as [r [tc [tcs [Hr Hcalls]]]].
  unfold loop_body. simpl messages. simpl llmCalls. rewrite Hr, Hcalls.
  match goal with
  | |- context [fold_left _ ?calls ?st0] =>
      destruct (process_all_spec calls st0) as [[Hc [Hf [Hi Hl]]] [Hops [Hmsgs _]]]
  end.
  repeat split; try assumption.
  eapply extends_trans; [|exact Hmsgs]. apply extends_push.
Qed.


(** A round whose reply carries no tool call ends the loop: the text is
    pushed as a plain assistant message and becomes [finalResponse]. *)
Lemma loop_body_final_answer st text :
  replies_with_final_answer (llmCalls st) text ->
  let st' := body st config in
  continueLoop st' = false
  /\ finalResponse st' = text
  /\ iteration st' = S (iteration st)
  /\ llmCalls st' = S (llmCalls st)
  /\ st_operations st' = st_operations st
  /\ messages st' = messages st ++ [mkMessage assistant text None None None].
Proof.
  intros Hreply. destruct (Hreply (messages st)) as [r [Hr [Htext Hnone]]].
  unfold loop_body. simpl messages. simpl llmCalls. rewrite Hr.
  assert (Hplain : str_or (resp_content r) "" = text).
  { rewrite Htext. unfold str_or. now destruct (String.eqb_spec text ""). }
  destruct Hnone as [-> | ->]; simpl; rewrite Hplain, Htext; repeat split.
Qed.

Lemma while_loop_stopped fuel st :
  continueLoop st = false -> loop fuel config st = st.
Proof. intros H. destruct fuel; simpl; [reflexivity|]. now rewrite H. Qed.

Lemma while_loop_step fuel st :
  continueLoop st = true ->
  (iteration st < maxIterations)%nat ->
  loop (S fuel) config st = loop fuel config (body st config).
Proof.
  intros Hc Hi. simpl. rewrite Hc.
  apply Nat.ltb_lt in Hi. now rewrite Hi.
Qed.

(** The fuel is never the reason why the model of the [while] loop
    stops: started with [iteration = 0], the state it returns falsifies
    the guard of the loop. *)
Lemma while_loop_exits : forall fuel st,
  (maxIterations <= iteration st + fuel)%nat ->
  let st' := loop fuel config st in
  continueLoop st' && (iteration st' <? maxIterations)%nat = false.
Proof.
  induction fuel as [|fuel IH]; intros st Hfuel; simpl.
  - apply andb_false_iff. right. apply Nat.ltb_ge. lia.
  - destruct (continueLoop st && (iteration st <? maxIterations)%nat) eqn:Hguard;
      [|exact Hguard].
    apply IH.
    assert (Hit : iteration (body st config) = S (iteration st)).
    { unfold loop_body.
      destruct (callLLM _ _ _ _) as [r|thrown]; [|reflexivity].
      destruct (toolCalls r) as [[|tc tcs]|]; try reflexivity.
      match goal with
      | |- context [fold_left _ ?calls ?st0] =>
          destruct (process_all_spec calls st0) as [[_ [_ [Hi _]]] _]
      end.
      rewrite Hi. reflexivity. }
    rewrite Hit. lia.
Qed.

(** [rounds] consecutive replies with tool calls take the loop [rounds]
    rounds further, as long as the ceiling allows. *)
Lemma tool_rounds : forall rounds fuel st,
  (forall n, (llmCalls st <= n < llmCalls st + rounds)%nat ->
             replies_with_tool_calls n) ->
  continueLoop st = true ->
  (iteration st + rounds <= maxIterations)%nat ->
  (rounds <= fuel)%nat ->
  exists st',
    loop fuel config st = loop (fuel - rounds) config st'
    /\ continueLoop st' = true
    /\ finalResponse st' = finalResponse st
    /\ iteration st' = (iteration st + rounds)%nat
    /\ llmCalls st' = (llmCalls st + rounds)%nat
    /\ extends (st_operations st) (st_operations st')
    /\ extends (messages st) (messages st').
Proof.
  induction rounds as [|rounds IH]; intros fuel st Hreplies Hcont Hceil Hfuel.
  - exists st. rewrite Nat.sub_0_r, !Nat.add_0_r.
    repeat split; auto using extends_refl.
  - destruct fuel as [|fuel]; [lia|].
    destruct (loop_body_tool_calls st) as [Hc [Hf [Hi [Hl [Hops Hmsgs]]]]].
    { apply Hreplies. lia. }
    destruct (IH fuel (body st config))
      as [st' [Hloop [Hc' [Hf' [Hi' [Hl' [Hops' Hmsgs']]]]]]].
    + intros n Hn. apply Hreplies. lia.
    + congruence.
    + lia.
    + lia.
    + exists st'. simpl loop. rewrite Hcont.
      assert (Hlt : (iteration st <? maxIterations)%nat = true)
        by (apply Nat.ltb_lt; lia).
      rewrite Hlt. simpl.
      repeat split; try congruence; try lia.
      * eapply extends_trans; eassumption.
      * eapply extends_trans; eassumption.
Qed.


(** C5.  If every reply of the provider carries at least one tool call,
    [runPdfAgent] makes exactly [maxIterations] = 20 provider calls in 20
    rounds, leaves the loop, and returns the canned limit response. *)
Theorem runPdfAgent_stops_at_ceiling :
  (forall n, replies_with_tool_calls n) ->
  let final := finalState callLLM pdfMcpTools JSON_stringify PDF_TOOLS
                          systemMessage userMessage context in
  maxIterations = 20%nat
  /\ llmCalls final = 20%nat
  /\ iteration final = 20%nat
  /\ response (runPdfAgent callLLM pdfMcpTools JSON_stringify PDF_TOOLS
                           systemMessage userMessage context)
     = "I reached the maximum number of operations. Please start a new conversation.".
Proof.
  intros Halways.
  destruct (tool_rounds maxIterations maxIterations
                        (initialState systemMessage userMessage context))
    as [st' [Hloop [Hc [Hf [Hi [Hl _]]]]]]; try (simpl; auto; lia).
  rewrite Nat.sub_diag in Hloop. simpl (loop 0 _ _) in Hloop.
  unfold runPdfAgent, finalState. cbv zeta. rewrite Hloop.
  simpl in Hi, Hl. rewrite Hi. simpl.
  repeat split; assumption.
Qed.

(** Replies with tool calls followed by a reply without: the loop ends
    with that reply, below the ceiling. *)
Lemma run_to_final_answer rounds fuel st text :
  (forall n, (llmCalls st <= n < llmCalls st + rounds)%nat ->
             replies_with_tool_calls n) ->
  replies_with_final_answer (llmCalls st + rounds) text ->
  continueLoop st = true ->
  (iteration st + rounds < maxIterations)%nat ->
  (rounds < fuel)%nat ->
  let st' := loop fuel config st in
  continueLoop st' = false
  /\ finalResponse st' = text
  /\ iteration st' = S (iteration st + rounds)
  /\ llmCalls st' = S (llmCalls st + rounds)
  /\ extends (st_operations st) (st_operations st')
  /\ extends (messages st) (messages st')
  /\ exists earlier,
       messages st' = earlier ++ [mkMessage assistant text None None None].
Proof.
  intros Hreplies Hfinal Hcont Hceil Hfuel.
  destruct (tool_rounds rounds fuel st Hreplies Hcont)
    as [st1 [Hloop [Hc [Hf [Hi [Hl [Hops Hmsgs]]]]]]]; [lia|lia|].
  cbv zeta. rewrite Hloop.
  destruct (fuel - rounds)%nat as [|fuel'] eqn:Hleft; [lia|].
  simpl loop. rewrite Hc.
  assert (Hlt : (iteration st1 <? maxIterations)%nat = true)
    by (apply Nat.ltb_lt; lia).
  rewrite Hlt. simpl.
  rewrite <- Hl in Hfinal.
  destruct (loop_body_final_answer st1 text Hfinal)
    as [Hc2 [Hf2 [Hi2 [Hl2 [Hops2 Hmsgs2]]]]].
  rewrite (while_loop_stopped fuel' _ Hc2).
  split; [exact Hc2|]. split; [exact Hf2|].
  split; [congruence|]. split; [congruence|].
  split; [now rewrite Hops2|].
  split; [|eauto].
  eapply extends_trans; [exact Hmsgs|]. rewrite Hmsgs2. apply extends_push.
Qed.

(** The [return] of [runPdfAgent] when the loop has ended below the
    ceiling. *)
Lemma runPdfAgent_below_ceiling :
  let st := loop maxIterations config
                 (initialState systemMessage userMessage context) in
  (iteration st < maxIterations)%nat ->
  finalState callLLM pdfMcpTools JSON_stringify PDF_TOOLS
             systemMessage userMessage context = st
  /\ runPdfAgent callLLM pdfMcpTools JSON_stringify PDF_TOOLS
                 systemMessage userMessage context
     = mkResult (str_or (finalResponse st) "Operation completed.")
                (st_operations st).
Proof.
  intros st Hbelow. unfold runPdfAgent, finalState. fold st.
  assert (Hle : (maxIterations <=? iteration st)%nat = false)
    by (apply Nat.leb_gt; exact Hbelow).
  rewrite Hle. split; reflexivity.
Qed.

(** C4, as the code has it.  When the replies to the first [k] provider
    calls carry tool calls and the reply to the next call, in a round
    before the last one of the ceiling, carries none, [runPdfAgent]
    pushes the text of that reply as a plain assistant message, the last
    message of the turn, stops calling the provider, and returns the text
    as the response - or, for an empty text, the default response
    "Operation completed.". *)
Theorem runPdfAgent_returns_final_answer (k : nat) (text : string) :
  (S k < maxIterations)%nat ->
  (forall n, (n < k)%nat -> replies_with_tool_calls n) ->
  replies_with_final_answer k text ->
  let final := finalState callLLM pdfMcpTools JSON_stringify PDF_TOOLS
                          systemMessage userMessage context in
  let result := runPdfAgent callLLM pdfMcpTools JSON_stringify PDF_TOOLS
                            systemMessage userMessage context in
  (exists earlier,
      messages final = earlier ++ [mkMessage assistant text None None None])
  /\ llmCalls final = S k
  /\ response result = (if String.eqb text "" then "Operation completed." else text).
Proof.
  intros Hround Htools Hfinal.
  pose proof (run_to_final_answer
                k maxIterations (initialState systemMessage userMessage context)
                text) as Hrun.
  simpl llmCalls in Hrun. simpl iteration in Hrun.
  destruct Hrun as [Hc [Hf [Hi [Hl [Hops [Hmsgs Hlast]]]]]];
    try assumption; try reflexivity; try lia.
  { intros n Hn. apply Htools. lia. }
  destruct runPdfAgent_below_ceiling as [Hstate Hresult]; [lia|].
  cbv zeta. rewrite Hstate, Hresult. cbn [response]. unfold str_or.
  rewrite Hf. repeat split; assumption.
Qed.


End AgentLoop.

(** *** Scripted turns *)

Section ScriptedTurns.
Import LlmService PdfAgent.

Definition session_context : AgentContext :=
  mkContext [JObj [("id", JStr "doc1"); ("name", JStr "contract.pdf");
                   ("url", JStr "/uploads/s1/contract.pdf");
                   ("type", JStr "original")]]
            "s1" None None.

(** A registry with one tool that throws and one that returns. *)
Definition scripted_tools
  : string -> option (JsValue -> ToolContext -> Throws JsValue) :=
  fun toolName =>
    if String.eqb toolName "split_pdf"
    then Some (fun _ _ => Threw "Document doc9 not found. Available documents: doc1")
    else if String.eqb toolName "extract_text"
    then Some (fun _ _ => Returned (JObj [("success", JBool true);
                                          ("text", JStr "Lorem ipsum")]))
    else None.

Definition scripted_stringify (v : JsValue) : string :=
  match v with
  | JObj [(key, JStr s)] => key +:+ ": " +:+ s
  | _ => "[object]"
  end.

Definition split_call : LLMToolCall :=
  mkToolCall "call_1" "split_pdf"
             (JObj [("documentId", JStr "doc9");
                    ("pageRanges",
                     JArr [JObj [("start", JNum 1); ("end", JNum 2)]])]).

Definition extract_call : LLMToolCall :=
  mkToolCall "call_2" "extract_text" (JObj [("documentId", JStr "doc1")]).

Definition tool_reply : LLMResponse :=
  mkResponse "" (Some [split_call; extract_call]) "tool_use".

(** A provider that asks for tools in its first [k] replies and then
    answers [text]. *)
Definition answers_after (k : nat) (text : string)
  : nat -> list LLMMessage -> list LLMTool -> LLMConfig -> Throws LLMResponse :=
  fun n _ _ _ =>
    if (n <? k)%nat then Returned tool_reply
    else Returned (mkResponse text None "end_turn").

(** A provider that never stops asking for tools. *)
Definition always_tools
  : nat -> list LLMMessage -> list LLMTool -> LLMConfig -> Throws LLMResponse :=
  fun _ _ _ _ => Returned tool_reply.

Definition scripted_run callLLM : AgentResult :=
  runPdfAgent callLLM scripted_tools scripted_stringify []
              (fun _ => "You are a PDF operations assistant.")
              "Split pages 1-2 of doc9" session_context.

Definition scripted_final callLLM : LoopState :=
  finalState callLLM scripted_tools scripted_stringify []
             (fun _ => "You are a PDF operations assistant.")
             "Split pages 1-2 of doc9" session_context.

Lemma answers_after_tools k text n :
  (n < k)%nat ->
  replies_with_tool_calls (answers_after k text) [] session_context n.
Proof.
  intros Hn msgs. exists tool_reply, split_call, [extract_call].
  unfold answers_after. apply Nat.ltb_lt in Hn. rewrite Hn. split; reflexivity.
Qed.

Lemma answers_after_final k text :
  replies_with_final_answer (answers_after k text) [] session_context k text.
Proof.
  intros msgs. exists (mkResponse text None "end_turn").
  unfold answers_after. rewrite Nat.ltb_irrefl. repeat split. now left.
Qed.

Lemma runPdfAgent_stops_at_ceiling_witness :
  maxIterations = 20%nat
  /\ llmCalls (scripted_final always_tools) = 20%nat
  /\ iteration (scripted_final always_tools) = 20%nat
  /\ response (scripted_run always_tools)
     = "I reached the maximum number of operations. Please start a new conversation.".
Proof.
  apply (runPdfAgent_stops_at_ceiling
           always_tools scripted_tools scripted_stringify []
           (fun _ => "You are a PDF operations assistant.")
           "Split pages 1-2 of doc9" session_context).
  intros n msgs. exists tool_reply, split_call, [extract_call].
  split; reflexivity.
Defined.

(** C4, refuted as stated, on two scripted providers.  A final answer
    with an empty text is not returned: the response is the default
    text.  A final answer given in round 20, the last round within the
    ceiling, is not returned either: the response is the limit text. *)
Lemma runPdfAgent_final_answer_not_returned :
  (replies_with_final_answer (answers_after 0 "") [] session_context 0 ""
   /\ response (scripted_run (answers_after 0 "")) = "Operation completed."
   /\ response (scripted_run (answers_after 0 "")) <> "")
  /\
  ((forall n, (n < 19)%nat ->
              replies_with_tool_calls (answers_after 19 "All done.") []
                                      session_context n)
   /\ replies_with_final_answer (answers_after 19 "All done.") []
                                session_context 19 "All done."
   /\ llmCalls (scripted_final (answers_after 19 "All done.")) = 20%nat
   /\ response (scripted_run (answers_after 19 "All done."))
      = "I reached the maximum number of operations. Please start a new conversation."
   /\ response (scripted_run (answers_after 19 "All done.")) <> "All done.").
Proof.
  split.
  - split; [apply answers_after_final|].
    split; [vm_compute; reflexivity|vm_compute; discriminate].
  - split; [intros n Hn; now apply answers_after_tools|].
    split; [apply answers_after_final|].
    split; [vm_compute; reflexivity|].
    split; [vm_compute; reflexivity|vm_compute; discriminate].
Qed.

Lemma runPdfAgent_returns_final_answer_witness :
  (exists earlier,
      messages (scripted_final (answers_after 2 "All done."))
      = earlier ++ [mkMessage assistant "All done." None None None])
  /\ llmCalls (scripted_final (answers_after 2 "All done.")) = 3%nat
  /\ response (scripted_run (answers_after 2 "All done.")) = "All done.".
Proof.
  apply (runPdfAgent_returns_final_answer
           (answers_after 2 "All done.") scripted_tools scripted_stringify []
           (fun _ => "You are a PDF operations assistant.")
           "Split pages 1-2 of doc9" session_context 2 "All done.").
  - unfold maxIterations. lia.
  - intros n Hn. now apply answers_after_tools.
  - apply answers_after_final.
Defined.


End ScriptedTurns.

(** ** The whitespace search *)

Section IntegralTable.
Import PdfMcpTools.

Variable r : Raster.

(** [f 0 + ... + f (n-1)]. *)
Fixpoint sum_below (f : nat -> Z) (n : nat) : Z :=
  match n with
  | O => 0
  | S k => sum_below f k + f k
  end.

(** The number of white pixels among the first [x] pixels of the first
    [y] rows. *)
Definition count_white (y x : nat) : Z :=
  sum_below (fun j => sum_below (isWhite r j) x) y.

Lemma count_white_step y x :
  count_white (S y) (S x) =
  isWhite r y x + count_white y (S x) + count_white (S y) x - count_white y x.
Proof. unfold count_white. simpl. lia. Qed.

Lemma count_white_column_0 y : count_white y 0 = 0.
Proof. unfold count_white. induction y as [|y IH]; simpl in *; lia. Qed.

Lemma isWhite_range y x : 0 <= isWhite r y x <= 1.
Proof.
  unfold isWhite. destruct (data r !! _) as [v|]; [|lia].
  destruct (v >=? threshold); lia.
Qed.

(** The table has its [height + 1] rows of [width + 1] cells. *)
Definition table_ok (T : Integral) : Prop :=
  length T = S (height r) /\ Forall (fun row => length row = S (width r)) T.

Lemma table_ok_row T y :
  table_ok T -> (y <= height r)%nat ->
  exists row, T !! y = Some row /\ length row = S (width r).
Proof.
  intros [Hlen Hrows] Hy.
  destruct (lookup_lt_is_Some_2 T y) as [row Hrow]; [lia|].
  exists row. split; [exact Hrow|].
  rewrite Forall_lookup in Hrows. eapply Hrows, Hrow.
Qed.

Lemma set_cell_ok T y x v : table_ok T -> table_ok (set_cell T y x v).
Proof.
  intros [Hlen Hrows]. split.
  - unfold set_cell. now rewrite length_alter.
  - unfold set_cell. apply Forall_lookup. intros i row Hi.
    rewrite list_lookup_alter in Hi. rewrite Forall_lookup in Hrows.
    destruct (decide (y = i)) as [->|Hne].
    + destruct (T !! i) as [row0|] eqn:E; simpl in Hi; [|discriminate].
      inversion Hi; subst. rewrite length_insert. eapply Hrows, E.
    + eapply Hrows, Hi.
Qed.

Lemma cell_set_cell_same T y x v :
  table_ok T -> (y <= height r)%nat -> (x <= width r)%nat ->
  cell (set_cell T y x v) y x = v.
Proof.
  intros Hok Hy Hx. destruct (table_ok_row T y Hok Hy) as [row [Hrow Hlen]].
  unfold cell, set_cell. rewrite list_lookup_alter.
  destruct (decide (y = y)) as [_|]; [|congruence].
  rewrite Hrow. simpl. rewrite list_lookup_insert_eq by lia. reflexivity.
Qed.

Lemma cell_set_cell_other T y x v y' x' :
  (y', x') <> (y, x) -> cell (set_cell T y x v) y' x' = cell T y' x'.
Proof.
  intros Hne. unfold cell, set_cell. rewrite list_lookup_alter.
  destruct (decide (y = y')) as [->|Hy]; [|reflexivity].
  destruct (T !! y') as [row|]; simpl; [|reflexivity].
  rewrite list_lookup_insert_ne; [reflexivity|congruence].
Qed.

Lemma fold_left_seq_invariant {A} (f : A -> nat -> A) (P : nat -> A -> Prop)
      (n : nat) (init : A) :
  P O init ->
  (forall k acc, (k < n)%nat -> P k acc -> P (S k) (f acc k)) ->
  P n (fold_left f (seq 0 n) init).
Proof.
  intros Hinit Hstep. induction n as [|n IH]; [exact Hinit|].
  rewrite seq_S, fold_left_app. simpl. apply Hstep; [lia|].
  apply IH. intros k acc Hk. apply Hstep. lia.
Qed.

(** After the rows [0 .. y-1] of the raster have been processed. *)
Definition rows_done (y : nat) (T : Integral) : Prop :=
  table_ok T
  /\ (forall j i, (j <= y)%nat -> (i <= width r)%nat ->
                  cell T j i = count_white j i)
  /\ (forall j i, (y < j)%nat -> cell T j i = 0).

(** After the pixels [0 .. x-1] of row [y] have been processed. *)
Definition pixels_done (y x : nat) (T : Integral) : Prop :=
  table_ok T
  /\ (forall j i, (j <= y)%nat -> (i <= width r)%nat ->
                  cell T j i = count_white j i)
  /\ (forall i, (i <= x)%nat -> cell T (S y) i = count_white (S y) i)
  /\ (forall j i, (S y < j)%nat -> cell T j i = 0).

Lemma integral_step_invariant y x T :
  (y < height r)%nat -> (x < width r)%nat ->
  pixels_done y x T -> pixels_done y (S x) (integral_step r y T x).
Proof.
  intros Hy Hx [Hok [Hdone [Hrow Hzero]]]. unfold integral_step.
  split; [now apply set_cell_ok|]. split; [|split].
  - intros j i Hj Hi. rewrite cell_set_cell_other.
    + now apply Hdone.
    + intros E. inversion E. lia.
  - intros i Hi. destruct (decide (i = S x)) as [->|Hne].
    + rewrite cell_set_cell_same by (assumption || lia).
      rewrite (Hdone y (S x)), (Hdone y x), (Hrow x) by lia.
      now rewrite count_white_step.
    + rewrite cell_set_cell_other by congruence. apply Hrow. lia.
  - intros j i Hj. rewrite cell_set_cell_other.
    + now apply Hzero.
    + intros E. inversion E. lia.
Qed.

Lemma integral_row_invariant y T :
  (y < height r)%nat ->
  rows_done y T ->
  rows_done (S y) (fold_left (integral_step r y) (seq 0 (width r)) T).
Proof.
  intros Hy [Hok [Hdone Hzero]].
  assert (Hrow : pixels_done y (width r)
                   (fold_left (integral_step r y) (seq 0 (width r)) T)).
  { apply (fold_left_seq_invariant (integral_step r y) (pixels_done y)).
    - split; [exact Hok|]. split; [exact Hdone|]. split.
      + intros i Hi. assert (i = O) as -> by lia.
        rewrite count_white_column_0. apply Hzero. lia.
      + intros j i Hj. apply Hzero. lia.
    - intros k acc Hk. now apply integral_step_invariant. }
  destruct Hrow as [Hok' [Hdone' [Hrow' Hzero']]].
  split; [exact Hok'|]. split.
  - intros j i Hj Hi. destruct (decide (j = S y)) as [->|Hne].
    + now apply Hrow'.
    + apply Hdone'; lia.
  - exact Hzero'.
Qed.

Lemma cell_zero_table j i :
  cell (replicate (S (height r)) (replicate (S (width r)) 0)) j i = 0.
Proof.
  unfold cell.
  destruct (replicate (S (height r)) _ !! j) as [row|] eqn:Hrow; [|reflexivity].
  apply lookup_replicate in Hrow as [-> _].
  change (default 0 (replicate (S (width r)) 0 !! i) = 0).
  destruct (replicate (S (width r)) 0 !! i) as [v|] eqn:Hv; [|reflexivity].
  now apply lookup_replicate in Hv as [-> _].
Qed.

(** The table built by [find_whitespace] holds the prefix counts of the
    white pixels. *)
Lemma build_integral_spec :
  table_ok (build_integral r)
  /\ forall y x, (y <= height r)%nat -> (x <= width r)%nat ->
                 cell (build_integral r) y x = count_white y x.
Proof.
  assert (Hall : rows_done (height r) (build_integral r)).
  { unfold build_integral.
    apply (fold_left_seq_invariant
             (fun integral y =>
                fold_left (integral_step r y) (seq 0 (width r)) integral)
             rows_done).
    - split; [|split].
      + split; [now rewrite length_replicate|].
        apply Forall_lookup. intros i row Hrow.
        apply lookup_replicate in Hrow as [-> _]. now rewrite length_replicate.
      + intros j i Hj _. assert (j = O) as -> by lia. apply cell_zero_table.
      + intros j i _. apply cell_zero_table.
    - intros k acc Hk. now apply integral_row_invariant. }
  destruct Hall as [Hok [Hdone _]]. split; [exact Hok|]. intros. now apply Hdone.
Qed.

End IntegralTable.

Section ClearRegions.
Import PdfMcpTools.

Variable r : Raster.

Lemma sum_below_sub f g n :
  sum_below (fun k => f k - g k) n = sum_below f n - sum_below g n.
Proof. induction n as [|n IH]; simpl; lia. Qed.

(** A sum of [b - a] terms, each at most [M], is at most [(b - a) * M]. *)
Lemma segment_bound f M a b :
  (a <= b)%nat ->
  (forall k, (a <= k < b)%nat -> f k <= M) ->
  sum_below f b - sum_below f a <= Z.of_nat (b - a) * M.
Proof.
  induction 1 as [|m Hle IH]; intros Hf.
  - rewrite Nat.sub_diag. lia.
  - replace (S m - a)%nat with (S (m - a)) by lia.
    rewrite Nat2Z.inj_succ, Z.mul_succ_l. simpl.
    assert (f m <= M) by (apply Hf; lia).
    assert (sum_below f m - sum_below f a <= Z.of_nat (m - a) * M)
      by (apply IH; intros k Hk; apply Hf; lia).
    lia.
Qed.

(** ... and when it reaches [(b - a) * M], every term is [M]. *)
Lemma segment_full f M a b :
  (a <= b)%nat ->
  (forall k, (a <= k < b)%nat -> f k <= M) ->
  sum_below f b - sum_below f a = Z.of_nat (b - a) * M ->
  forall k, (a <= k < b)%nat -> f k = M.
Proof.
  induction 1 as [|m Hle IH]; intros Hf Hsum k Hk; [lia|].
  replace (S m - a)%nat with (S (m - a)) in Hsum by lia.
  rewrite Nat2Z.inj_succ, Z.mul_succ_l in Hsum. simpl in Hsum.
  assert (Hm : f m <= M) by (apply Hf; lia).
  assert (Hrest : sum_below f m - sum_below f a <= Z.of_nat (m - a) * M)
    by (apply segment_bound; [exact Hle|intros j Hj; apply Hf; lia]).
  destruct (decide (k = m)) as [->|Hne]; [lia|].
  apply IH; [intros j Hj; apply Hf; lia|lia|lia].
Qed.

(** The four-corner expression of [regionIsClear] reaches the area of
    the rectangle only if every pixel of the rectangle is white. *)
Lemma rectangle_full (x1 y1 x2 y2 : nat) :
  (x1 <= x2)%nat -> (y1 <= y2)%nat ->
  count_white r y2 x2 - count_white r y1 x2 - count_white r y2 x1
    + count_white r y1 x1
  = Z.of_nat (x2 - x1) * Z.of_nat (y2 - y1) ->
  forall py px, (y1 <= py < y2)%nat -> (x1 <= px < x2)%nat ->
                isWhite r py px = 1.
Proof.
  intros Hx Hy Hsum py px Hpy Hpx.
  set (g := fun j => sum_below (isWhite r j) x2 - sum_below (isWhite r j) x1).
  assert (Hg : forall y, sum_below g y = count_white r y x2 - count_white r y x1).
  { intros y. unfold g, count_white. now rewrite sum_below_sub. }
  assert (Hbound : forall j, g j <= Z.of_nat (x2 - x1)).
  { intros j. unfold g.
    pose proof (segment_bound (isWhite r j) 1 x1 x2 Hx) as Hb.
    rewrite Z.mul_1_r in Hb. apply Hb. intros k _. apply isWhite_range. }
  assert (Hrow : g py = Z.of_nat (x2 - x1)).
  { apply (segment_full g (Z.of_nat (x2 - x1)) y1 y2 Hy); [auto| |exact Hpy].
    rewrite !Hg. lia. }
  apply (segment_full (isWhite r py) 1 x1 x2 Hx); [| |exact Hpx].
  - intros k _. apply isWhite_range.
  - unfold g in Hrow. lia.
Qed.

Lemma read_cell_defined T y x a :
  table_ok r T ->
  read_cell T y x = Returned (Some a) ->
  0 <= y <= Z.of_nat (height r) /\ 0 <= x <= Z.of_nat (width r)
  /\ cell T (Z.to_nat y) (Z.to_nat x) = a.
Proof.
  intros [Hlen Hrows] Hread. unfold read_cell, index in Hread.
  destruct (Z.ltb_spec y 0) as [|Hy]; [discriminate|].
  destruct (T !! Z.to_nat y) as [row|] eqn:Hrow; [|discriminate].
  destruct (Z.ltb_spec x 0) as [|Hx]; [discriminate|].
  inversion Hread as [Hcell].
  pose proof (lookup_lt_Some _ _ _ Hrow) as Hylt.
  pose proof (lookup_lt_Some _ _ _ Hcell) as Hxlt.
  rewrite Forall_lookup in Hrows. rewrite (Hrows _ _ Hrow) in Hxlt.
  unfold cell. rewrite Hrow. simpl. rewrite Hcell. simpl. lia.
Qed.

(** [regionIsClear] answers [true] only for corners inside the table
    and a rectangle of white pixels. *)
Lemma regionIsClear_true x1 y1 x2 y2 :
  regionIsClear (build_integral r) x1 y1 x2 y2 = Returned true ->
  (0 <= x1 <= Z.of_nat (width r) /\ 0 <= x2 <= Z.of_nat (width r)
   /\ 0 <= y1 <= Z.of_nat (height r) /\ 0 <= y2 <= Z.of_nat (height r))
  /\ forall px py, x1 <= px < x2 -> y1 <= py < y2 ->
                   isWhite r (Z.to_nat py) (Z.to_nat px) = 1.
Proof.
  destruct (build_integral_spec r) as [Hok Hcells].
  unfold regionIsClear. intros Hclear.
  destruct (read_cell _ y2 x2) as [[a|]|] eqn:Ea; simpl in Hclear;
    try discriminate;
    destruct (read_cell _ y1 x2) as [[b|]|] eqn:Eb; simpl in Hclear;
    try discriminate;
    destruct (read_cell _ y2 x1) as [[c|]|] eqn:Ec; simpl in Hclear;
    try discriminate;
    destruct (read_cell _ y1 x1) as [[d|]|] eqn:Ed; simpl in Hclear;
    try discriminate.
  inversion Hclear as [Heq]. apply Z.eqb_eq in Heq.
  apply (read_cell_defined _ _ _ _ Hok) in Ea as [Hy2 [Hx2 Ha]].
  apply (read_cell_defined _ _ _ _ Hok) in Ed as [Hy1 [Hx1 Hd]].
  apply (read_cell_defined _ _ _ _ Hok) in Eb as [_ [_ Hb]].
  apply (read_cell_defined _ _ _ _ Hok) in Ec as [_ [_ Hc]].
  rewrite Hcells in Ha, Hb, Hc, Hd by lia. subst a b c d.
  split; [lia|]. intros px py Hpx Hpy.
  apply (rectangle_full (Z.to_nat x1) (Z.to_nat y1) (Z.to_nat x2) (Z.to_nat y2));
    lia.
Qed.

(** A white pixel is a byte of the buffer at or above the threshold. *)
Lemma isWhite_brightness px py :
  0 <= px -> 0 <= py ->
  isWhite r (Z.to_nat py) (Z.to_nat px) = 1 ->
  exists b, index (data r) (py * Z.of_nat (width r) + px) = Some b
            /\ threshold <= b.
Proof.
  intros Hpx Hpy. unfold isWhite, index.
  destruct (Z.ltb_spec (py * Z.of_nat (width r) + px) 0) as [Hneg|_]; [nia|].
  replace (Z.to_nat (py * Z.of_nat (width r) + px))
    with (Z.to_nat py * width r + Z.to_nat px)%nat by nia.
  destruct (data r !! _) as [v|]; [|discriminate].
  destruct (Z.geb_spec v threshold); [|discriminate].
  intros _. exists v. split; [reflexivity|lia].
Qed.

End ClearRegions.

Section Search.
Import PdfMcpTools.

Variable input : FindWhitespaceInput.
Variable r : Raster.

Lemma mapM_concat_In {A B} (f : A -> Throws (list B)) l found c :
  mapM f l = Returned found -> In c (concat found) ->
  exists a bs, In a l /\ f a = Returned bs /\ In c bs.
Proof.
  revert found. induction l as [|a l IH]; simpl; intros found Hmap Hin.
  - inversion Hmap; subst. contradiction.
  - destruct (f a) as [bs|] eqn:Efa; simpl in Hmap; [|discriminate].
    destruct (mapM f l) as [rest|]; simpl in Hmap; [|discriminate].
    inversion Hmap; subst. simpl in Hin. apply in_app_or in Hin as [Hin|Hin].
    + exists a, bs. auto.
    + destruct (IH rest eq_refl Hin) as [a' [bs' [Ha' Hbs']]].
      exists a', bs'. auto.
Qed.

(** Every candidate was accepted by [regionIsClear]. *)
Lemma scan_candidates_clear T candidates c :
  scan input r T = Returned candidates -> In c candidates ->
  regionIsClear T (cand_x c) (cand_y c)
                (cand_x c + minWidthPx input) (cand_y c + minHeightPx input)
  = Returned true.
Proof.
  unfold scan. intros Hscan Hin.
  destruct (sizes_finite input);
    [|inversion Hscan; subst; contradiction].
  destruct (mapM (scan_row input r T) _) as [rows|] eqn:Hrows;
    simpl in Hscan; [|discriminate].
  inversion Hscan; subst.
  destruct (mapM_concat_In _ _ _ _ Hrows Hin) as [y [row [_ [Hrow Hc]]]].
  unfold scan_row in Hrow.
  destruct (mapM (scan_at input r T y) _) as [cells|] eqn:Hcells;
    simpl in Hrow; [|discriminate].
  inversion Hrow; subst.
  destruct (mapM_concat_In _ _ _ _ Hcells Hc) as [x [found [_ [Hat Hfound]]]].
  unfold scan_at in Hat.
  destruct (regionIsClear _ _ _ _ _) as [[|]|] eqn:Hclear; simpl in Hat;
    try discriminate; inversion Hat; subst.
  - destruct Hfound as [<-|[]]. exact Hclear.
  - contradiction.
Qed.

(** *** Ranking *)

Definition better_or_equal (a b : Candidate) : Prop :=
  (value (score b) <= value (score a))%Q.

Lemma insert_by_score_Permutation c l :
  Permutation (insert_by_score c l) (c :: l).
Proof.
  induction l as [|d l IH]; simpl; [reflexivity|].
  destruct (Qle_bool (value (score d)) (value (score c))); [reflexivity|].
  rewrite IH. apply perm_swap.
Qed.

Lemma sort_by_score_Permutation l : Permutation (sort_by_score l) l.
Proof.
  induction l as [|c l IH]; simpl; [reflexivity|].
  rewrite insert_by_score_Permutation. now constructor.
Qed.

Lemma insert_by_score_sorted c l :
  StronglySorted better_or_equal l ->
  StronglySorted better_or_equal (insert_by_score c l).
Proof.
  induction 1 as [|d l Hsorted IH Hd]; simpl.
  - repeat constructor.
  - destruct (Qle_bool (value (score d)) (value (score c))) eqn:Hle.
    + apply Qle_bool_iff in Hle. constructor; [now constructor|].
      constructor; [exact Hle|].
      eapply List.Forall_impl; [|exact Hd]. intros e He.
      unfold better_or_equal in *. eapply Qle_trans; eassumption.
    + constructor; [exact IH|].
      assert (Hlt : (value (score c) < value (score d))%Q).
      { apply Qnot_le_lt. intros H. apply Qle_bool_iff in H. congruence. }
      eapply Permutation_Forall.
      * symmetry. apply insert_by_score_Permutation.
      * constructor; [|exact Hd]. apply Qlt_le_weak, Hlt.
Qed.

Lemma sort_by_score_sorted l : StronglySorted better_or_equal (sort_by_score l).
Proof.
  induction l as [|c l IH]; simpl; [constructor|].
  now apply insert_by_score_sorted.
Qed.

(** The sort is stable: the candidates of any given score keep their
    discovery order. *)
Lemma insert_by_score_stable q c l :
  List.filter (fun d => Qeq_bool (value (score d)) q) (insert_by_score c l) =
  List.filter (fun d => Qeq_bool (value (score d)) q) (c :: l).
Proof.
  induction l as [|d l IH]; [reflexivity|].
  simpl insert_by_score.
  destruct (Qle_bool (value (score d)) (value (score c))) eqn:Hle;
    [reflexivity|].
  change (List.filter ?P (d :: ?t))
    with (if P d then d :: List.filter P t else List.filter P t).
  rewrite IH. simpl.
  destruct (Qeq_bool (value (score c)) q) eqn:Hc,
           (Qeq_bool (value (score d)) q) eqn:Hd;
    try reflexivity.
  exfalso. apply Qeq_bool_iff in Hc, Hd.
  assert (Hle' : Qle_bool (value (score d)) (value (score c)) = true).
  { apply Qle_bool_iff. rewrite Hc, Hd. apply Qle_refl. }
  congruence.
Qed.

Lemma sort_by_score_stable q l :
  List.filter (fun d => Qeq_bool (value (score d)) q) (sort_by_score l) =
  List.filter (fun d => Qeq_bool (value (score d)) q) l.
Proof.
  induction l as [|c l IH]; [reflexivity|].
  simpl sort_by_score. rewrite insert_by_score_stable. simpl. now rewrite IH.
Qed.

Lemma StronglySorted_split {A} (R : A -> A -> Prop) (l1 l2 : list A) :
  StronglySorted R (l1 ++ l2) ->
  StronglySorted R l1 /\ forall a b, In a l1 -> In b l2 -> R a b.
Proof.
  induction l1 as [|a l1 IH]; simpl; intros Hs.
  - split; [constructor|contradiction].
  - inversion Hs as [|? ? Hrest Ha]; subst.
    destruct (IH Hrest) as [Hl1 Hcross].
    apply List.Forall_app in Ha as [Ha1 Ha2].
    split; [now constructor|].
    intros a' b [<-|Ha'] Hb.
    + rewrite List.Forall_forall in Ha2. now apply Ha2.
    + now apply Hcross.
Qed.

(** *** The search returns *)

Lemma for_range_bounds start stop step v :
  1 <= step -> In v (for_range start stop step) -> start <= v <= stop.
Proof.
  intros Hstep. unfold for_range.
  destruct (Z.ltb_spec stop start) as [|Hle]; [contradiction|].
  rewrite in_map_iff. intros [k [<- Hk]]. apply in_seq in Hk.
  assert (Hk' : Z.of_nat k <= (stop - start) / step).
  { pose proof (Z.div_pos (stop - start) step). lia. }
  pose proof (Z.mul_div_le (stop - start) step). nia.
Qed.

Lemma mapM_returns {A B} (f : A -> Throws B) (l : list A) :
  (forall a, In a l -> exists b, f a = Returned b) ->
  exists bs, mapM f l = Returned bs.
Proof.
  induction l as [|a l IH]; intros Hall; simpl; [eauto|].
  destruct (Hall a) as [b Hb]; [now left|].
  destruct IH as [bs Hbs]; [intros; apply Hall; now right|].
  rewrite Hb, Hbs. simpl. eauto.
Qed.

Lemma regionIsClear_returns T x1 y1 x2 y2 :
  table_ok r T ->
  0 <= y1 <= Z.of_nat (height r) -> 0 <= y2 <= Z.of_nat (height r) ->
  exists clear, regionIsClear T x1 y1 x2 y2 = Returned clear.
Proof.
  intros Hok Hy1 Hy2.
  assert (Hread : forall y x, 0 <= y <= Z.of_nat (height r) ->
                              exists v, read_cell T y x = Returned v).
  { intros y x Hy. unfold read_cell, index.
    destruct (Z.ltb_spec y 0); [lia|].
    destruct (table_ok_row r T (Z.to_nat y) Hok) as [row [Hrow _]]; [lia|].
    rewrite Hrow. eauto. }
  unfold regionIsClear.
  destruct (Hread y2 x2 Hy2) as [a ->], (Hread y1 x2 Hy1) as [b ->],
           (Hread y2 x1 Hy2) as [c ->], (Hread y1 x1 Hy1) as [d ->].
  simpl. destruct a, b, c, d; simpl; eauto.
Qed.

(** On a decoded page and for a minimum height that is not negative,
    every table read of the scan finds its row: [find_whitespace]
    returns a result. *)
Lemma find_whitespace_returns :
  (0 < width r)%nat -> (0 < height r)%nat ->
  0 <= minHeightPx input ->
  exists out, find_whitespace input r = Returned out.
Proof.
  intros Hw Hh Hmin. unfold find_whitespace.
  destruct (Nat.eqb_spec (width r) 0); [lia|].
  destruct (Nat.eqb_spec (height r) 0); [lia|]. simpl.
  destruct (build_integral_spec r) as [Hok _].
  assert (Hmargin : marginPx = 75) by reflexivity.
  destruct (mapM_returns (scan_row input r (build_integral r))
              (for_range marginPx
                         (Z.of_nat (height r) - minHeightPx input - marginPx)
                         (stepY input))) as [rows Hrows].
  { intros y Hy. apply for_range_bounds in Hy; [|unfold stepY; lia].
    unfold scan_row.
    destruct (mapM_returns (scan_at input r (build_integral r) y)
                (for_range marginPx
                           (Z.of_nat (width r) - minWidthPx input - marginPx)
                           (stepX input))) as [cells Hcells].
    - intros x _. unfold scan_at.
      destruct (regionIsClear_returns (build_integral r) x y
                  (x + minWidthPx input) (y + minHeightPx input) Hok)
        as [clear ->]; [lia|lia|].
      simpl. destruct clear; eauto.
    - rewrite Hcells. simpl. eauto. }
  unfold scan. rewrite Hrows. simpl. destruct (sizes_finite input); eauto.
Qed.

Lemma find_whitespace_inv out :
  find_whitespace input r = Returned out ->
  exists candidates,
    scan input r (build_integral r) = Returned candidates
    /\ candidatesFound out = Z.of_nat (length candidates)
    /\ regions out
       = imap (toRegion input r) (take 5 (sort_by_score candidates)).
Proof.
  unfold find_whitespace. intros Hfind.
  destruct ((width r =? 0)%nat || (height r =? 0)%nat); [discriminate|].
  destruct (scan input r (build_integral r)) as [candidates|];
    simpl in Hfind; [|discriminate].
  inversion Hfind; subst. simpl. eauto.
Qed.

(** C10.  [find_whitespace] returns at most five regions and reports
    the number of all candidates in [candidatesFound]: the regions are
    built, in order and with ranks 1, 2, ..., from the list [top] of the
    five best candidates (all of them when there are fewer), which is in
    descending order of score, and no candidate left out ([rest]) has a
    higher score than one in [top]. *)
Theorem find_whitespace_returns_top_five (out : FindWhitespaceResult) :
  find_whitespace input r = Returned out ->
  exists candidates top rest,
    scan input r (build_integral r) = Returned candidates
    /\ candidatesFound out = Z.of_nat (length candidates)
    /\ Permutation candidates (top ++ rest)
    /\ regions out = imap (toRegion input r) top
    /\ length (regions out) = Nat.min 5 (length candidates)
    /\ (length (regions out) <= 5)%nat
    /\ StronglySorted better_or_equal top
    /\ (forall c d, In c top -> In d rest ->
                     (value (score d) <= value (score c))%Q)
    /\ (forall i region, regions out !! i = Some region ->
                         rank region = Z.of_nat i + 1).
Proof.
  intros Hfind.
  destruct (find_whitespace_inv out Hfind) as [candidates [Hscan [Hfound Hregions]]].
  set (sorted := sort_by_score candidates) in *.
  exists candidates, (take 5 sorted), (drop 5 sorted).
  pose proof (sort_by_score_Permutation candidates) as Hperm. fold sorted in Hperm.
  pose proof (sort_by_score_sorted candidates) as Hsorted. fold sorted in Hsorted.
  rewrite <- (take_drop 5 sorted) in Hsorted.
  apply StronglySorted_split in Hsorted as [Htop Hcross].
  assert (Hlen : length (regions out) = Nat.min 5 (length candidates)).
  { rewrite Hregions, length_imap, length_take.
    now rewrite (Permutation_length Hperm). }
  split; [exact Hscan|]. split; [exact Hfound|].
  split; [rewrite take_drop; now symmetry|].
  split; [exact Hregions|]. split; [exact Hlen|].
  split; [rewrite Hlen; lia|]. split; [exact Htop|].
  split; [intros c d Hc Hd; exact (Hcross c d Hc Hd)|].
  intros i region Hi. rewrite Hregions, list_lookup_imap in Hi.
  destruct (take 5 sorted !! i) as [c|]; simpl in Hi; [|discriminate].
  inversion Hi. reflexivity.
Qed.

End Search.

(** *** A search on a concrete raster *)

Section SampleSearch.
Import PdfMcpTools.

(** A white page of 154 x 152 pixels with one dark pixel at column 77
    of row 76. *)
Definition sample_raster : Raster :=
  mkRaster (repeat 255 (76 * 154 + 77) ++ [17] ++ repeat 255 (75 * 154 + 76))
           154 152.

(** A search for rectangles of 0.01 x 0.01 inch (one pixel) on page 2. *)
Definition sample_input : FindWhitespaceInput :=
  mkFindWhitespaceInput (Some 0.01%float) (Some 0.01%float) None None
                        None (Some 2) None.

Definition sample_region (rank x y : Z) : Region :=
  mkRegion rank (integer x / 150)%float (integer y / 150)%float
           (integer x / 150 * 72)%float (integer y / 150 * 72)%float
           0.01%float 0.01%float.

Definition sample_result : FindWhitespaceResult :=
  mkFindWhitespaceResult
    true 2 (0.01%float, 0.01%float, bottom_right) true 7
    [sample_region 1 78 75; sample_region 2 78 76; sample_region 3 76 75;
     sample_region 4 77 76; sample_region 5 75 75].

(** Seven one-pixel candidates lie inside the margins - the eight
    positions of the scan but the dark pixel - and five are returned. *)
Lemma sample_search :
  find_whitespace sample_input sample_raster = Returned sample_result.
Proof. vm_compute. reflexivity. Qed.

Lemma find_whitespace_returns_top_five_witness :
  exists candidates top rest,
    scan sample_input sample_raster (build_integral sample_raster)
    = Returned candidates
    /\ candidatesFound sample_result = Z.of_nat (length candidates)
    /\ Permutation candidates (top ++ rest)
    /\ regions sample_result = imap (toRegion sample_input sample_raster) top
    /\ length (regions sample_result) = Nat.min 5 (length candidates)
    /\ (length (regions sample_result) <= 5)%nat
    /\ StronglySorted better_or_equal top
    /\ (forall c d, In c top -> In d rest ->
                     (value (score d) <= value (score c))%Q)
    /\ (forall i region, regions sample_result !! i = Some region ->
                         rank region = Z.of_nat i + 1).
Proof.
  apply (find_whitespace_returns_top_five sample_input sample_raster).
  exact sample_search.
Defined.







End SampleSearch.

(** ** Invariants of the agent loop *)

Section AgentInvariants.
Import LlmService PdfAgent.

Variable callLLM :
  nat -> list LLMMessage -> list LLMTool -> LLMConfig -> Throws LLMResponse.
Variable pdfMcpTools :
  string -> option (JsValue -> ToolContext -> Throws JsValue).
Variable JSON_stringify : JsValue -> string.
Variable PDF_TOOLS : list LLMTool.
Variable systemMessage : list JsValue -> string.
Variable userMessage : string.
Variable context : AgentContext.

Abbreviation config' := (effectiveConfig context).
Abbreviation process' := (process_tool_call pdfMcpTools JSON_stringify context).
Abbreviation body' := (loop_body callLLM pdfMcpTools JSON_stringify PDF_TOOLS context).
Abbreviation loop' := (while_loop callLLM pdfMcpTools JSON_stringify PDF_TOOLS context).
Abbreviation final' :=
  (finalState callLLM pdfMcpTools JSON_stringify PDF_TOOLS
              systemMessage userMessage context).
Abbreviation run' :=
  (runPdfAgent callLLM pdfMcpTools JSON_stringify PDF_TOOLS
               systemMessage userMessage context).

(** The tool message [m] answers the call [tc]. *)
Definition answers (tc : LLMToolCall) (m : LLMMessage) : Prop :=
  role m = tool
  /\ tool_call_id m = Some (tc_id tc)
  /\ name m = Some (tc_name tc).

(** A conversation in which tool messages occur only as the answers to
    the calls of the assistant message right before them, one per call
    and in the order of the calls. *)
Inductive Paired : list LLMMessage -> Prop :=
| Paired_nil : Paired []
| Paired_plain m l :
    role m <> tool -> tool_calls m = None -> Paired l -> Paired (m :: l)
| Paired_round a calls results l :
    role a = assistant -> tool_calls a = Some calls -> calls <> [] ->
    Forall2 answers calls results -> Paired l ->
    Paired (a :: results ++ l).

Lemma Paired_app l1 l2 : Paired l1 -> Paired l2 -> Paired (l1 ++ l2).
Proof.
  intros H1 H2. induction H1 as [|m l Hm Hc _ IH|a calls results l Ha Hc Hne Hres _ IH].
  - exact H2.
  - simpl. now apply Paired_plain.
  - simpl. rewrite <- app_assoc. now apply (Paired_round a calls).
Qed.

Lemma process_tool_call_answers st toolCall :
  exists m, messages (process' st toolCall) = messages st ++ [m]
            /\ answers toolCall m.
Proof.
  unfold process_tool_call.
  destruct (pdfMcpTools (tc_name toolCall)) as [toolFunction|].
  - destruct (toolFunction _ _) as [toolResult|thrown].
    + destruct (snd (addNewDocuments _ toolResult _));
        eexists; split; try reflexivity; repeat split.
    + eexists; split; try reflexivity; repeat split.
  - eexists; split; try reflexivity; repeat split.
Qed.

Lemma process_all_answers calls : forall st,
  exists results,
    messages (fold_left process' calls st) = messages st ++ results
    /\ Forall2 answers calls results.
Proof.
  induction calls as [|tc calls IH]; intros st; simpl.
  - exists []. split; [now rewrite app_nil_r|constructor].
  - destruct (process_tool_call_answers st tc) as [m [Hm Hans]].
    destruct (IH (process' st tc)) as [results [Hres Hall]].
    exists (m :: results). split; [|now constructor].
    rewrite Hres, Hm, <- app_assoc. reflexivity.
Qed.

Lemma loop_body_Paired st :
  Paired (messages st) -> Paired (messages (body' st config')).
Proof.
  intros Hst. unfold loop_body.
  destruct (callLLM _ _ _ _) as [result|thrown]; [|exact Hst].
  destruct (toolCalls result) as [[|tc tcs]|] eqn:Hcalls.
  - simpl. apply Paired_app; [exact Hst|].
    apply Paired_plain; [discriminate|reflexivity|constructor].
  - match goal with
    | |- context [fold_left _ ?calls ?st0] =>
        destruct (process_all_answers calls st0) as [results [Hres Hall]]
    end.
    rewrite Hres. simpl messages. rewrite <- app_assoc.
    apply Paired_app; [exact Hst|].
    simpl. rewrite <- (app_nil_r results).
    apply (Paired_round _ (tc :: tcs)); try reflexivity; try discriminate;
      [exact Hall|constructor].
  - simpl. apply Paired_app; [exact Hst|].
    apply Paired_plain; [discriminate|reflexivity|constructor].
Qed.

Lemma while_loop_Paired fuel : forall st,
  Paired (messages st) -> Paired (messages (loop' fuel config' st)).
Proof.
  induction fuel as [|fuel IH]; intros st Hst; simpl; [exact Hst|].
  destruct (continueLoop st && (iteration st <? maxIterations)%nat); [|exact Hst].
  apply IH. now apply loop_body_Paired.
Qed.

Lemma historyMessages_Paired : Paired (historyMessages context).
Proof.
  unfold historyMessages. destruct (conversationHistory context) as [history|];
    [|constructor].
  induction (removelast history) as [|h l IH]; simpl; [constructor|].
  apply Paired_plain; [|reflexivity|exact IH].
  simpl. destruct (String.eqb _ _); discriminate.
Qed.

(** X1.  Whatever the provider and the tools do, the conversation that
    [runPdfAgent] builds is paired. *)
Theorem runPdfAgent_messages_paired : Paired (messages final').
Proof.
  assert (H : Paired (messages (loop' maxIterations config'
                     (initialState systemMessage userMessage context)))).
  { apply while_loop_Paired. simpl.
    apply Paired_plain; [discriminate|reflexivity|].
    apply Paired_app; [apply historyMessages_Paired|].
    apply Paired_plain; [discriminate|reflexivity|constructor]. }
  unfold finalState.
  destruct (maxIterations <=? iteration _)%nat; exact H.
Qed.

(** *** The conversation as a Protocol A transcript *)

Definition tool_use_ids (p : MessageParam) : list string :=
  match param_content p with
  | Blocks blocks =>
      flat_map (fun b => match b with
                         | ToolUseBlock id _ _ => [id]
                         | _ => []
                         end) blocks
  | Text _ => []
  end.

Definition tool_result_ids (p : MessageParam) : list string :=
  match param_content p with
  | Blocks blocks =>
      flat_map (fun b => match b with
                         | ToolResultBlock id _ => [id]
                         | _ => []
                         end) blocks
  | Text _ => []
  end.

(** What the Anthropic API requires of tool blocks: the [tool_result]
    ids of every message are the [tool_use] ids of the message right
    before it, in the same order ([pending] for the first message); in
    particular a message without tool calls is followed by a message
    without tool results, and no call is left unanswered. *)
Fixpoint answered (pending : list string) (wire : list MessageParam) : Prop :=
  match wire with
  | [] => pending = []
  | p :: rest => tool_result_ids p = pending /\ answered (tool_use_ids p) rest
  end.

(** Every tool message carries a non-empty [tool_call_id]. *)
Definition ids_given (msgs : list LLMMessage) : Prop :=
  Forall (fun m => role m = tool -> opt_truthy (tool_call_id m) = true) msgs.

Lemma Paired_starts_without_tool l : Paired l -> starts_without_tool l.
Proof. destruct 1; simpl; [exact I|assumption|congruence]. Qed.

Lemma Paired_conversationMessages l :
  Paired l -> Paired (conversationMessages l).
Proof.
  induction 1 as [|m l Hm Hc _ IH|a calls results l Ha Hc Hne Hres _ IH].
  - constructor.
  - unfold conversationMessages in *. simpl.
    destruct (negb (Role_eqb (role m) system)); [|exact IH].
    now apply Paired_plain.
  - change (a :: results ++ l) with ([a] ++ results ++ l).
    rewrite !conversationMessages_app.
    assert (Htools : Forall (fun m => role m = tool) results).
    { clear -Hres. induction Hres as [|tc m cs ms [Hm _] _ IH]; constructor; auto. }
    rewrite (conversationMessages_tools results Htools).
    assert (Hkeep : conversationMessages [a] = [a]).
    { unfold conversationMessages. simpl. now rewrite Ha. }
    rewrite Hkeep. simpl. now apply (Paired_round a calls).
Qed.

Lemma ids_given_conversationMessages l :
  ids_given l -> ids_given (conversationMessages l).
Proof.
  unfold ids_given, conversationMessages. rewrite !List.Forall_forall.
  intros H m Hm. apply filter_In in Hm as [Hm _]. now apply H.
Qed.

Lemma tool_result_ids_of_results calls results :
  Forall2 answers calls results ->
  ids_given results ->
  flat_map (fun b => match b with
                     | ToolResultBlock id _ => [id]
                     | _ => []
                     end) (map toolResultBlock results)
  = map tc_id calls.
Proof.
  induction 1 as [|tc m calls results [Hrole [Hid _]] _ IH]; intros Hids;
    [reflexivity|].
  inversion Hids as [|? ? Hm Hrest]; subst. simpl.
  rewrite IH by assumption. f_equal.
  apply Hm in Hrole. rewrite Hid in *. simpl in *. unfold str_or.
  destruct (String.eqb (tc_id tc) ""); [discriminate|reflexivity].
Qed.

Lemma tool_use_ids_assistantParam a call calls :
  tool_calls a = Some (call :: calls) ->
  tool_use_ids (assistantParam a) = map tc_id (call :: calls)
  /\ tool_result_ids (assistantParam a) = [].
Proof.
  intros Hc. unfold assistantParam, tool_use_ids, tool_result_ids. rewrite Hc.
  cbn [param_content].
  set (uses := map _ (call :: calls)).
  assert (Huses : flat_map (fun b => match b with
                                     | ToolUseBlock id _ _ => [id]
                                     | _ => []
                                     end) uses = map tc_id (call :: calls)).
  { unfold uses. generalize (call :: calls). intros l.
    induction l as [|tc l IH]; simpl; [reflexivity|now rewrite IH]. }
  assert (Hnone : flat_map (fun b => match b with
                                     | ToolResultBlock id _ => [id]
                                     | _ => []
                                     end) uses = []).
  { unfold uses. generalize (call :: calls). intros l.
    induction l as [|tc l IH]; simpl; [reflexivity|exact IH]. }
  destruct (negb (String.eqb (content a) ""));
    rewrite !flat_map_app, Huses, Hnone; split; reflexivity.
Qed.

Lemma tool_use_ids_results results :
  tool_use_ids (mkParam wire_user (Blocks (map toolResultBlock results))) = [].
Proof.
  unfold tool_use_ids. simpl.
  induction results as [|m l IH]; simpl; [reflexivity|exact IH].
Qed.

(** A paired conversation whose tool messages carry their ids is sent
    to Protocol A as a transcript in which every tool result answers a
    tool call of the message before it. *)
Lemma Paired_toAnthropicMessages l :
  Paired l -> ids_given l -> answered [] (toAnthropicMessages l).
Proof.
  induction 1 as [|m l Hm Hc Hl IH|a calls results l Ha Hc Hne Hres Hl IH];
    intros Hids.
  - reflexivity.
  - inversion Hids; subst. rewrite toAnthropicMessages_cons.
    destruct (role m) eqn:Hrole; try congruence; simpl.
    + split; [reflexivity|]. now apply IH.
    + split; [reflexivity|]. now apply IH.
    + unfold assistantParam. rewrite Hc. simpl.
      split; [reflexivity|]. now apply IH.
  - destruct calls as [|call calls]; [congruence|].
    inversion Hres as [|? m ? ms Hans Hrest]; subst.
    inversion Hids as [|? ? _ Hids']; subst.
    change (m :: ms ++ l) with ((m :: ms) ++ l) in Hids'.
    apply List.Forall_app in Hids' as [Hids_results Hids_l].
    rewrite toAnthropicMessages_cons, Ha.
    destruct (tool_use_ids_assistantParam a call calls Hc) as [Huses Hnone].
    cbn [answered]. split; [exact Hnone|]. rewrite Huses.
    pose proof Hans as [Hm_role _].
    change ((m :: ms) ++ l) with (m :: ms ++ l).
    rewrite toAnthropicMessages_cons, Hm_role.
    rewrite collectToolResults_app by now apply Paired_starts_without_tool.
    assert (Htools : Forall (fun m => role m = tool) ms).
    { clear -Hrest. induction Hrest as [|tc m' cs ms' [Hm' _] _ IH']; constructor; auto. }
    rewrite (collectToolResults_tools ms Htools). simpl fst. simpl snd.
    cbn [answered]. split.
    + unfold tool_result_ids. cbn [param_content].
      apply (tool_result_ids_of_results (call :: calls) (m :: ms));
        [now constructor|exact Hids_results].
    + change (toolResultBlock m :: map toolResultBlock ms)
        with (map toolResultBlock (m :: ms)).
      rewrite tool_use_ids_results. now apply IH.
Qed.

Lemma process_all_ids_given calls : forall st,
  Forall (fun tc => tc_id tc <> "") calls ->
  ids_given (messages st) ->
  ids_given (messages (fold_left process' calls st)).
Proof.
  intros st Hcalls Hst.
  destruct (process_all_answers calls st) as [results [-> Hall]].
  apply List.Forall_app. split; [exact Hst|].
  clear Hst. induction Hall as [|tc m cs ms [_ [Hid _]] _ IH]; [constructor|].
  inversion Hcalls; subst. constructor; [|now apply IH].
  intros _. rewrite Hid. simpl.
  destruct (String.eqb_spec (tc_id tc) ""); [contradiction|reflexivity].
Qed.

(** The provider gives every tool call a non-empty id. *)
Definition provider_ids_given : Prop :=
  forall n msgs r calls,
    callLLM n msgs PDF_TOOLS config' = Returned r ->
    toolCalls r = Some calls ->
    Forall (fun tc => tc_id tc <> "") calls.

Lemma loop_body_ids_given st :
  provider_ids_given ->
  ids_given (messages st) -> ids_given (messages (body' st config')).
Proof.
  intros Hprovider Hst. unfold loop_body.
  destruct (callLLM _ _ _ _) as [result|thrown] eqn:Hcall; [|exact Hst].
  destruct (toolCalls result) as [[|tc tcs]|] eqn:Hcalls.
  - simpl. apply List.Forall_app. split; [exact Hst|].
    constructor; [discriminate|constructor].
  - apply process_all_ids_given.
    + exact (Hprovider _ _ _ _ Hcall Hcalls).
    + simpl. apply List.Forall_app. split; [exact Hst|].
      constructor; [discriminate|constructor].
  - simpl. apply List.Forall_app. split; [exact Hst|].
    constructor; [discriminate|constructor].
Qed.

Lemma while_loop_ids_given fuel : forall st,
  provider_ids_given ->
  ids_given (messages st) -> ids_given (messages (loop' fuel config' st)).
Proof.
  induction fuel as [|fuel IH]; intros st Hprovider Hst; simpl; [exact Hst|].
  destruct (continueLoop st && (iteration st <? maxIterations)%nat); [|exact Hst].
  apply IH; [exact Hprovider|]. now apply loop_body_ids_given.
Qed.

(** X2.  When the provider gives its tool calls non-empty ids, the
    conversation that [runPdfAgent] leaves is always a transcript that
    [callClaude] can send: translated to Protocol A, every [tool_result]
    block answers a [tool_use] block of the assistant message right
    before it, in order, and no [tool_use] block is left unanswered. *)
Theorem runPdfAgent_transcript_answered :
  provider_ids_given ->
  answered [] (anthropicMessages (messages final')).
Proof.
  intros Hprovider. unfold anthropicMessages.
  apply Paired_toAnthropicMessages.
  - apply Paired_conversationMessages.
    assert (H : Paired (messages (loop' maxIterations config'
                       (initialState systemMessage userMessage context)))).
    { apply while_loop_Paired. simpl.
      apply Paired_plain; [discriminate|reflexivity|].
      apply Paired_app; [apply historyMessages_Paired|].
      apply Paired_plain; [discriminate|reflexivity|constructor]. }
    unfold finalState.
    destruct (maxIterations <=? iteration _)%nat; exact H.
  - apply ids_given_conversationMessages.
    assert (H : ids_given (messages (loop' maxIterations config'
                       (initialState systemMessage userMessage context)))).
    { apply while_loop_ids_given; [exact Hprovider|]. simpl.
      constructor; [discriminate|].
      apply List.Forall_app. split.
      - unfold historyMessages.
        destruct (conversationHistory context) as [history|]; [|constructor].
        apply List.Forall_forall. intros m Hm.
        apply in_map_iff in Hm as [h [<- _]]. simpl.
        destruct (String.eqb _ _); discriminate.
      - constructor; [discriminate|constructor]. }
    unfold finalState.
    destruct (maxIterations <=? iteration _)%nat; exact H.
Qed.

(** *** Bounds that hold for every provider *)

Lemma loop_body_counts st :
  iteration (body' st config') = S (iteration st)
  /\ llmCalls (body' st config') = S (llmCalls st).
Proof.
  unfold loop_body.
  destruct (callLLM _ _ _ _) as [r|thrown]; [|split; reflexivity].
  destruct (toolCalls r) as [[|tc tcs]|]; try (split; reflexivity).
  match goal with
  | |- context [fold_left _ ?calls ?st0] =>
      destruct (process_all_spec pdfMcpTools JSON_stringify context calls st0)
        as [[_ [_ [Hi Hl]]] _]
  end.
  rewrite Hi, Hl. split; reflexivity.
Qed.

Lemma while_loop_counts fuel : forall st,
  (iteration st <= maxIterations)%nat ->
  let st' := loop' fuel config' st in
  (iteration st' <= maxIterations)%nat
  /\ (iteration st' - iteration st = llmCalls st' - llmCalls st)%nat
  /\ (iteration st <= iteration st')%nat
  /\ (llmCalls st <= llmCalls st')%nat.
Proof.
  induction fuel as [|fuel IH]; intros st Hst; simpl; [lia|].
  destruct (continueLoop st) eqn:Hc; simpl; [|lia].
  destruct (Nat.ltb_spec (iteration st) maxIterations) as [Hlt|]; [|lia].
  destruct (loop_body_counts st) as [Hi Hl].
  destruct (IH (body' st config')) as [H1 [H2 [H3 H4]]]; [lia|].
  rewrite Hi, Hl in *. lia.
Qed.

(** X3.  Whatever the provider answers - tool calls for ever, errors,
    anything - [runPdfAgent] calls it at least once and at most
    [maxIterations] = 20 times, once per round. *)
Theorem runPdfAgent_call_bound :
  let st := finalState callLLM pdfMcpTools JSON_stringify PDF_TOOLS
                       systemMessage userMessage context in
  (1 <= llmCalls st <= 20)%nat /\ iteration st = llmCalls st.
Proof.
  cbv zeta.
  set (st0 := initialState systemMessage userMessage context).
  assert (Hcounts : let st := loop' maxIterations config' st0 in
                    (1 <= llmCalls st <= 20)%nat /\ iteration st = llmCalls st).
  { pose proof (while_loop_step callLLM pdfMcpTools JSON_stringify PDF_TOOLS
                                context 19 st0 eq_refl) as Hstep.
    change (S 19) with maxIterations in Hstep.
    cbv zeta. rewrite Hstep by (simpl; unfold maxIterations; lia).
    destruct (loop_body_counts st0) as [Hi Hl].
    destruct (while_loop_counts 19 (body' st0 config')) as [H1 [H2 [H3 H4]]].
    { rewrite Hi. simpl. unfold maxIterations. lia. }
    rewrite Hi, Hl in *. simpl in *. unfold maxIterations in *. lia. }
  unfold finalState. fold st0.
  destruct (maxIterations <=? iteration _)%nat; exact Hcounts.
Qed.

(** *** A provider that fails *)

(** The provider call number [n] throws an error with message
    [thrown]. *)
Definition provider_fails (n : nat) (thrown : string) : Prop :=
  forall msgs, callLLM n msgs PDF_TOOLS config' = Threw thrown.

Definition apology (thrown : string) : string :=
  "I encountered an error: " +:+ thrown +:+ ". Please try again.".

Lemma apology_nonempty thrown d : str_or (apology thrown) d = apology thrown.
Proof. reflexivity. Qed.

Lemma loop_body_provider_error st thrown :
  provider_fails (llmCalls st) thrown ->
  let st' := body' st config' in
  continueLoop st' = false
  /\ finalResponse st' = apology thrown
  /\ iteration st' = S (iteration st)
  /\ llmCalls st' = S (llmCalls st)
  /\ st_operations st' = st_operations st
  /\ messages st' = messages st
  /\ logs st'
     = logs st ++ [mkLog error None None None None
                         (Some (str_or thrown "Agent execution failed"))].
Proof.
  intros Hfails. unfold loop_body. simpl messages. simpl llmCalls.
  rewrite (Hfails (messages st)). repeat split.
Qed.

(** *** Operations, in the order of the calls *)

(** The provider answers call number [n] with the tool calls
    [script n], at least one. *)
Definition replies_with_calls (script : nat -> list LLMToolCall) (n : nat)
  : Prop :=
  script n <> []
  /\ forall msgs, exists r,
       callLLM n msgs PDF_TOOLS config' = Returned r
       /\ toolCalls r = Some (script n).

(** What an operation records of its call. *)
Definition operation_call (op : Operation) : string * JsValue :=
  (op_tool op, op_input op).

Definition call_key (tc : LLMToolCall) : string * JsValue :=
  (tc_name tc, tc_input tc).

Lemma process_tool_call_operation st toolCall :
  exists op, st_operations (process' st toolCall) = st_operations st ++ [op]
             /\ operation_call op = call_key toolCall.
Proof.
  unfold process_tool_call.
  destruct (pdfMcpTools (tc_name toolCall)) as [toolFunction|].
  - destruct (toolFunction _ _) as [toolResult|thrown].
    + destruct (snd (addNewDocuments _ toolResult _));
        eexists; split; reflexivity.
    + eexists; split; reflexivity.
  - eexists; split; reflexivity.
Qed.

Lemma process_all_operations calls : forall st,
  map operation_call (st_operations (fold_left process' calls st))
  = map operation_call (st_operations st) ++ map call_key calls.
Proof.
  induction calls as [|tc calls IH]; intros st; simpl.
  - now rewrite app_nil_r.
  - destruct (process_tool_call_operation st tc) as [op [Hop Hkey]].
    rewrite IH, Hop, map_app. simpl. rewrite Hkey, <- app_assoc. reflexivity.
Qed.

Lemma replies_with_calls_tool_calls script n :
  replies_with_calls script n ->
  replies_with_tool_calls callLLM PDF_TOOLS context n.
Proof.
  intros [Hne Hreply] msgs. destruct (Hreply msgs) as [r [Hr Hcalls]].
  destruct (script n) as [|tc tcs]; [congruence|]. eauto.
Qed.

Lemma loop_body_scripted st script :
  replies_with_calls script (llmCalls st) ->
  map operation_call (st_operations (body' st config'))
  = map operation_call (st_operations st) ++ map call_key (script (llmCalls st)).
Proof.
  intros [Hne Hreply]. destruct (Hreply (messages st)) as [r [Hr Hcalls]].
  unfold loop_body. simpl messages. simpl llmCalls. rewrite Hr, Hcalls.
  destruct (script (llmCalls st)) as [|tc tcs]; [congruence|].
  now rewrite process_all_operations.
Qed.

Lemma scripted_rounds script : forall rounds fuel st,
  (forall n, (llmCalls st <= n < llmCalls st + rounds)%nat ->
             replies_with_calls script n) ->
  continueLoop st = true ->
  (iteration st + rounds <= maxIterations)%nat ->
  (rounds <= fuel)%nat ->
  exists st',
    loop' fuel config' st = loop' (fuel - rounds) config' st'
    /\ continueLoop st' = true
    /\ iteration st' = (iteration st + rounds)%nat
    /\ llmCalls st' = (llmCalls st + rounds)%nat
    /\ map operation_call (st_operations st')
       = map operation_call (st_operations st)
           ++ flat_map (fun n => map call_key (script n))
                       (seq (llmCalls st) rounds).
Proof.
  induction rounds as [|rounds IH]; intros fuel st Hscript Hcont Hceil Hfuel.
  - exists st. rewrite Nat.sub_0_r, !Nat.add_0_r. simpl. rewrite app_nil_r.
    repeat split; auto.
  - destruct fuel as [|fuel]; [lia|].
    assert (Hnow : replies_with_calls script (llmCalls st))
      by (apply Hscript; lia).
    destruct (loop_body_tool_calls callLLM pdfMcpTools JSON_stringify PDF_TOOLS
                context st (replies_with_calls_tool_calls _ _ Hnow))
      as [Hc [_ [Hi [Hl _]]]].
    pose proof (loop_body_scripted st script Hnow) as Hops.
    destruct (IH fuel (body' st config'))
      as [st' [Hloop [Hc' [Hi' [Hl' Hops']]]]].
    + intros n Hn. apply Hscript. lia.
    + congruence.
    + lia.
    + lia.
    + exists st'.
      rewrite (while_loop_step callLLM pdfMcpTools JSON_stringify PDF_TOOLS
                 context fuel st Hcont) by lia.
      split; [exact Hloop|]. split; [exact Hc'|].
      split; [lia|]. split; [lia|].
      rewrite Hops', Hops, Hl, <- app_assoc. reflexivity.
Qed.

(** X4.  When the provider asks for tools in its first [k] replies and then
    gives its final answer (in a round before the last one of the
    ceiling), [operations] records every tool call exactly once - tool
    name and input, whether the call succeeded or failed - in the order
    the provider issued them. *)
Theorem runPdfAgent_operations_in_order
        (script : nat -> list LLMToolCall) (k : nat) (text : string) :
  (S k < maxIterations)%nat ->
  (forall n, (n < k)%nat -> replies_with_calls script n) ->
  replies_with_final_answer callLLM PDF_TOOLS context k text ->
  map operation_call (operations run')
  = flat_map (fun n => map call_key (script n)) (seq 0 k).
Proof.
  intros Hround Hscript Hfinal.
  set (st0 := initialState systemMessage userMessage context).
  destruct (scripted_rounds script k maxIterations st0)
    as [stk [Hloop [Hc [Hi [Hl Hops]]]]]; try reflexivity; try (simpl; lia).
  { intros n Hn. apply Hscript. simpl in Hn. lia. }
  simpl in Hi, Hl, Hops.
  destruct (maxIterations - k)%nat as [|fuel] eqn:Hleft; [lia|].
  rewrite (while_loop_step callLLM pdfMcpTools JSON_stringify PDF_TOOLS context
                           fuel stk Hc) in Hloop by lia.
  rewrite <- Hl in Hfinal.
  destruct (loop_body_final_answer callLLM pdfMcpTools JSON_stringify PDF_TOOLS
              context stk text Hfinal) as [Hc1 [_ [Hi1 [_ [Hops1 _]]]]].
  rewrite (while_loop_stopped callLLM pdfMcpTools JSON_stringify PDF_TOOLS
                              context fuel _ Hc1) in Hloop.
  destruct (runPdfAgent_below_ceiling callLLM pdfMcpTools JSON_stringify
              PDF_TOOLS systemMessage userMessage context) as [_ Hresult].
  { fold st0. rewrite Hloop, Hi1. lia. }
  fold st0 in Hresult. rewrite Hloop in Hresult.
  rewrite Hresult. cbn [operations]. now rewrite Hops1.
Qed.

(** The [return] of [runPdfAgent], at the ceiling or below it. *)
Lemma runPdfAgent_return :
  let st := loop' maxIterations config'
                  (initialState systemMessage userMessage context) in
  response run'
  = (if (maxIterations <=? iteration st)%nat then limitResponse
     else str_or (finalResponse st) "Operation completed.")
  /\ operations run' = st_operations st
  /\ llmCalls final' = llmCalls st
  /\ logs final' = logs st.
Proof.
  intros st. unfold runPdfAgent, finalState. fold st.
  destruct (maxIterations <=? iteration st)%nat; repeat split; reflexivity.
Qed.

(** X5.  When the provider call fails after [k] rounds of tool calls, the
    turn ends without throwing: the provider is not called again, the
    error is the last log entry, and [operations] still records the
    calls of the [k] rounds.  The response is the apology with the
    message of the error - unless the failing call is the 20th of the
    turn ([k] = 19): then the check after the loop replaces the apology
    by the text of the iteration limit. *)
Theorem runPdfAgent_provider_error
        (script : nat -> list LLMToolCall) (k : nat) (thrown : string) :
  (k < maxIterations)%nat ->
  (forall n, (n < k)%nat -> replies_with_calls script n) ->
  provider_fails k thrown ->
  response run'
  = (if (S k <? maxIterations)%nat
     then "I encountered an error: " +:+ thrown +:+ ". Please try again."
     else "I reached the maximum number of operations. Please start a new conversation.")
  /\ llmCalls final' = S k
  /\ (exists earlier,
        logs final'
        = earlier ++ [mkLog error None None None None
                            (Some (str_or thrown "Agent execution failed"))])
  /\ map operation_call (operations run')
     = flat_map (fun n => map call_key (script n)) (seq 0 k).
Proof.
  intros Hround Hscript Hfails.
  set (st0 := initialState systemMessage userMessage context).
  destruct (scripted_rounds script k maxIterations st0)
    as [stk [Hloop [Hc [Hi [Hl Hops]]]]]; try reflexivity; try (simpl; lia).
  { intros n Hn. apply Hscript. simpl in Hn. lia. }
  simpl in Hi, Hl, Hops.
  destruct (maxIterations - k)%nat as [|fuel] eqn:Hleft; [lia|].
  rewrite (while_loop_step callLLM pdfMcpTools JSON_stringify PDF_TOOLS context
                           fuel stk Hc) in Hloop by lia.
  rewrite <- Hl in Hfails.
  destruct (loop_body_provider_error stk thrown Hfails)
    as [Hc1 [Hf1 [Hi1 [Hl1 [Hops1 [Hmsgs1 Hlogs1]]]]]].
  rewrite (while_loop_stopped callLLM pdfMcpTools JSON_stringify PDF_TOOLS
                              context fuel _ Hc1) in Hloop.
  destruct runPdfAgent_return as [Hresponse [Hoperations [Hcalls Hlogs]]].
  fold st0 in Hresponse, Hoperations, Hcalls, Hlogs.
  rewrite Hloop in Hresponse, Hoperations, Hcalls, Hlogs.
  rewrite Hresponse, Hoperations, Hcalls, Hlogs.
  rewrite Hi1, Hi, Hf1, apology_nonempty, Hl1, Hl, Hops1, Hlogs1.
  split; [|split; [reflexivity|split; [eauto|exact Hops]]].
  destruct (Nat.leb_spec maxIterations (S k)),
           (Nat.ltb_spec (S k) maxIterations); try lia; reflexivity.
Qed.

End AgentInvariants.

(** ** Documents of a turn *)

Section TurnDocuments.
Import LlmService PdfAgent JsString DocumentTools.

Variable callLLM :
  nat -> list LLMMessage -> list LLMTool -> LLMConfig -> Throws LLMResponse.
Variable pdfMcpTools :
  string -> option (JsValue -> ToolContext -> Throws JsValue).
Variable JSON_stringify : JsValue -> string.
Variable PDF_TOOLS : list LLMTool.
Variable systemMessage : list JsValue -> string.
Variable userMessage : string.
Variable context : AgentContext.
Variable String_of : JsValue -> string.

Lemma pushFileDocuments_extends toolName files : forall docs,
  extends docs (fst (pushFileDocuments toolName files docs)).
Proof.
  induction files as [|file files IH]; intros docs; simpl.
  - apply extends_refl.
  - destruct (prop file "id"), (prop file "url"),
             (prop file "filename"), (prop file "pages");
      try apply extends_refl.
    destruct (truthy a && truthy a0); [|apply IH].
    eapply extends_trans; [apply extends_push|apply IH].
Qed.

Lemma addNewDocuments_extends toolName toolResult docs :
  extends docs (fst (addNewDocuments toolName toolResult docs)).
Proof.
  unfold addNewDocuments, pushResultDocument.
  destruct (prop toolResult "id") as [id|]; simpl; [|apply extends_refl].
  destruct (prop toolResult "url") as [url|]; simpl; [|apply extends_refl].
  assert (Hfiles : forall docs1, extends docs docs1 ->
            extends docs
              (fst match prop toolResult "files" with
                   | Returned (JArr files) =>
                       pushFileDocuments toolName files docs1
                   | Returned _ => (docs1, None)
                   | Threw m => (docs1, Some m)
                   end)).
  { intros docs1 H1. destruct (prop toolResult "files") as [[]|]; simpl;
      try exact H1.
    eapply extends_trans; [exact H1|apply pushFileDocuments_extends]. }
  destruct (truthy id && truthy url).
  - destruct (prop toolResult "filename") as [filename|]; simpl;
      [|apply extends_refl].
    apply Hfiles, extends_push.
  - simpl. apply Hfiles, extends_refl.
Qed.

Lemma process_tool_call_documents st toolCall :
  extends (documents st)
          (documents (process_tool_call pdfMcpTools JSON_stringify context
                                        st toolCall)).
Proof.
  unfold process_tool_call.
  destruct (pdfMcpTools (tc_name toolCall)) as [toolFunction|];
    [|apply extends_refl].
  destruct (toolFunction _ _) as [toolResult|thrown]; [|apply extends_refl].
  simpl documents.
  destruct (snd (addNewDocuments _ toolResult _)); simpl;
    apply addNewDocuments_extends.
Qed.

Lemma loop_body_documents st config :
  extends (documents st)
          (documents (loop_body callLLM pdfMcpTools JSON_stringify PDF_TOOLS
                                context st config)).
Proof.
  unfold loop_body.
  destruct (callLLM _ _ _ _) as [result|thrown]; [|apply extends_refl].
  destruct (toolCalls result) as [[|tc tcs]|]; try apply extends_refl.
  match goal with
  | |- context [fold_left _ ?calls ?st0] =>
      change (documents st) with (documents st0); generalize st0;
      induction calls as [|c cs IH]; intros s; simpl
  end.
  - apply extends_refl.
  - eapply extends_trans; [apply process_tool_call_documents|apply IH].
Qed.

(** X6.  Whatever happens in a turn, no document leaves the list that the
    tools see: the documents at the end of the turn are those of the
    start, in the same order, followed by the documents that tool
    results added. *)
Theorem runPdfAgent_documents_kept :
  extends (ctx_documents context)
          (documents (finalState callLLM pdfMcpTools JSON_stringify PDF_TOOLS
                                 systemMessage userMessage context)).
Proof.
  assert (Hloop : forall fuel st config,
            extends (documents st)
                    (documents (while_loop callLLM pdfMcpTools JSON_stringify
                                           PDF_TOOLS context fuel config st))).
  { induction fuel as [|fuel IH]; intros st config; simpl;
      [apply extends_refl|].
    destruct (continueLoop st && (iteration st <? maxIterations)%nat);
      [|apply extends_refl].
    eapply extends_trans; [apply loop_body_documents|apply IH]. }
  unfold finalState.
  destruct (maxIterations <=? iteration _)%nat; apply Hloop.
Qed.

Lemma find_document_app documentId docs d :
  find_document documentId docs = Returned None ->
  has_id documentId d = Returned true ->
  find_document documentId (docs ++ [d]) = Returned (Some d).
Proof.
  intros Hnone Hd. induction docs as [|d0 docs IH]; simpl in *.
  - now rewrite Hd.
  - destruct (has_id documentId d0) as [[|]|]; simpl in *; try discriminate.
    now apply IH.
Qed.

(** X7.  Same-turn chaining.  When a tool returns an artifact - an object
    with a string [id] that no document of the turn carries yet and a
    string [url], both non-empty, and no [files] - the document is in
    the list that the next tool call receives: looking up the id there,
    as every tool does first, finds the artifact under its URL. *)
Theorem artifact_can_be_used_by_next_call
        (st : LoopState) (toolCall : LLMToolCall)
        (toolFunction : JsValue -> ToolContext -> Throws JsValue)
        (fields : list (string * JsValue)) (id url : string) :
  pdfMcpTools (tc_name toolCall) = Some toolFunction ->
  toolFunction (tc_input toolCall)
               (mkToolContext (documents st) (userId context))
  = Returned (JObj fields) ->
  assoc "id" fields = JStr id -> id <> "" ->
  assoc "url" fields = JStr url -> url <> "" ->
  assoc "files" fields = JUndefined ->
  find_document id (documents st) = Returned None ->
  let st' := process_tool_call pdfMcpTools JSON_stringify context st toolCall in
  documents st'
  = documents st
      ++ [revisedDocument (tc_name toolCall) (JStr id)
                          (assoc "filename" fields) (JStr url) (JStr "unknown")]
  /\ downloadPdfFromS3 String_of id (documents st')
     = Returned (match strip_prefix "/uploads/" url with
                 | Some relativePath => LocalFile relativePath
                 | None => RemoteUrl url
                 end).
Proof.
  intros Htool Hresult Hid Hid_ne Hurl Hurl_ne Hfiles Hfresh.
  assert (Hdocs :
    documents (process_tool_call pdfMcpTools JSON_stringify context st toolCall)
    = documents st
        ++ [revisedDocument (tc_name toolCall) (JStr id)
                            (assoc "filename" fields) (JStr url) (JStr "unknown")]).
  { unfold process_tool_call. rewrite Htool. cbn [documents log].
    rewrite Hresult. unfold addNewDocuments, pushResultDocument. simpl prop.
    rewrite Hid, Hurl, Hfiles. simpl.
    destruct (String.eqb_spec id ""); [contradiction|].
    destruct (String.eqb_spec url ""); [contradiction|]. reflexivity. }
  cbv zeta. split; [exact Hdocs|]. rewrite Hdocs.
  unfold downloadPdfFromS3.
  rewrite (find_document_app id (documents st) _ Hfresh).
  - cbn -[strip_prefix].
    destruct (String.eqb_spec url ""); [contradiction|].
    cbn -[strip_prefix].
    now destruct (strip_prefix "/uploads/" url).
  - unfold has_id, revisedDocument. simpl. now rewrite String.eqb_refl.
Qed.

End TurnDocuments.

(** ** The provider adapter: nothing is lost *)

Section Conversion.
Import LlmService.










End Conversion.

(** ** A reply that cannot be parsed *)

Section MalformedArguments.
Import LlmService PdfAgent.

Variable messages_create : string -> CreateParams -> Throws AnthropicMessage.
Variable invokeLLM : InvokeParams -> Throws (list Choice).
Variable JSON_stringify : JsValue -> string.
Variable JSON_parse : string -> Throws JsValue.
Variable pdfMcpTools :
  string -> option (JsValue -> ToolContext -> Throws JsValue).
Variable PDF_TOOLS : list LLMTool.
Variable systemMessage : list JsValue -> string.
Variable userMessage : string.
Variable context : AgentContext.

(** The agent on the adapter: [callLLM] does not depend on the number of
    earlier calls. *)
Definition adapter
  : nat -> list LLMMessage -> list LLMTool -> LLMConfig -> Throws LLMResponse :=
  fun _ => LlmService.callLLM messages_create invokeLLM JSON_stringify JSON_parse.

Lemma mapM_first_throw {A B} (f : A -> Throws B) good bad rest thrown :
  (forall a, In a good -> exists b, f a = Returned b) ->
  f bad = Threw thrown ->
  mapM f (good ++ bad :: rest) = Threw thrown.
Proof.
  intros Hgood Hbad. induction good as [|a good IH]; simpl.
  - now rewrite Hbad.
  - destruct (Hgood a) as [b ->]; [now left|]. simpl.
    rewrite IH by (intros; apply Hgood; now right). reflexivity.
Qed.

(** X9.  One malformed tool call spoils the reply.  When the agent runs
    on the Manus backend and the first reply holds a tool call whose
    [arguments] are not JSON, the turn ends at once with the apology
    that carries the parser's message: no tool is run, not even for the
    well-formed calls that precede the malformed one in the same reply,
    and the backend is not asked again. *)
Theorem malformed_tool_arguments_end_the_turn
        (choice : Choice) (others : list Choice)
        (good : list OpenAIToolCall) (bad : OpenAIToolCall)
        (rest : list OpenAIToolCall) (thrown : string) :
  let config := effectiveConfig context in
  let st0 := initialState systemMessage userMessage context in
  Provider_eqb (provider config) claude
  && opt_truthy (anthropicApiKey config) = false ->
  invokeLLM (mkInvokeParams (map toOpenAIMessage (messages st0))
                            (map convertToolToOpenAI PDF_TOOLS) "auto" 4096)
  = Returned (choice :: others) ->
  choice_tool_calls choice = Some (good ++ bad :: rest) ->
  (forall tc, In tc good ->
              exists input, JSON_parse (otc_function_arguments tc)
                            = Returned input) ->
  JSON_parse (otc_function_arguments bad) = Threw thrown ->
  let result := runPdfAgent adapter pdfMcpTools JSON_stringify PDF_TOOLS
                            systemMessage userMessage context in
  response result
  = "I encountered an error: " +:+ thrown +:+ ". Please try again."
  /\ operations result = []
  /\ llmCalls (finalState adapter pdfMcpTools JSON_stringify PDF_TOOLS
                          systemMessage userMessage context) = 1%nat.
Proof.
  intros config st0 Hbackend Hreply Hcalls Hgood Hbad result.
  assert (Hcall : adapter 0 (messages st0) PDF_TOOLS config = Threw thrown).
  { unfold adapter, LlmService.callLLM. fold config. rewrite Hbackend.
    unfold callManus. rewrite Hreply. cbn [bind]. rewrite Hcalls.
    rewrite (mapM_first_throw _ good bad rest thrown); [reflexivity| |].
    - intros tc Htc. destruct (Hgood tc Htc) as [input ->]. simpl. eauto.
    - now rewrite Hbad. }
  assert (Hbody : loop_body adapter pdfMcpTools JSON_stringify PDF_TOOLS
                            context st0 config
                  = finish ("I encountered an error: " +:+ thrown
                              +:+ ". Please try again.")
                           (log (mkLog error None None None None
                                       (Some (str_or thrown
                                                     "Agent execution failed")))
                                (begin_round st0))).
  { unfold loop_body. cbn [messages llmCalls begin_round st0 initialState].
    fold st0. change (messages st0) with (messages st0).
    unfold st0 in Hcall. cbn [messages initialState] in Hcall.
    now rewrite Hcall. }
  pose proof (while_loop_step adapter pdfMcpTools JSON_stringify PDF_TOOLS
                              context 19 st0 eq_refl) as Hstep.
  change (S 19) with maxIterations in Hstep. fold config in Hstep.
  assert (Hbelow : (iteration st0 < maxIterations)%nat)
    by (simpl; unfold maxIterations; lia).
  specialize (Hstep Hbelow). rewrite Hbody in Hstep. unfold config in Hstep.
  match type of Hstep with
  | _ = while_loop _ _ _ _ _ _ _ ?st1 =>
      rewrite (while_loop_stopped adapter pdfMcpTools JSON_stringify PDF_TOOLS
                                  context 19 st1 eq_refl) in Hstep
  end.
  subst result. unfold runPdfAgent, finalState. fold st0.
  rewrite Hstep. cbn. repeat split.
Qed.

End MalformedArguments.

(** *** Scripted turns, continued *)

Section ScriptedInvariants.
Import LlmService PdfAgent JsString DocumentTools.

(** The calls of [tool_reply], whatever the round. *)
Definition scripted_calls : nat -> list LLMToolCall :=
  fun _ => [split_call; extract_call].

(** A provider that asks for tools in its first [k] replies and then
    fails. *)
Definition fails_after (k : nat) (thrown : string)
  : nat -> list LLMMessage -> list LLMTool -> LLMConfig -> Throws LLMResponse :=
  fun n _ _ _ =>
    if (n <? k)%nat then Returned tool_reply else Threw thrown.

Lemma runPdfAgent_transcript_answered_witness :
  answered [] (anthropicMessages
                 (messages (scripted_final (answers_after 2 "All done.")))).
Proof.
  apply (runPdfAgent_transcript_answered
           (answers_after 2 "All done.") scripted_tools scripted_stringify []
           (fun _ => "You are a PDF operations assistant.")
           "Split pages 1-2 of doc9" session_context).
  intros n msgs r calls. unfold answers_after.
  destruct (n <? 2)%nat; intros [= <-] [= <-].
  repeat constructor; discriminate.
Defined.

Lemma runPdfAgent_operations_in_order_witness :
  map operation_call (operations (scripted_run (answers_after 2 "All done.")))
  = flat_map (fun n => map call_key (scripted_calls n)) (seq 0 2).
Proof.
  apply (runPdfAgent_operations_in_order
           (answers_after 2 "All done.") scripted_tools scripted_stringify []
           (fun _ => "You are a PDF operations assistant.")
           "Split pages 1-2 of doc9" session_context
           scripted_calls 2 "All done.").
  - unfold maxIterations. lia.
  - intros n Hn. split; [discriminate|]. intros msgs. exists tool_reply.
    unfold answers_after. apply Nat.ltb_lt in Hn. rewrite Hn.
    split; reflexivity.
  - apply answers_after_final.
Defined.

Lemma runPdfAgent_provider_error_witness :
  response (scripted_run (fails_after 1 "529 Overloaded"))
  = (if (2 <? maxIterations)%nat
     then "I encountered an error: " +:+ "529 Overloaded" +:+ ". Please try again."
     else "I reached the maximum number of operations. Please start a new conversation.")
  /\ llmCalls (scripted_final (fails_after 1 "529 Overloaded")) = 2%nat
  /\ (exists earlier,
        logs (scripted_final (fails_after 1 "529 Overloaded"))
        = earlier ++ [mkLog error None None None None
                            (Some (str_or "529 Overloaded"
                                          "Agent execution failed"))])
  /\ map operation_call
         (operations (scripted_run (fails_after 1 "529 Overloaded")))
     = flat_map (fun n => map call_key (scripted_calls n)) (seq 0 1).
Proof.
  apply (runPdfAgent_provider_error
           (fails_after 1 "529 Overloaded") scripted_tools scripted_stringify []
           (fun _ => "You are a PDF operations assistant.")
           "Split pages 1-2 of doc9" session_context
           scripted_calls 1 "529 Overloaded").
  - unfold maxIterations. lia.
  - intros n Hn. split; [discriminate|]. intros msgs. exists tool_reply.
    unfold fails_after. apply Nat.ltb_lt in Hn. rewrite Hn.
    split; reflexivity.
  - intros msgs. reflexivity.
Defined.

(** A registry whose [move_pages] returns an artifact. *)
Definition artifact_fields : list (string * JsValue) :=
  [("success", JBool true);
   ("message", JStr "Reordered 2 pages. New document ID: 5f1c9a3e7b2d4086");
   ("id", JStr "5f1c9a3e7b2d4086");
   ("url", JStr "/uploads/sessions/s1/reordered-9c1e44aa.pdf");
   ("filename", JStr "reordered")].

Definition artifact_tools
  : string -> option (JsValue -> ToolContext -> Throws JsValue) :=
  fun toolName =>
    if String.eqb toolName "move_pages"
    then Some (fun _ _ => Returned (JObj artifact_fields))
    else None.

Definition move_call : LLMToolCall :=
  mkToolCall "call_3" "move_pages"
             (JObj [("documentId", JStr "doc1");
                    ("pageOrder", JArr [JNum 2; JNum 1])]).

Definition first_state : LoopState :=
  initialState (fun _ => "You are a PDF operations assistant.")
               "Swap the two pages of doc1" session_context.

Definition scripted_String_of (v : JsValue) : string :=
  match v with
  | JStr s => s
  | _ => "[object Object]"
  end.

Lemma artifact_can_be_used_by_next_call_witness :
  let st' := process_tool_call artifact_tools scripted_stringify
                               session_context first_state move_call in
  documents st'
  = documents first_state
      ++ [revisedDocument "move_pages" (JStr "5f1c9a3e7b2d4086")
                          (JStr "reordered")
                          (JStr "/uploads/sessions/s1/reordered-9c1e44aa.pdf")
                          (JStr "unknown")]
  /\ downloadPdfFromS3 scripted_String_of "5f1c9a3e7b2d4086" (documents st')
     = Returned (LocalFile "sessions/s1/reordered-9c1e44aa.pdf").
Proof.
  apply (artifact_can_be_used_by_next_call
           artifact_tools scripted_stringify session_context
           scripted_String_of first_state move_call
           (fun _ _ => Returned (JObj artifact_fields)) artifact_fields
           "5f1c9a3e7b2d4086" "/uploads/sessions/s1/reordered-9c1e44aa.pdf");
    try reflexivity; discriminate.
Defined.

(** A Manus backend whose reply holds a call with truncated
    arguments. *)
Definition truncated_reply : Choice :=
  mkChoice (JStr "")
           (Some [mkOpenAIToolCall "call_1" "extract_text" "{}";
                  mkOpenAIToolCall "call_2" "split_pdf" "{ documentId: ";
                  mkOpenAIToolCall "call_3" "extract_text" "{}"])
           (Some "tool_calls").

Definition scripted_parse (s : string) : Throws JsValue :=
  if String.eqb s "{}" then Returned (JObj [])
  else Threw "Unexpected end of JSON input".

Lemma malformed_tool_arguments_end_the_turn_witness :
  let result :=
    runPdfAgent (adapter (fun _ _ => Threw "no network")
                         (fun _ => Returned [truncated_reply])
                         scripted_stringify scripted_parse)
                scripted_tools scripted_stringify []
                (fun _ => "You are a PDF operations assistant.")
                "Extract the text of doc1" session_context in
  response result
  = "I encountered an error: " +:+ "Unexpected end of JSON input"
      +:+ ". Please try again."
  /\ operations result = []
  /\ llmCalls (finalState
                 (adapter (fun _ _ => Threw "no network")
                          (fun _ => Returned [truncated_reply])
                          scripted_stringify scripted_parse)
                 scripted_tools scripted_stringify []
                 (fun _ => "You are a PDF operations assistant.")
                 "Extract the text of doc1" session_context) = 1%nat.
Proof.
  apply (malformed_tool_arguments_end_the_turn
           (fun _ _ => Threw "no network")
           (fun _ => Returned [truncated_reply])
           scripted_stringify scripted_parse scripted_tools []
           (fun _ => "You are a PDF operations assistant.")
           "Extract the text of doc1" session_context
           truncated_reply []
           [mkOpenAIToolCall "call_1" "extract_text" "{}"]
           (mkOpenAIToolCall "call_2" "split_pdf" "{ documentId: ")
           [mkOpenAIToolCall "call_3" "extract_text" "{}"]
           "Unexpected end of JSON input").
  - reflexivity.
  - reflexivity.
  - reflexivity.
  - intros tc [<-|[]]. exists (JObj []). reflexivity.
  - reflexivity.
Defined.

End ScriptedInvariants.

(** ** The whitespace search: what it finds *)

Section SearchFinds.
Import PdfMcpTools.

Variable input : FindWhitespaceInput.
Variable r : Raster.

(** The converse of [segment_full]. *)
Lemma segment_const f M a b :
  (a <= b)%nat ->
  (forall k, (a <= k < b)%nat -> f k = M) ->
  sum_below f b - sum_below f a = Z.of_nat (b - a) * M.
Proof.
  induction 1 as [|m Hle IH]; intros Hf.
  - rewrite Nat.sub_diag. lia.
  - replace (S m - a)%nat with (S (m - a)) by lia.
    rewrite Nat2Z.inj_succ, Z.mul_succ_l. simpl.
    rewrite (Hf m) by lia.
    assert (sum_below f m - sum_below f a = Z.of_nat (m - a) * M)
      by (apply IH; intros k Hk; apply Hf; lia).
    lia.
Qed.

Lemma rectangle_white (x1 y1 x2 y2 : nat) :
  (x1 <= x2)%nat -> (y1 <= y2)%nat ->
  (forall py px, (y1 <= py < y2)%nat -> (x1 <= px < x2)%nat ->
                 isWhite r py px = 1) ->
  count_white r y2 x2 - count_white r y1 x2 - count_white r y2 x1
    + count_white r y1 x1
  = Z.of_nat (x2 - x1) * Z.of_nat (y2 - y1).
Proof.
  intros Hx Hy Hwhite.
  set (g := fun j => sum_below (isWhite r j) x2 - sum_below (isWhite r j) x1).
  assert (Hg : forall y, sum_below g y = count_white r y x2 - count_white r y x1).
  { intros y. unfold g, count_white. now rewrite sum_below_sub. }
  pose proof (segment_const g (Z.of_nat (x2 - x1)) y1 y2 Hy) as Hrows.
  rewrite !Hg in Hrows. rewrite Z.mul_comm. rewrite <- Hrows; [lia|].
  intros j Hj. unfold g.
  rewrite (segment_const (isWhite r j) 1 x1 x2 Hx); [lia|].
  intros k Hk. now apply Hwhite.
Qed.

Lemma read_cell_inside T y x :
  table_ok r T ->
  0 <= y <= Z.of_nat (height r) -> 0 <= x <= Z.of_nat (width r) ->
  read_cell T y x = Returned (Some (cell T (Z.to_nat y) (Z.to_nat x))).
Proof.
  intros Hok Hy Hx. unfold read_cell, index.
  destruct (Z.ltb_spec y 0); [lia|].
  destruct (table_ok_row r T (Z.to_nat y) Hok) as [row [Hrow Hlen]]; [lia|].
  rewrite Hrow. destruct (Z.ltb_spec x 0); [lia|].
  destruct (lookup_lt_is_Some_2 row (Z.to_nat x)) as [v Hv]; [lia|].
  unfold cell. rewrite Hrow. simpl. now rewrite Hv.
Qed.

(** [regionIsClear] answers [true] for every rectangle of white pixels
    inside the raster. *)
Lemma regionIsClear_white x1 y1 x2 y2 :
  0 <= x1 <= x2 -> x2 <= Z.of_nat (width r) ->
  0 <= y1 <= y2 -> y2 <= Z.of_nat (height r) ->
  (forall px py, x1 <= px < x2 -> y1 <= py < y2 ->
                 isWhite r (Z.to_nat py) (Z.to_nat px) = 1) ->
  regionIsClear (build_integral r) x1 y1 x2 y2 = Returned true.
Proof.
  intros Hx Hx2 Hy Hy2 Hwhite.
  destruct (build_integral_spec r) as [Hok Hcells].
  unfold regionIsClear.
  rewrite !(read_cell_inside _ _ _ Hok) by lia. simpl.
  rewrite !Hcells by lia. f_equal. apply Z.eqb_eq.
  rewrite (rectangle_white (Z.to_nat x1) (Z.to_nat y1)
                           (Z.to_nat x2) (Z.to_nat y2));
    [f_equal; lia|lia|lia|].
  intros py px Hpy Hpx.
  specialize (Hwhite (Z.of_nat px) (Z.of_nat py)).
  rewrite !Nat2Z.id in Hwhite. apply Hwhite; lia.
Qed.

Lemma mapM_concat_found {A B} (f : A -> Throws (list B)) l found a bs c :
  mapM f l = Returned found -> In a l -> f a = Returned bs -> In c bs ->
  In c (concat found).
Proof.
  revert found. induction l as [|a' l IH]; simpl; intros found Hmap Hin Hfa Hc;
    [contradiction|].
  destruct (f a') as [bs'|] eqn:Efa; simpl in Hmap; [|discriminate].
  destruct (mapM f l) as [rest|]; simpl in Hmap; [|discriminate].
  inversion Hmap; subst. simpl. apply in_or_app.
  destruct Hin as [->|Hin].
  - left. congruence.
  - right. now apply (IH rest).
Qed.

Lemma mapM_In_Returned {A B} (f : A -> Throws B) l bs a :
  mapM f l = Returned bs -> In a l -> exists b, f a = Returned b.
Proof.
  revert bs. induction l as [|a' l IH]; simpl; intros bs Hmap Hin;
    [contradiction|].
  destruct (f a') as [b'|] eqn:Efa; simpl in Hmap; [|discriminate].
  destruct (mapM f l) as [rest|]; simpl in Hmap; [|discriminate].
  destruct Hin as [->|Hin]; eauto.
Qed.

(** The positions that the two scanning loops visit. *)
Definition scanned (x y : Z) : Prop :=
  In x (for_range marginPx
                  (Z.of_nat (width r) - minWidthPx input - marginPx)
                  (stepX input))
  /\ In y (for_range marginPx
                     (Z.of_nat (height r) - minHeightPx input - marginPx)
                     (stepY input)).

(** The pixels of the rectangle at [(x, y)] are bytes of the raster at
    or above the threshold. *)
Definition clear_at (x y : Z) : Prop :=
  forall px py,
    x <= px < x + minWidthPx input -> y <= py < y + minHeightPx input ->
    exists b, index (data r) (py * Z.of_nat (width r) + px) = Some b
              /\ threshold <= b.

Lemma clear_at_isWhite x y px py :
  0 <= x -> 0 <= y -> clear_at x y ->
  x <= px < x + minWidthPx input -> y <= py < y + minHeightPx input ->
  isWhite r (Z.to_nat py) (Z.to_nat px) = 1.
Proof.
  intros Hx Hy Hclear Hpx Hpy.
  destruct (Hclear px py Hpx Hpy) as [b [Hb Hthr]].
  unfold isWhite. unfold index in Hb.
  destruct (Z.ltb_spec (py * Z.of_nat (width r) + px) 0); [discriminate|].
  replace (Z.to_nat py * width r + Z.to_nat px)%nat
    with (Z.to_nat (py * Z.of_nat (width r) + px)) by nia.
  rewrite Hb. destruct (Z.geb_spec b threshold); [reflexivity|lia].
Qed.

(** The candidates are exactly the scanned positions whose rectangle
    [regionIsClear] accepts. *)
Lemma scan_candidates_iff T candidates x y :
  sizes_finite input = true ->
  scan input r T = Returned candidates ->
  (exists c, In c candidates /\ cand_x c = x /\ cand_y c = y)
  <-> scanned x y
      /\ regionIsClear T x y (x + minWidthPx input) (y + minHeightPx input)
         = Returned true.
Proof.
  unfold scan. intros Hfinite Hscan. rewrite Hfinite in Hscan.
  destruct (mapM (scan_row input r T) _) as [rows|] eqn:Hrows;
    simpl in Hscan; [|discriminate].
  inversion Hscan; subst. clear Hscan. split.
  - intros [c [Hin [<- <-]]].
    destruct (mapM_concat_In _ _ _ _ Hrows Hin) as [y [row [Hy [Hrow Hc]]]].
    unfold scan_row in Hrow.
    destruct (mapM (scan_at input r T y) _) as [cells|] eqn:Hcells;
      simpl in Hrow; [|discriminate].
    inversion Hrow; subst.
    destruct (mapM_concat_In _ _ _ _ Hcells Hc) as [x [found [Hx [Hat Hfound]]]].
    unfold scan_at in Hat.
    destruct (regionIsClear _ _ _ _ _) as [[|]|] eqn:Hclear; simpl in Hat;
      try discriminate; inversion Hat; subst; [|contradiction].
    destruct Hfound as [<-|[]]. simpl. repeat split; assumption.
  - intros [[Hx Hy] Hclear].
    destruct (mapM_In_Returned _ _ _ _ Hrows Hy) as [row Hrow].
    pose proof Hrow as Hrow'. unfold scan_row in Hrow'.
    destruct (mapM (scan_at input r T y) _) as [cells|] eqn:Hcells;
      simpl in Hrow'; [|discriminate].
    inversion Hrow'; subst.
    eexists (mkCandidate x y _). split; [|split; reflexivity].
    eapply (mapM_concat_found _ _ _ y _ _ Hrows Hy Hrow).
    eapply (mapM_concat_found _ _ _ x _ _ Hcells Hx).
    + unfold scan_at. rewrite Hclear. reflexivity.
    + now left.
Qed.

Lemma marginPx_value : marginPx = 75.
Proof. reflexivity. Qed.

(** Without numbers of pixels there is no candidate. *)
Lemma scan_sizes_finite T candidates c :
  scan input r T = Returned candidates -> In c candidates ->
  sizes_finite input = true.
Proof.
  unfold scan. destruct (sizes_finite input); [reflexivity|].
  intros Hscan Hin. inversion Hscan; subst. contradiction.
Qed.

(** The regions are built from candidates of the scan. *)
Lemma region_candidate out region :
  find_whitespace input r = Returned out -> In region (regions out) ->
  exists candidates i c,
    scan input r (build_integral r) = Returned candidates
    /\ In c candidates /\ region = toRegion input r i c.
Proof.
  intros Hfind Hin.
  destruct (find_whitespace_inv input r out Hfind)
    as [candidates [Hscan [_ Hregions]]].
  rewrite Hregions in Hin. apply list_elem_of_In in Hin.
  apply elem_of_lookup_imap in Hin as [i [c [-> Hc]]].
  exists candidates, i, c. split; [exact Hscan|]. split; [|reflexivity].
  apply (Permutation_in _ (sort_by_score_Permutation candidates)).
  assert (Htop : c ∈ take 5 (sort_by_score candidates))
    by (eapply list_elem_of_lookup_2; exact Hc).
  apply elem_of_take in Htop as [k [Hk _]].
  apply list_elem_of_In. eapply list_elem_of_lookup_2; exact Hk.
Qed.

(** X10.  The search is exact on its grid.  For sizes that give numbers
    of pixels, none of them negative, [find_whitespace] reports [found]
    if and only if one of the positions that it scans is the corner of
    a rectangle of [minWidthPx] by [minHeightPx] pixels whose pixels are
    all at or above the threshold: no clear position of the grid is
    missed, and none is made up. *)
Theorem find_whitespace_found_iff_clear_position
        (out : FindWhitespaceResult) :
  find_whitespace input r = Returned out ->
  sizes_finite input = true ->
  0 <= minWidthPx input -> 0 <= minHeightPx input ->
  (found out = true <-> exists x y, scanned x y /\ clear_at x y)
  /\ (found out = true <-> 0 < candidatesFound out)
  /\ (found out = false <-> regions out = []).
Proof.
  intros Hfind Hfinite Hw Hh.
  destruct (find_whitespace_inv input r out Hfind)
    as [candidates [Hscan [Hcount Hregions]]].
  assert (Hfound : found out = (0 <? Z.of_nat (length (regions out)))).
  { unfold find_whitespace in Hfind.
    destruct ((width r =? 0)%nat || (height r =? 0)%nat); [discriminate|].
    destruct (scan input r (build_integral r)); simpl in Hfind;
      [|discriminate].
    now inversion Hfind. }
  assert (Hlen : length (regions out) = Nat.min 5 (length candidates)).
  { rewrite Hregions, length_imap, length_take.
    now rewrite (Permutation_length (sort_by_score_Permutation candidates)). }
  assert (Hnonempty : found out = true <-> candidates <> []).
  { rewrite Hfound, Hlen. destruct candidates; simpl.
    - split; [discriminate|congruence].
    - split; [discriminate|]. intros _. apply Z.ltb_lt. lia. }
  split; [|split].
  - rewrite Hnonempty. split.
    + intros Hne. destruct candidates as [|c rest]; [congruence|].
      exists (cand_x c), (cand_y c).
      destruct (proj1 (scan_candidates_iff _ _ (cand_x c) (cand_y c)
                         Hfinite Hscan))
        as [Hgrid Hclear]; [exists c; simpl; auto|].
      split; [exact Hgrid|].
      apply regionIsClear_true in Hclear as [Hinside Hwhite].
      intros px py Hpx Hpy. apply isWhite_brightness; [lia|lia|].
      now apply Hwhite.
    + intros [x [y [[Hx Hy] Hclear]]].
      pose proof Hx as Hx'. pose proof Hy as Hy'.
      apply for_range_bounds in Hx'; [|unfold stepX; lia].
      apply for_range_bounds in Hy'; [|unfold stepY; lia].
      rewrite marginPx_value in Hx', Hy'.
      destruct (proj2 (scan_candidates_iff _ _ x y Hfinite Hscan))
        as [c [Hc _]].
      * split; [split; assumption|].
        apply regionIsClear_white; try lia.
        intros px py Hpx Hpy.
        apply (clear_at_isWhite x y); [lia|lia|exact Hclear|lia|lia].
      * intros ->. contradiction.
  - rewrite Hnonempty, Hcount. destruct candidates; simpl.
    + split; [congruence|lia].
    + split; [lia|discriminate].
  - rewrite Hfound. destruct (regions out); simpl.
    + split; reflexivity.
    + split; [|discriminate]. intros H. apply Z.ltb_ge in H. lia.
Qed.

(** X11.  The tested rectangle keeps the half-inch margin.  Every
    region comes from a position [(x, y)] of the raster - its [xInches]
    is [x / dpi], its [yInches] the flipped [(height - y - minHeightPx)
    / dpi] - and the rectangle of [minWidthPx] by [minHeightPx] pixels
    at this position, the one that was tested, lies at least 75 pixels
    (0.5 inch at 150 dpi) inside each of the four edges of the raster. *)
Theorem find_whitespace_regions_keep_margin
        (out : FindWhitespaceResult) (region : Region) :
  find_whitespace input r = Returned out ->
  In region (regions out) ->
  exists x y : Z,
    xInches region = (integer x / dpi)%float
    /\ yInches region
       = (integer (Z.of_nat (height r) - y - minHeightPx input) / dpi)%float
    /\ 75 <= x /\ x + minWidthPx input <= Z.of_nat (width r) - 75
    /\ 75 <= y /\ y + minHeightPx input <= Z.of_nat (height r) - 75.
Proof.
  intros Hfind Hin.
  destruct (region_candidate out region Hfind Hin)
    as [candidates [i [c [Hscan [Hcand ->]]]]].
  pose proof (scan_sizes_finite _ _ _ Hscan Hcand) as Hfinite.
  destruct (proj1 (scan_candidates_iff _ _ (cand_x c) (cand_y c)
                     Hfinite Hscan))
    as [[Hx Hy] _]; [exists c; auto|].
  apply for_range_bounds in Hx; [|unfold stepX; lia].
  apply for_range_bounds in Hy; [|unfold stepY; lia].
  rewrite marginPx_value in Hx, Hy.
  exists (cand_x c), (cand_y c). repeat split; lia.
Qed.

(** X31.  What a region guarantees.  Every region comes from a position
    [(x, y)] of the raster - its [xInches] is [x / dpi], its [yInches]
    the flipped [(height - y - minHeightPx) / dpi] - and the rectangle
    of [minWidthPx] by [minHeightPx] pixels at this position, with the
    pixel counts [Math.floor(inches * dpi)] as the tool computes them,
    lies inside the raster and holds only bytes at or above the
    threshold. *)
Theorem find_whitespace_tested_rectangle_is_clear
        (out : FindWhitespaceResult) (region : Region) :
  find_whitespace input r = Returned out ->
  In region (regions out) ->
  exists x y : Z,
    xInches region = (integer x / dpi)%float
    /\ yInches region
       = (integer (Z.of_nat (height r) - y - minHeightPx input) / dpi)%float
    /\ 0 <= x /\ x + minWidthPx input <= Z.of_nat (width r)
    /\ 0 <= y /\ y + minHeightPx input <= Z.of_nat (height r)
    /\ forall px py,
         x <= px < x + minWidthPx input ->
         y <= py < y + minHeightPx input ->
         exists b, index (data r) (py * Z.of_nat (width r) + px) = Some b
                   /\ threshold <= b.
Proof.
  intros Hfind Hin.
  destruct (region_candidate out region Hfind Hin)
    as [candidates [i [c [Hscan [Hcand ->]]]]].
  pose proof (scan_candidates_clear _ _ _ _ _ Hscan Hcand) as Hclear.
  apply regionIsClear_true in Hclear as [Hinside Hwhite].
  exists (cand_x c), (cand_y c).
  split; [reflexivity|]. split; [reflexivity|].
  repeat (split; [lia|]).
  intros px py Hpx Hpy. apply isWhite_brightness; [lia|lia|].
  now apply Hwhite.
Qed.

End SearchFinds.

(** ** Two window tests *)

Section WindowTests.
Import PdfMcpTools WhitespaceService.

Variable r : Raster.

Let W := Z.of_nat (width r).
Let H := Z.of_nat (height r).

Lemma row_is_clear_spec data t width py n : forall px,
  row_is_clear data t width py px n = true
  <-> forall k, 0 <= k < Z.of_nat n ->
                dark data t (py * width + (px + k)) = false.
Proof.
  induction n as [|n IH]; intros px; simpl row_is_clear.
  - split; [intros _ k Hk; lia|reflexivity].
  - destruct (dark data t (py * width + px)) eqn:Hdark.
    + split; [discriminate|]. intros Hall.
      specialize (Hall 0). rewrite Z.add_0_r in Hall.
      rewrite Hall in Hdark by lia. discriminate.
    + rewrite IH. split.
      * intros Hall k Hk. destruct (Z.eq_dec k 0) as [->|Hne].
        -- now rewrite Z.add_0_r.
        -- replace (px + k) with (px + 1 + (k - 1)) by lia. apply Hall. lia.
      * intros Hall k Hk. replace (px + 1 + k) with (px + (k + 1)) by lia.
        apply Hall. lia.
Qed.

Lemma window_is_clear_spec data t width x columns rows : forall py,
  window_is_clear data t width py rows x columns = true
  <-> forall j k, 0 <= j < Z.of_nat rows -> 0 <= k < Z.of_nat columns ->
                  dark data t ((py + j) * width + (x + k)) = false.
Proof.
  induction rows as [|rows IH]; intros py; simpl window_is_clear.
  - split; [intros _ j k Hj; lia|reflexivity].
  - destruct (row_is_clear data t width py x columns) eqn:Hrow.
    + rewrite IH. pose proof (proj1 (row_is_clear_spec _ _ _ _ _ _) Hrow)
        as Hrow'. split.
      * intros Hall j k Hj Hk. destruct (Z.eq_dec j 0) as [->|Hne].
        -- rewrite Z.add_0_r. now apply Hrow'.
        -- replace (py + j) with (py + 1 + (j - 1)) by lia. apply Hall; lia.
      * intros Hall j k Hj Hk. replace (py + 1 + j) with (py + (j + 1)) by lia.
        apply Hall; lia.
    + split; [discriminate|]. intros Hall.
      assert (Hrow' : row_is_clear data t width py x columns = true).
      { apply row_is_clear_spec. intros k Hk.
        specialize (Hall 0 k). rewrite Z.add_0_r in Hall. apply Hall; lia. }
      congruence.
Qed.

(** Inside a buffer that holds every pixel, a pixel is dark for the
    service exactly when it is not white for the tool. *)
Lemma dark_isWhite px py :
  0 <= px < W -> 0 <= py < H ->
  W * H <= Z.of_nat (length (data r)) ->
  dark (data r) threshold (py * W + px) = false
  <-> isWhite r (Z.to_nat py) (Z.to_nat px) = 1.
Proof.
  intros Hpx Hpy Hfull. unfold dark, isWhite, index.
  destruct (Z.ltb_spec (py * W + px) 0) as [Hneg|_]; [nia|].
  replace (Z.to_nat py * width r + Z.to_nat px)%nat
    with (Z.to_nat (py * W + px)) by (unfold W; nia).
  destruct (lookup_lt_is_Some_2 (data r) (Z.to_nat (py * W + px)))
    as [v Hv]; [nia|].
  rewrite Hv.
  destruct (Z.ltb_spec v threshold), (Z.geb_spec v threshold);
    split; intros; try reflexivity; try discriminate; lia.
Qed.

(** X13.  The two whitespace searches test windows alike.  On a raster
    whose buffer holds every pixel, and for a window inside the raster,
    the pixel-by-pixel test of the service [findWhitespace] (at the
    threshold 250) and the integral-image test [regionIsClear] of the
    tool [find_whitespace] give the same answer. *)
Theorem findWhitespace_window_test_agrees (x y w h : Z) :
  0 <= x -> 0 <= y -> 0 <= w -> 0 <= h ->
  x + w <= Z.of_nat (width r) -> y + h <= Z.of_nat (height r) ->
  Z.of_nat (width r) * Z.of_nat (height r) <= Z.of_nat (length (data r)) ->
  window_is_clear (data r) threshold (Z.of_nat (width r)) y (Z.to_nat h)
                  x (Z.to_nat w) = true
  <-> regionIsClear (build_integral r) x y (x + w) (y + h) = Returned true.
Proof.
  intros Hx Hy Hw Hh Hxw Hyh Hfull. fold W H in Hxw, Hyh, Hfull. fold W.
  rewrite window_is_clear_spec. split.
  - intros Hall. apply regionIsClear_white; try (fold W H; lia).
    intros px py Hpx Hpy. apply dark_isWhite; [lia|lia|exact Hfull|].
    replace py with (y + (py - y)) by lia.
    replace px with (x + (px - x)) by lia. apply Hall; lia.
  - intros Hclear j k Hj Hk.
    apply regionIsClear_true in Hclear as [_ Hwhite].
    apply dark_isWhite; [lia|lia|exact Hfull|]. apply Hwhite; lia.
Qed.

End WindowTests.

(** *** The sample search, continued *)

Section SampleSearchFinds.
Import PdfMcpTools.

Lemma find_whitespace_found_iff_clear_position_witness :
  (found sample_result = true
   <-> exists x y, scanned sample_input sample_raster x y
                   /\ clear_at sample_input sample_raster x y)
  /\ (found sample_result = true <-> 0 < candidatesFound sample_result)
  /\ (found sample_result = false <-> regions sample_result = []).
Proof.
  apply (find_whitespace_found_iff_clear_position
           sample_input sample_raster sample_result).
  - apply sample_search.
  - vm_compute. reflexivity.
  - vm_compute. discriminate.
  - vm_compute. discriminate.
Defined.

Lemma find_whitespace_regions_keep_margin_witness :
  exists x y : Z,
    xInches (sample_region 1 78 75) = (integer x / dpi)%float
    /\ yInches (sample_region 1 78 75)
       = (integer (Z.of_nat (height sample_raster) - y
                   - minHeightPx sample_input) / dpi)%float
    /\ 75 <= x
    /\ x + minWidthPx sample_input <= Z.of_nat (width sample_raster) - 75
    /\ 75 <= y
    /\ y + minHeightPx sample_input <= Z.of_nat (height sample_raster) - 75.
Proof.
  apply (find_whitespace_regions_keep_margin
           sample_input sample_raster sample_result (sample_region 1 78 75)).
  - apply sample_search.
  - simpl. now left.
Defined.

Lemma find_whitespace_tested_rectangle_is_clear_witness :
  exists x y : Z,
    xInches (sample_region 1 78 75) = (integer x / dpi)%float
    /\ yInches (sample_region 1 78 75)
       = (integer (Z.of_nat (height sample_raster) - y
                   - minHeightPx sample_input) / dpi)%float
    /\ 0 <= x /\ x + minWidthPx sample_input <= Z.of_nat (width sample_raster)
    /\ 0 <= y
    /\ y + minHeightPx sample_input <= Z.of_nat (height sample_raster)
    /\ forall px py,
         x <= px < x + minWidthPx sample_input ->
         y <= py < y + minHeightPx sample_input ->
         exists b,
           index (data sample_raster)
                 (py * Z.of_nat (width sample_raster) + px) = Some b
           /\ threshold <= b.
Proof.
  apply (find_whitespace_tested_rectangle_is_clear
           sample_input sample_raster sample_result (sample_region 1 78 75)).
  - apply sample_search.
  - simpl. now left.
Defined.

(** A raster of three rows of three pixels, white but for its centre. *)
Definition small_raster : Raster :=
  mkRaster [255; 255; 255; 255; 17; 255; 255; 255; 255] 3 3.

(** On the small raster both tests accept the first two pixels of the
    top row. *)
Lemma findWhitespace_window_test_agrees_witness :
  WhitespaceService.window_is_clear
    (data small_raster) threshold (Z.of_nat (width small_raster)) 0
    (Z.to_nat 1) 0 (Z.to_nat 2) = true
  <-> regionIsClear (build_integral small_raster) 0 0 (0 + 2) (0 + 1)
      = Returned true.
Proof.
  apply (findWhitespace_window_test_agrees small_raster 0 0 2 1);
    simpl; lia.
Defined.

End SampleSearchFinds.

(** ** Page tools: what is written *)

Section PagesWritten.
Import PdfMcpTools CombineTools.

(** Consecutive pages, read one by one, are a slice of the document. *)
Lemma pages_slice (doc : PDFDocument) : forall n a,
  (a + n <= length doc)%nat ->
  map (fun k => nth (a + k) doc O) (seq 0 n) = take n (drop a doc).
Proof.
  induction n as [|n IH]; intros a Hlen; [reflexivity|].
  cbn [seq]. rewrite <- seq_shift. cbn [map]. rewrite map_map.
  rewrite Nat.add_0_r.
  destruct (lookup_lt_is_Some_2 doc a) as [p Hp]; [lia|].
  rewrite (drop_S _ _ _ Hp). simpl take.
  f_equal; [now apply nth_lookup_Some|].
  rewrite <- IH by lia. apply map_ext. intros k. f_equal. lia.
Qed.

Lemma copyPages_slice (doc : PDFDocument) (start n : Z) :
  1 <= start -> 0 <= n -> start - 1 + n <= getPageCount doc ->
  copyPages doc (Array_from_length n (fun i => start - 1 + i))
  = Returned (take (Z.to_nat n) (drop (Z.to_nat (start - 1)) doc)).
Proof.
  intros Hstart Hn Hend. rewrite copyPages_in_range.
  - f_equal. unfold Array_from_length. rewrite map_map.
    unfold getPageCount in Hend.
    rewrite <- (pages_slice doc (Z.to_nat n) (Z.to_nat (start - 1))) by lia.
    apply map_ext. intros k. f_equal. lia.
  - intros i Hi. apply In_Array_from_length in Hi as [k [Hk ->]].
    unfold getPageCount in *. lia.
Qed.

(** The pages [start .. end] of a document. *)
Definition pages_of (doc : PDFDocument) (range : PageRange) : PDFDocument :=
  take (Z.to_nat (range_end range - range_start range + 1))
       (drop (Z.to_nat (range_start range - 1)) doc).

(** X15.  [split_pdf] writes what was asked for: when every range lies
    inside the document, the tool returns one file per range, in the
    order of the ranges, and the file of a range holds the pages
    [start .. end] of the source, in their order. *)
Theorem split_pdf_writes_requested_pages
        (pdfDoc : PDFDocument) (pageRanges : list PageRange) :
  (forall range, In range pageRanges ->
                 1 <= range_start range <= range_end range
                 /\ range_end range <= getPageCount pdfDoc) ->
  exists files,
    split_pdf pdfDoc pageRanges = Returned (mkSplitResult true files)
    /\ map file_content files = map (pages_of pdfDoc) pageRanges
    /\ Forall2 (fun range file =>
                  Z.of_nat (length (file_content file))
                  = range_end range - range_start range + 1)
               pageRanges files.
Proof.
  intros Hin. unfold split_pdf.
  assert (Hall : exists files,
             mapM (split_range pdfDoc) pageRanges = Returned files
             /\ map file_content files = map (pages_of pdfDoc) pageRanges
             /\ Forall2 (fun range file =>
                           Z.of_nat (length (file_content file))
                           = range_end range - range_start range + 1)
                        pageRanges files).
  { induction pageRanges as [|range rest IH].
    - exists []. repeat split; constructor.
    - destruct (Hin range) as [Hse Hend]; [now left|].
      destruct IH as [files [Hfiles [Hcontent Hlen]]];
        [intros; apply Hin; now right|].
      simpl. unfold split_range at 1, split_indices.
      rewrite copyPages_slice by lia. cbn [bind ret].
      rewrite save_pages
        by (unfold getPageCount in Hend; rewrite length_take, length_drop; lia).
      rewrite Hfiles. simpl.
      eexists. split; [reflexivity|]. simpl. split.
      + now rewrite Hcontent.
      + constructor; [|exact Hlen]. simpl.
        unfold getPageCount in Hend.
        rewrite length_take, length_drop. lia. }
  destruct Hall as [files [-> H]]. simpl. eauto.
Qed.

(** X16.  One range that reaches outside the document fails the whole
    request: [split_pdf] rejects and returns no file, also for the
    ranges of the request that lie inside the document. *)
Theorem split_pdf_rejects_whole_request
        (pdfDoc : PDFDocument) (pageRanges : list PageRange)
        (range : PageRange) :
  In range pageRanges ->
  range_start range <= range_end range ->
  range_start range < 1 \/ getPageCount pdfDoc < range_end range ->
  split_pdf pdfDoc pageRanges
  = Threw "Cannot read properties of undefined (reading 'node')".
Proof.
  intros Hin Hse Hout. unfold split_pdf.
  rewrite (mapM_Threw (split_range pdfDoc) pageRanges range
             "Cannot read properties of undefined (reading 'node')");
    [reflexivity|exact Hin| |now apply split_range_outside_document].
  intros range'. unfold split_range, copyPages.
  set (f := fun i : Z => match index pdfDoc i with
                         | Some page => Returned page
                         | None => Threw _
                         end).
  assert (Hcopy : forall l, mapM f l
                            = Threw "Cannot read properties of undefined (reading 'node')"
                            \/ exists pages, mapM f l = Returned pages).
  { induction l as [|i l IH]; simpl; [eauto|].
    unfold f at 1 3. destruct (index pdfDoc i); simpl; [|now left].
    destruct IH as [->|[pages ->]]; simpl; eauto. }
  destruct (Hcopy (split_indices range')) as [->|[pages ->]]; simpl; eauto.
Qed.

(** X17.  A range whose end lies before its start is not reported by
    [split_pdf]: whatever the document, the tool copies no page for it
    and writes a file of one blank page, the page that [save] adds to a
    document without pages.  The sibling [splitPDF] rejects such a
    range. *)
Theorem split_pdf_inverted_range_gives_blank_file
        (pdfDoc : PDFDocument) (range : PageRange) :
  range_end range < range_start range ->
  (exists file, split_range pdfDoc range = Returned file
                /\ file_content file = [blankPage])
  /\ PdfOperations.splitPDF_range pdfDoc range
     = Threw (if range_start range <? 1
              then "Invalid start page " +:+ Z_to_string (range_start range)
                     +:+ ": must be >= 1"
              else "Invalid range: end (" +:+ Z_to_string (range_end range)
                     +:+ ") < start (" +:+ Z_to_string (range_start range)
                     +:+ ")").
Proof.
  intros Hinv. split.
  - unfold split_range, split_indices, Array_from_length.
    replace (Z.to_nat (range_end range - range_start range + 1)) with O by lia.
    simpl. eauto.
  - unfold PdfOperations.splitPDF_range.
    destruct (range_start range <? 1); [reflexivity|].
    destruct (Z.ltb_spec (range_end range) (range_start range));
      [reflexivity|lia].
Qed.

Lemma all_pages (doc : PDFDocument) :
  map (fun n => nth (Z.to_nat (n - 1)) doc O)
      (map Z.of_nat (seq 1 (length doc)))
  = doc.
Proof.
  rewrite map_map, <- seq_shift, map_map.
  transitivity (take (length doc) (drop 0 doc)); [|apply firstn_all].
  rewrite <- (pages_slice doc (length doc) 0) by lia.
  apply map_ext. intros k. f_equal. lia.
Qed.

(** X18.  [move_pages] reorders: when [pageOrder] names every page of
    the document once, the file that is written holds the pages of the
    source in the requested order, none lost and none twice.  (Of a
    source without pages [save] makes the one blank page.) *)
Theorem move_pages_permutes (pdfDoc : PDFDocument) (pageOrder : list Z) :
  Permutation pageOrder (map Z.of_nat (seq 1 (length pdfDoc))) ->
  exists out,
    move_pages pdfDoc pageOrder = Returned out
    /\ move_content out
       = save (map (fun n => nth (Z.to_nat (n - 1)) pdfDoc O) pageOrder)
    /\ Permutation (move_content out) (save pdfDoc)
    /\ ((0 < length pdfDoc)%nat ->
        move_content out
        = map (fun n => nth (Z.to_nat (n - 1)) pdfDoc O) pageOrder
        /\ Permutation (move_content out) pdfDoc).
Proof.
  intros Hperm. unfold move_pages.
  rewrite copyPages_in_range.
  - simpl. eexists. split; [reflexivity|]. simpl. rewrite map_map.
    assert (Hpages : Permutation
                       (map (fun n => nth (Z.to_nat (n - 1)) pdfDoc O)
                            pageOrder) pdfDoc).
    { eapply Permutation_trans;
        [apply Permutation_map; exact Hperm|].
      now rewrite all_pages. }
    assert (Hlen : length (map (fun n => nth (Z.to_nat (n - 1)) pdfDoc O)
                               pageOrder) = length pdfDoc)
      by (apply Permutation_length, Hpages).
    split; [reflexivity|]. split.
    + destruct pdfDoc as [|p doc].
      * symmetry in Hpages. apply Permutation_nil in Hpages.
        now rewrite Hpages.
      * rewrite !save_pages by (rewrite ?Hlen; simpl; lia). exact Hpages.
    + intros Hsome. rewrite save_pages by lia. split; [reflexivity|exact Hpages].
  - intros i Hi. apply in_map_iff in Hi as [n [<- Hn]].
    apply (Permutation_in _ Hperm) in Hn.
    apply in_map_iff in Hn as [k [<- Hk]]. apply in_seq in Hk.
    unfold getPageCount. lia.
Qed.

Lemma copyPages_all (doc : PDFDocument) :
  copyPages doc (getPageIndices doc) = Returned doc.
Proof.
  rewrite copyPages_in_range.
  - f_equal. unfold getPageIndices. rewrite map_map.
    transitivity (take (length doc) (drop 0 doc)); [|apply firstn_all].
    rewrite <- (pages_slice doc (length doc) 0) by lia.
    apply map_ext. intros k. f_equal. lia.
  - intros i Hi. unfold getPageIndices in Hi.
    apply in_map_iff in Hi as [k [<- Hk]]. apply in_seq in Hk.
    unfold getPageCount. lia.
Qed.

(** X19.  Combining is concatenation, all or nothing: [combine_pdfs]
    (and [combinePDFs]) writes the pages of the documents, in the order
    of the ids, when every document loads, and rejects with the error of
    the first document that does not.  When the documents have no page
    between them - no id is given, say - the file holds one blank
    page. *)
Theorem combine_pdfs_concatenates
        (load : string -> Throws PDFDocument) (documentIds : list string) :
  combine_pdfs load documentIds
  = (let* loaded := mapM load documentIds in ret (save (concat loaded)))
  /\ combine_pdfs load [] = Returned [blankPage]
  /\ forall loaded,
       mapM load documentIds = Returned loaded ->
       (0 < length (concat loaded))%nat ->
       combine_pdfs load documentIds = Returned (concat loaded).
Proof.
  assert (Hloop : forall ids merged,
             combine_loop load ids merged
             = let* loaded := mapM load ids in
               ret (merged ++ concat loaded)).
  { induction ids as [|docId rest IH]; intros merged; simpl.
    - now rewrite app_nil_r.
    - destruct (load docId) as [pdf|thrown]; [|reflexivity]. simpl.
      rewrite copyPages_all. simpl. rewrite IH.
      destruct (mapM load rest) as [loaded|]; [|reflexivity].
      simpl. now rewrite app_assoc. }
  assert (Hall : combine_pdfs load documentIds
                 = let* loaded := mapM load documentIds in
                   ret (save (concat loaded))).
  { unfold combine_pdfs. rewrite Hloop.
    destruct (mapM load documentIds); reflexivity. }
  split; [exact Hall|]. split; [reflexivity|].
  intros loaded Hloaded Hsome. rewrite Hall, Hloaded. simpl.
  now rewrite save_pages.
Qed.

End PagesWritten.

Section PagesWrittenSamples.
Import PdfMcpTools CombineTools.

Lemma split_pdf_writes_requested_pages_witness :
  exists files,
    split_pdf five_pages [mkPageRange 2 4 ""; mkPageRange 1 1 "cover"]
    = Returned (mkSplitResult true files)
    /\ map file_content files
       = map (pages_of five_pages) [mkPageRange 2 4 ""; mkPageRange 1 1 "cover"]
    /\ Forall2 (fun range file =>
                  Z.of_nat (length (file_content file))
                  = range_end range - range_start range + 1)
               [mkPageRange 2 4 ""; mkPageRange 1 1 "cover"] files.
Proof.
  apply (split_pdf_writes_requested_pages
           five_pages [mkPageRange 2 4 ""; mkPageRange 1 1 "cover"]).
  intros range [<-|[<-|[]]]; simpl; unfold getPageCount; simpl; lia.
Defined.

Lemma split_pdf_rejects_whole_request_witness :
  split_pdf five_pages [mkPageRange 1 2 ""; mkPageRange 4 6 ""]
  = Threw "Cannot read properties of undefined (reading 'node')".
Proof.
  apply (split_pdf_rejects_whole_request
           five_pages [mkPageRange 1 2 ""; mkPageRange 4 6 ""]
           (mkPageRange 4 6 "")).
  - simpl. auto.
  - simpl. lia.
  - right. unfold getPageCount. simpl. lia.
Defined.

Lemma split_pdf_inverted_range_gives_blank_file_witness :
  (exists file, split_range five_pages (mkPageRange 9 3 "") = Returned file
                /\ file_content file = [blankPage])
  /\ PdfOperations.splitPDF_range five_pages (mkPageRange 9 3 "")
     = Threw "Invalid range: end (3) < start (9)".
Proof.
  apply (split_pdf_inverted_range_gives_blank_file
           five_pages (mkPageRange 9 3 "")).
  simpl. lia.
Defined.

Lemma move_pages_permutes_witness :
  exists out,
    move_pages five_pages [2; 1; 3; 4; 5] = Returned out
    /\ move_content out
       = save (map (fun n => nth (Z.to_nat (n - 1)) five_pages O)
                   [2; 1; 3; 4; 5])
    /\ Permutation (move_content out) (save five_pages)
    /\ ((0 < length five_pages)%nat ->
        move_content out
        = map (fun n => nth (Z.to_nat (n - 1)) five_pages O) [2; 1; 3; 4; 5]
        /\ Permutation (move_content out) five_pages).
Proof.
  apply (move_pages_permutes five_pages [2; 1; 3; 4; 5]).
  simpl. apply perm_swap.
Defined.

End PagesWrittenSamples.

(** ** Sessions, storage keys and the document map *)

Section Strings.
Import JsString.

Lemma append_cons a s t : String a s +:+ t = String a (s +:+ t).
Proof. reflexivity. Qed.

Lemma strip_prefix_append p s : strip_prefix p (p +:+ s) = Some s.
Proof.
  induction p as [|a p IH]; [reflexivity|].
  rewrite append_cons. simpl. now rewrite Ascii.eqb_refl.
Qed.

Lemma strip_prefix_Some p s rest :
  strip_prefix p s = Some rest -> s = p +:+ rest.
Proof.
  revert s. induction p as [|a p IH]; intros s H; simpl in H.
  - now inversion H.
  - destruct s as [|b s]; [discriminate|].
    destruct (Ascii.eqb_spec a b) as [->|]; [|discriminate].
    rewrite append_cons. f_equal. now apply IH.
Qed.

Lemma take_chars_append s t : take_chars (String.length s) (s +:+ t) = s.
Proof.
  induction s as [|a s IH]; [now destruct t|].
  rewrite append_cons. simpl. now rewrite IH.
Qed.

Lemma drop_chars_append s t : drop_chars (String.length s) (s +:+ t) = t.
Proof.
  induction s as [|a s IH]; [now destruct t|].
  rewrite append_cons. simpl. exact IH.
Qed.

Lemma take_drop_chars n s : take_chars n s +:+ drop_chars n s = s.
Proof.
  revert s. induction n as [|n IH]; intros [|a s]; try reflexivity.
  simpl. rewrite append_cons. now rewrite IH.
Qed.

(** Two prefixes of the same length: the longer strings agree on them
    or do not match at all. *)
Lemma strip_prefix_same_length a b x y :
  String.length a = String.length b ->
  strip_prefix (a +:+ x) (b +:+ y)
  = if String.eqb a b then strip_prefix x y else None.
Proof.
  revert b. induction a as [|c a IH]; intros [|d b] Hlen; try discriminate.
  - reflexivity.
  - rewrite !append_cons. simpl.
    destruct (Ascii.eqb_spec c d) as [->|Hcd].
    + rewrite IH by (simpl in Hlen; lia). reflexivity.
    + reflexivity.
Qed.

End Strings.

Section Sessions.
Import JsString Session.

Lemma is_session_id_length s :
  is_session_id s = true -> String.length s = 32%nat.
Proof.
  unfold is_session_id. intros H. apply andb_true_iff in H as [H _].
  now apply Nat.eqb_eq in H.
Qed.

Lemma hex_of_byte_digits b : all_hex_digits (hex_of_byte b) = true.
Proof. destruct b; reflexivity. Qed.

Lemma hex_of_byte_length b : String.length (hex_of_byte b) = 2%nat.
Proof. reflexivity. Qed.

Lemma all_hex_digits_append s t :
  all_hex_digits (s +:+ t) = all_hex_digits s && all_hex_digits t.
Proof.
  induction s as [|a s IH]; [reflexivity|].
  rewrite append_cons. simpl. now rewrite IH, andb_assoc.
Qed.

Lemma length_append s t :
  String.length (s +:+ t) = (String.length s + String.length t)%nat.
Proof.
  induction s as [|a s IH]; [reflexivity|].
  rewrite append_cons. simpl. now rewrite IH.
Qed.

Lemma toString_hex_cons b buf :
  toString_hex (b :: buf) = hex_of_byte b +:+ toString_hex buf.
Proof.
  unfold toString_hex, hex_of_byte. simpl.
  destruct (map _ buf); reflexivity.
Qed.

Lemma toString_hex_spec buf :
  String.length (toString_hex buf) = (2 * length buf)%nat
  /\ all_hex_digits (toString_hex buf) = true.
Proof.
  induction buf as [|b buf [IHlen IHhex]]; [split; reflexivity|].
  rewrite toString_hex_cons, length_append, all_hex_digits_append.
  rewrite IHlen, IHhex, hex_of_byte_digits, hex_of_byte_length.
  split; [simpl; lia|reflexivity].
Qed.

(** X20.  A generated session id is always accepted: the 32 characters
    that [generateSessionId] makes of 16 random bytes pass
    [isValidSessionId], so a request that carries the id in its
    [x-session-id] header, alone or as the first of several values, is
    given this session. *)
Theorem generated_session_id_is_valid
        (randomBytes : nat -> list Byte.byte) (others : list string) :
  (forall n, length (randomBytes n) = n) ->
  let id := generateSessionId randomBytes in
  isValidSessionId (Some id) = true
  /\ getSessionIdFromRequest (Some (single id)) = Some id
  /\ getSessionIdFromRequest (Some (repeated (id :: others))) = Some id.
Proof.
  intros Hlen id.
  assert (Hvalid : isValidSessionId (Some id) = true).
  { destruct (toString_hex_spec (randomBytes 16%nat)) as [Hl Hh].
    rewrite Hlen in Hl. subst id. unfold generateSessionId.
    unfold isValidSessionId, is_session_id. rewrite Hl, Hh.
    destruct (toString_hex (randomBytes 16%nat)); [discriminate|reflexivity]. }
  split; [exact Hvalid|].
  unfold getSessionIdFromRequest. cbn [head]. now rewrite Hvalid.
Qed.

(** X21.  Storage keys carry their session: [extractSessionIdFromKey]
    returns an id exactly for the keys that [buildSessionScopedKey]
    builds from a well-formed session id, and it returns that id. *)
Theorem session_key_round_trip (key sessionId : string) :
  extractSessionIdFromKey key = Some sessionId
  <-> is_session_id sessionId = true
      /\ exists filename, key = buildSessionScopedKey sessionId filename.
Proof.
  unfold extractSessionIdFromKey, buildSessionScopedKey. split.
  - destruct (strip_prefix "sessions/" key) as [rest|] eqn:Hkey;
      [|discriminate].
    destruct (is_session_id (take_chars 32 rest)) eqn:Hid; [|discriminate].
    unfold startsWith.
    destruct (strip_prefix "/" (drop_chars 32 rest)) as [filename|] eqn:Hrest;
      [|discriminate].
    intros H. change (Some (take_chars 32 rest) = Some sessionId) in H.
    assert (sessionId = take_chars 32 rest) as -> by congruence.
    split; [exact Hid|].
    exists filename. apply strip_prefix_Some in Hkey, Hrest.
    now rewrite Hkey, <- Hrest, take_drop_chars.
  - intros [Hid [filename ->]]. rewrite strip_prefix_append.
    pose proof (is_session_id_length _ Hid) as Hlen.
    rewrite <- Hlen, take_chars_append, drop_chars_append, Hid.
    unfold startsWith. now rewrite strip_prefix_append.
Qed.

End Sessions.

(** ** Paths of stored files *)

Section Paths.
Import JsString Session NodePath.

Lemma append_assoc a b c : (a +:+ b) +:+ c = a +:+ (b +:+ c).
Proof.
  induction a as [|x a IH]; [reflexivity|].
  rewrite !append_cons. now rewrite IH.
Qed.

(** A string without a separator. *)
Fixpoint no_slash (s : string) : bool :=
  match s with
  | EmptyString => true
  | String c rest => negb (Ascii.eqb c "/") && no_slash rest
  end.

(** A name of a directory entry: a segment that the normalisation
    keeps. *)
Definition is_name (s : string) : bool :=
  negb (String.eqb s "") && negb (String.eqb s ".")
  && negb (String.eqb s "..").

Lemma split_slash_nonempty s : split_slash s <> [].
Proof.
  induction s as [|c s IH]; simpl; [discriminate|].
  destruct (Ascii.eqb c "/"); [discriminate|].
  destruct (split_slash s); [contradiction|discriminate].
Qed.

Lemma split_slash_no_slash s : no_slash s = true -> split_slash s = [s].
Proof.
  induction s as [|c s IH]; simpl; [reflexivity|].
  intros H. apply andb_true_iff in H as [Hc Hs].
  apply negb_true_iff in Hc. rewrite Hc, (IH Hs). reflexivity.
Qed.

Lemma split_slash_append a b :
  split_slash (a +:+ String "/" b) = split_slash a ++ split_slash b.
Proof.
  induction a as [|c a IH]; [reflexivity|].
  rewrite append_cons. simpl. rewrite IH.
  destruct (Ascii.eqb c "/"); [reflexivity|].
  pose proof (split_slash_nonempty a) as Hne.
  destruct (split_slash a); [contradiction|reflexivity].
Qed.

Lemma normalizeString_names names : forall res rest,
  Forall (fun n => is_name n = true) names ->
  normalizeString res (names ++ rest) = normalizeString (rev names ++ res) rest.
Proof.
  induction names as [|n names IH]; intros res rest Hnames; [reflexivity|].
  apply Forall_cons in Hnames as [Hn Hnames]. simpl.
  unfold is_name in Hn.
  apply andb_true_iff in Hn as [Hn Hn2]. apply andb_true_iff in Hn as [Hn0 Hn1].
  apply negb_true_iff in Hn0, Hn1, Hn2. rewrite Hn0, Hn1, Hn2. simpl.
  rewrite IH by exact Hnames. now rewrite <- app_assoc.
Qed.

Lemma normalizeString_parent res rest :
  normalizeString res (".." :: rest) = normalizeString (tl res) rest.
Proof. reflexivity. Qed.

Lemma normalizeString_all_names names :
  Forall (fun n => is_name n = true) names ->
  normalizeString [] names = names.
Proof.
  intros H. rewrite <- (app_nil_r names) at 1.
  rewrite normalizeString_names by exact H. simpl.
  now rewrite app_nil_r, rev_involutive.
Qed.

Lemma hex_no_slash s : all_hex_digits s = true -> no_slash s = true.
Proof.
  induction s as [|c s IH]; simpl; [reflexivity|].
  intros H. apply andb_true_iff in H as [Hc Hs]. rewrite (IH Hs), andb_true_r.
  destruct (Ascii.eqb_spec c "/") as [->|]; [discriminate|reflexivity].
Qed.

Lemma session_id_name s :
  is_session_id s = true -> no_slash s = true /\ is_name s = true.
Proof.
  unfold is_session_id. intros H. apply andb_true_iff in H as [Hlen Hhex].
  split; [now apply hex_no_slash|].
  apply Nat.eqb_eq in Hlen.
  destruct s as [|a [|b [|c s]]]; try discriminate.
  unfold is_name. simpl.
  destruct (Ascii.eqb a "."), (Ascii.eqb b "."); reflexivity.
Qed.

Lemma dash_name a b : is_name (a +:+ String "-" b) = true.
Proof.
  unfold is_name.
  destruct a as [|c [|c' [|c'' a]]]; rewrite ?append_cons; simpl.
  - reflexivity.
  - destruct (Ascii.eqb c "."); reflexivity.
  - destruct (Ascii.eqb c "."), (Ascii.eqb c' "."); reflexivity.
  - destruct (Ascii.eqb c "."), (Ascii.eqb c' "."); reflexivity.
Qed.

Lemma no_slash_append a b :
  no_slash (a +:+ b) = no_slash a && no_slash b.
Proof.
  induction a as [|c a IH]; [reflexivity|].
  rewrite append_cons. simpl. now rewrite IH, andb_assoc.
Qed.

Lemma join_cons dir c s :
  join dir (String c s)
  = let names := normalizeString [] (dir ++ split_slash (String c s)) in
    mkPath names
           (String.eqb (List.last (split_slash (String c s)) "") ""
            && negb (Nat.eqb (length names) 0)).
Proof. reflexivity. Qed.

Variable UPLOADS_DIR : list string.
Hypothesis UPLOADS_DIR_normal : Forall (fun n => is_name n = true) UPLOADS_DIR.

Lemma join_session_key sessionId name :
  is_session_id sessionId = true ->
  no_slash name = true -> is_name name = true ->
  join UPLOADS_DIR (buildSessionScopedKey sessionId name)
  = mkPath (UPLOADS_DIR ++ ["sessions"; sessionId; name]) false.
Proof.
  intros Hid Hslash Hname.
  destruct (session_id_name _ Hid) as [Hs Hn].
  unfold buildSessionScopedKey.
  change ("sessions/" +:+ sessionId +:+ "/" +:+ name)
    with (String "s" ("essions" +:+ String "/" (sessionId +:+ String "/" name))).
  rewrite join_cons. cbv zeta.
  change (String "s" ("essions" +:+ String "/" (sessionId +:+ String "/" name)))
    with ("sessions" +:+ String "/" (sessionId +:+ String "/" name)).
  rewrite !split_slash_append.
  rewrite (split_slash_no_slash sessionId Hs), (split_slash_no_slash name Hslash).
  change (split_slash "sessions") with ["sessions"].
  cbn [app].
  assert (Hall : Forall (fun n => is_name n = true)
                        (UPLOADS_DIR ++ ["sessions"; sessionId; name])).
  { apply Forall_app. split; [exact UPLOADS_DIR_normal|].
    repeat constructor; assumption. }
  rewrite normalizeString_all_names by exact Hall.
  f_equal. cbn [List.last].
  unfold is_name in Hname. apply andb_true_iff in Hname as [Hname _].
  apply andb_true_iff in Hname as [Hname _]. apply negb_true_iff in Hname.
  now rewrite Hname.
Qed.

Lemma join_escape sessionId other first name :
  is_session_id sessionId = true -> is_session_id other = true ->
  no_slash first = true -> is_name first = true ->
  no_slash name = true -> is_name name = true ->
  join UPLOADS_DIR
       (buildSessionScopedKey sessionId
          (first +:+ "/../../" +:+ other +:+ "/" +:+ name))
  = mkPath (UPLOADS_DIR ++ ["sessions"; other; name]) false.
Proof.
  intros Hid Hother Hfs Hfn Hslash Hname.
  destruct (session_id_name _ Hid) as [Hs Hn].
  destruct (session_id_name _ Hother) as [Hos Hon].
  unfold buildSessionScopedKey.
  change ("sessions/" +:+ sessionId +:+ "/"
            +:+ first +:+ "/../../" +:+ other +:+ "/" +:+ name)
    with (String "s" ("essions"
            +:+ String "/" (sessionId
            +:+ String "/" (first
            +:+ String "/" (".."
            +:+ String "/" (".."
            +:+ String "/" (other +:+ String "/" name))))))).
  rewrite join_cons. cbv zeta.
  change (String "s" ("essions"
            +:+ String "/" (sessionId
            +:+ String "/" (first
            +:+ String "/" (".."
            +:+ String "/" (".."
            +:+ String "/" (other +:+ String "/" name)))))))
    with ("sessions"
            +:+ String "/" (sessionId
            +:+ String "/" (first
            +:+ String "/" (".."
            +:+ String "/" (".."
            +:+ String "/" (other +:+ String "/" name)))))).
  rewrite !split_slash_append.
  rewrite (split_slash_no_slash sessionId Hs), (split_slash_no_slash name Hslash),
    (split_slash_no_slash other Hos), (split_slash_no_slash first Hfs).
  change (split_slash "sessions") with ["sessions"].
  change (split_slash "..") with [".."].
  cbn [app].
  replace (UPLOADS_DIR ++ ["sessions"; sessionId; first; ".."; ".."; other; name])
    with ((UPLOADS_DIR ++ ["sessions"; sessionId; first])
            ++ [".."; ".."; other; name])
    by now rewrite <- app_assoc.
  rewrite normalizeString_names
    by (apply Forall_app; split; [exact UPLOADS_DIR_normal|];
        repeat constructor; assumption).
  rewrite rev_app_distr, app_nil_r. cbn [rev app].
  rewrite !normalizeString_parent. cbn [tl].
  change [other; name] with ([other; name] ++ []).
  rewrite normalizeString_names by (repeat constructor; assumption).
  cbn [normalizeString rev app].
  rewrite rev_involutive, <- !app_assoc. cbn [app].
  f_equal. cbn [List.last].
  unfold is_name in Hname. apply andb_true_iff in Hname as [Hname _].
  apply andb_true_iff in Hname as [Hname _]. apply negb_true_iff in Hname.
  rewrite Hname. reflexivity.
Qed.

End Paths.

Section DocumentMap.
Import JsString Session Router.

(** Every key is [docKey] of the session and the id of its document, a
    string, and the session ids have the length of a well-formed id. *)
Definition keyed (e : string * Document) : Prop :=
  exists id, doc_id (snd e) = JStr id
             /\ fst e = docKey (doc_sessionId (snd e)) id
             /\ String.length (doc_sessionId (snd e)) = 32%nat.

Definition well_keyed (documents : Documents) : Prop :=
  List.Forall keyed documents.

Definition keys (documents : Documents) : list string := map fst documents.

Lemma of_session_docKey s s' id d :
  String.length s = String.length s' ->
  of_session s (docKey s' id, d) = String.eqb s s'.
Proof.
  intros Hlen. unfold of_session, docKey, startsWith. simpl fst.
  rewrite strip_prefix_same_length by exact Hlen.
  destruct (String.eqb s s'); [|reflexivity].
  now rewrite (strip_prefix_append ":" id).
Qed.

(** A key belongs to at most one session. *)
Lemma of_session_unique s s' e :
  String.length s = String.length s' ->
  of_session s e = true -> of_session s' e = true -> s = s'.
Proof.
  intros Hlen. unfold of_session, startsWith.
  destruct (strip_prefix (s +:+ ":") (fst e)) as [rest|] eqn:Hs; [|discriminate].
  apply strip_prefix_Some in Hs. rewrite Hs. intros _.
  replace ((s +:+ ":") +:+ rest) with (s +:+ (":" +:+ rest)).
  - rewrite strip_prefix_same_length by (symmetry; exact Hlen).
    destruct (String.eqb_spec s' s); [congruence|discriminate].
  - clear. induction s as [|a s IH]; [reflexivity|].
    change (String a (s +:+ (":" +:+ rest)) = String a ((s +:+ ":") +:+ rest)).
    now f_equal.
Qed.

Lemma filter_none {A} (p : A -> bool) l :
  (forall a, In a l -> p a = false) -> List.filter p l = [].
Proof.
  induction l as [|a l IH]; intros H; simpl; [reflexivity|].
  rewrite (H a) by now left. apply IH. intros; apply H; now right.
Qed.

Lemma filter_all {A} (p : A -> bool) l :
  (forall a, In a l -> p a = true) -> List.filter p l = l.
Proof.
  induction l as [|a l IH]; intros H; simpl; [reflexivity|].
  rewrite (H a) by now left. f_equal. apply IH. intros; apply H; now right.
Qed.

Lemma map_get_In key d documents :
  map_get key documents = Some d -> In (key, d) documents.
Proof.
  induction documents as [|[k d'] rest IH]; simpl; [discriminate|].
  destruct (String.eqb_spec k key) as [->|].
  - intros [= ->]. now left.
  - intros H. right. now apply IH.
Qed.

Lemma In_map_get key d documents :
  List.NoDup (keys documents) -> In (key, d) documents ->
  map_get key documents = Some d.
Proof.
  induction documents as [|[k d'] rest IH]; simpl; [contradiction|].
  intros Hnodup Hin. apply List.NoDup_cons_iff in Hnodup as [Hk Hrest].
  destruct (String.eqb_spec k key) as [->|Hne].
  - destruct Hin as [[= ->]|Hin]; [reflexivity|].
    exfalso. apply Hk. unfold keys. apply in_map_iff. now exists (key, d).
  - destruct Hin as [[= -> ->]|Hin]; [contradiction|]. now apply IH.
Qed.

Lemma map_get_None key documents :
  map_get key documents = None -> ~ In key (keys documents).
Proof.
  induction documents as [|[k d] rest IH]; simpl; [tauto|].
  destruct (String.eqb_spec k key) as [->|Hne]; [discriminate|].
  intros H [Hk|Hin]; [contradiction|]. now apply IH.
Qed.

(** With every key once, [delete] removes the entries of the key. *)
Lemma map_delete_filter key documents :
  List.NoDup (keys documents) ->
  map_delete key documents
  = List.filter (fun e => negb (String.eqb (fst e) key)) documents.
Proof.
  induction documents as [|[k d] rest IH]; simpl; [reflexivity|].
  intros Hnodup. apply List.NoDup_cons_iff in Hnodup as [Hk Hrest].
  destruct (String.eqb_spec k key) as [->|Hne]; simpl.
  - symmetry. apply filter_all. intros [k' d'] Hin. simpl.
    destruct (String.eqb_spec k' key) as [->|]; [|reflexivity].
    exfalso. apply Hk. unfold keys. apply in_map_iff. now exists (key, d').
  - now rewrite IH.
Qed.

Lemma NoDup_keys_filter p documents :
  List.NoDup (keys documents) -> List.NoDup (keys (List.filter p documents)).
Proof.
  induction documents as [|e rest IH]; simpl; [trivial|].
  intros Hnodup. apply List.NoDup_cons_iff in Hnodup as [Hk Hrest].
  destruct (p e); simpl; [|now apply IH].
  apply List.NoDup_cons; [|now apply IH].
  intros Hin. apply Hk. unfold keys in *. apply in_map_iff in Hin as [e' [He' Hin]].
  apply filter_In in Hin as [Hin _]. apply in_map_iff. eauto.
Qed.

Lemma filter_filter {A} (p q : A -> bool) l :
  List.filter p (List.filter q l) = List.filter (fun a => q a && p a) l.
Proof.
  induction l as [|a l IH]; simpl; [reflexivity|].
  destruct (q a); simpl; [destruct (p a)|]; now rewrite IH.
Qed.

Lemma filter_length_le {A} (p : A -> bool) l :
  (length (List.filter p l) <= length l)%nat.
Proof. induction l as [|a l IH]; simpl; [lia|]. destruct (p a); simpl; lia. Qed.

(** The loop [for (const key of ks) { documents.delete(key); count++ }]. *)
Lemma delete_all_keys ks : forall n documents,
  List.NoDup (keys documents) ->
  fold_left (fun acc key => (fst acc + 1, map_delete key (snd acc)))
            ks (n, documents)
  = (n + Z.of_nat (length ks),
     List.filter (fun e => negb (existsb (String.eqb (fst e)) ks)) documents).
Proof.
  induction ks as [|k ks IH]; intros n documents Hnodup; simpl.
  - rewrite Z.add_0_r. f_equal. symmetry. now apply filter_all.
  - rewrite map_delete_filter by exact Hnodup.
    rewrite IH by now apply NoDup_keys_filter.
    f_equal; [lia|]. rewrite filter_filter. apply List.filter_ext.
    intros e. now rewrite negb_orb.
Qed.

Lemma delete_selected (p : string * Document -> bool) documents :
  List.NoDup (keys documents) ->
  List.filter (fun e => negb (existsb (String.eqb (fst e))
                                      (map fst (List.filter p documents))))
              documents
  = List.filter (fun e => negb (p e)) documents.
Proof.
  intros Hnodup. apply List.filter_ext_in. intros [k d] Hin. simpl. f_equal.
  destruct (p (k, d)) eqn:Hp.
  - apply existsb_exists. exists k. split; [|apply String.eqb_refl].
    apply in_map_iff. exists (k, d). split; [reflexivity|].
    apply filter_In. auto.
  - apply not_true_is_false. intros Hex.
    apply existsb_exists in Hex as [k' [Hk' Heq]].
    apply String.eqb_eq in Heq. subst k'.
    apply in_map_iff in Hk' as [[k' d'] [Hfst Hin']]. simpl in Hfst. subst k'.
    apply filter_In in Hin' as [Hin' Hp'].
    assert (d' = d).
    { apply (In_map_get _ _ _ Hnodup) in Hin, Hin'. congruence. }
    subst d'. congruence.
Qed.

Lemma filter_partition_length {A} (p : A -> bool) l :
  (length (List.filter p l) + length (List.filter (fun a => negb (p a)) l)
   = length l)%nat.
Proof.
  induction l as [|a l IH]; simpl; [reflexivity|].
  destruct (p a); simpl; lia.
Qed.

Lemma getSessionDocuments_filter s p documents :
  getSessionDocuments s (List.filter p documents)
  = map snd (List.filter (fun e => p e && of_session s e) documents).
Proof. unfold getSessionDocuments. now rewrite filter_filter. Qed.

(** X22.  A session sees exactly its own documents: when the keys of
    the map are session-scoped, [getSessionDocuments] returns, in
    insertion order, the documents that carry the session id, and none of
    another session. *)
Theorem getSessionDocuments_own_documents
        (sessionId : string) (documents : Documents) :
  well_keyed documents -> is_session_id sessionId = true ->
  getSessionDocuments sessionId documents
  = List.filter (fun d => String.eqb (doc_sessionId d) sessionId)
                (map snd documents).
Proof.
  intros Hkeyed Hid. apply is_session_id_length in Hid.
  unfold getSessionDocuments.
  induction documents as [|[k d] rest IH]; [reflexivity|].
  apply List.Forall_cons_iff in Hkeyed as [[id [_ [Hk Hlen]]] Hrest].
  simpl in Hk, Hlen.
  simpl. rewrite Hk, of_session_docKey by congruence.
  rewrite String.eqb_sym.
  destruct (String.eqb (doc_sessionId d) sessionId); simpl; now rewrite IH.
Qed.

(** X23.  Clearing the revised documents of a session, by the agent's
    callback, leaves the originals of the session in their order,
    leaves every other session as it was, and reports the number of
    documents that it removed. *)
Theorem clearRevisedCallback_keeps_originals
        (sessionId : string) (documents : Documents) :
  List.NoDup (keys documents) ->
  let (deletedCount, documents') := clearRevisedCallback sessionId documents in
  getSessionDocuments sessionId documents'
  = List.filter (fun d => negb (is_revised d))
                (getSessionDocuments sessionId documents)
  /\ (forall other,
        String.length other = String.length sessionId -> other <> sessionId ->
        getSessionDocuments other documents'
        = getSessionDocuments other documents)
  /\ deletedCount
     = Z.of_nat (length (List.filter is_revised
                                     (getSessionDocuments sessionId documents)))
  /\ Z.of_nat (length documents') = Z.of_nat (length documents) - deletedCount.
Proof.
  intros Hnodup. unfold clearRevisedCallback, revisedKeys.
  rewrite delete_all_keys by exact Hnodup.
  rewrite delete_selected by exact Hnodup.
  split; [|split; [|split]].
  - rewrite getSessionDocuments_filter. unfold getSessionDocuments.
    induction documents as [|e rest IH]; [reflexivity|]. simpl.
    apply List.NoDup_cons_iff in Hnodup as [_ Hrest].
    destruct (of_session sessionId e); simpl;
      [destruct (is_revised (snd e)); simpl|]; now rewrite IH.
  - intros other Hlen Hne. rewrite getSessionDocuments_filter.
    unfold getSessionDocuments. f_equal. apply List.filter_ext_in.
    intros e _. destruct (of_session other e) eqn:Hother;
      [|now rewrite andb_false_r].
    destruct (of_session sessionId e) eqn:Hthis; [|reflexivity].
    exfalso. apply Hne. now apply (of_session_unique other sessionId e).
  - rewrite Z.add_0_l, length_map. f_equal. unfold getSessionDocuments.
    clear. induction documents as [|e rest IH]; [reflexivity|]. simpl.
    destruct (of_session sessionId e); simpl;
      [destruct (is_revised (snd e)); simpl|]; now rewrite IH.
  - rewrite Z.add_0_l, length_map.
    pose proof (filter_partition_length
                  (fun e => of_session sessionId e && is_revised (snd e))
                  documents). lia.
Qed.

(** Whether [id] names an original of the session in the map. *)
Definition names_original (sessionId : string) (documents : Documents)
           (id : string) : bool :=
  match map_get (docKey sessionId id) documents with
  | Some doc => negb (is_revised doc)
  | None => false
  end.

(** The entries that [deleteDocumentsCallback] removes for [ids]. *)
Definition selected (sessionId : string) (ids : list string)
           (e : string * Document) : bool :=
  is_revised (snd e)
  && existsb (fun id => String.eqb (fst e) (docKey sessionId id)) ids.

Lemma deleteDocumentsCallback_fold sessionId ids :
  forall deleted skipped documents,
    List.NoDup (keys documents) ->
    fold_left
      (fun acc docId =>
         let '(deletedCount, skippedOriginals, documents) := acc in
         let key := docKey sessionId docId in
         match map_get key documents with
         | Some doc =>
             if is_revised doc
             then (deletedCount + 1, skippedOriginals, map_delete key documents)
             else (deletedCount, skippedOriginals + 1, documents)
         | None => acc
         end)
      ids (deleted, skipped, documents)
    = (deleted
       + Z.of_nat (length (List.filter (selected sessionId ids) documents)),
       skipped
       + Z.of_nat (length (List.filter (names_original sessionId documents)
                                       ids)),
       List.filter (fun e => negb (selected sessionId ids e)) documents).
Proof.
  induction ids as [|id ids IH]; intros deleted skipped documents Hnodup.
  - rewrite (filter_none (selected sessionId []))
      by (intros e _; unfold selected; simpl; apply andb_false_r).
    rewrite (filter_all (fun e => negb (selected sessionId [] e)))
      by (intros e _; unfold selected; simpl; now rewrite andb_false_r).
    simpl. now rewrite !Z.add_0_r.
  - cbn [fold_left].
    set (key := docKey sessionId id).
    assert (Hsame : forall documents1,
              (forall e, In e documents1 -> String.eqb (fst e) key = true ->
                         is_revised (snd e) = false) ->
              forall e, In e documents1 ->
                        selected sessionId (id :: ids) e
                        = selected sessionId ids e).
    { intros documents1 Horig e He. unfold selected. simpl. fold key.
      destruct (is_revised (snd e)) eqn:Hrev; [|reflexivity]. simpl.
      destruct (String.eqb (fst e) key) eqn:Hk; [|reflexivity].
      rewrite (Horig e He Hk) in Hrev. discriminate. }
    destruct (map_get key documents) as [doc|] eqn:Hget.
    + destruct (is_revised doc) eqn:Hrev.
      * (* the document is deleted *)
        rewrite IH by (rewrite map_delete_filter by exact Hnodup;
                       now apply NoDup_keys_filter).
        rewrite map_delete_filter by exact Hnodup.
        assert (Hsplit : forall e, In e documents ->
                  selected sessionId (id :: ids) e
                  = String.eqb (fst e) key
                    || selected sessionId ids e).
        { intros [k d] Hin. unfold selected. simpl. fold key.
          destruct (String.eqb_spec k key) as [->|Hne]; simpl.
          - apply (In_map_get _ _ _ Hnodup) in Hin.
            assert (d = doc) by congruence. subst d. now rewrite Hrev.
          - reflexivity. }
        assert (Hrest_orig :
                  forall i, names_original sessionId
                              (List.filter
                                 (fun e => negb (String.eqb (fst e) key))
                                 documents) i
                            = names_original sessionId documents i).
        { intros i. unfold names_original.
          destruct (String.eqb_spec (docKey sessionId i) key) as [Heq|Hne].
          - rewrite Heq, Hget, Hrev. simpl.
            destruct (map_get key (List.filter _ documents)) as [d|] eqn:Hd;
              [|reflexivity].
            apply map_get_In, filter_In in Hd as [_ Hd]. simpl in Hd.
            now rewrite String.eqb_refl in Hd.
          - assert (Hg : forall l, map_get (docKey sessionId i)
                                     (List.filter
                                        (fun e => negb (String.eqb (fst e) key))
                                        l)
                                   = map_get (docKey sessionId i) l).
            { induction l as [|[k d] l IHl]; [reflexivity|]. simpl.
              destruct (String.eqb_spec k key) as [->|Hk]; simpl.
              - destruct (String.eqb_spec key (docKey sessionId i));
                  [congruence|exact IHl].
              - now rewrite IHl. }
            now rewrite Hg. }
        f_equal; [f_equal|].
        -- (* deleted *)
           rewrite filter_filter.
           rewrite (List.filter_ext_in _ _ _ Hsplit).
           assert (Hone : length (List.filter
                                    (fun e => String.eqb (fst e) key) documents)
                          = 1%nat).
           { clear - Hnodup Hget. induction documents as [|[k d] rest IHd];
               [discriminate|]. simpl in *.
             apply List.NoDup_cons_iff in Hnodup as [Hk Hrest].
             destruct (String.eqb_spec k key) as [->|Hne]; simpl.
             - f_equal. rewrite filter_none; [reflexivity|].
               intros [k' d'] Hin. simpl.
               apply not_true_is_false. intros Heq.
               apply String.eqb_eq in Heq. subst k'. apply Hk.
               unfold keys. apply in_map_iff. now exists (key, d').
             - now apply IHd. }
           pose proof (filter_partition_length
                         (fun e => String.eqb (fst e) key)
                         (List.filter
                            (fun e => String.eqb (fst e) key
                                      || selected sessionId ids e) documents))
             as Hpart.
           rewrite !filter_filter in Hpart.
           rewrite (List.filter_ext
                      (fun a => (String.eqb (fst a) key
                                 || selected sessionId ids a)
                                && String.eqb (fst a) key)
                      (fun e => String.eqb (fst e) key)) in Hpart
             by (intros e; now destruct (String.eqb (fst e) key),
                                        (selected sessionId ids e)).
           rewrite (List.filter_ext
                      (fun a => (String.eqb (fst a) key
                                 || selected sessionId ids a)
                                && negb (String.eqb (fst a) key))
                      (fun a => negb (String.eqb (fst a) key)
                                && selected sessionId ids a)) in Hpart
             by (intros e; now destruct (String.eqb (fst e) key),
                                        (selected sessionId ids e)).
           rewrite Hone in Hpart. lia.
        -- (* skipped *)
           simpl. unfold names_original at 2. fold key. rewrite Hget, Hrev.
           simpl. now rewrite (List.filter_ext _ _ Hrest_orig).
        -- rewrite filter_filter. apply List.filter_ext_in. intros e He.
           rewrite (Hsplit e He). now rewrite negb_orb.
      * (* an original is skipped *)
        rewrite IH by exact Hnodup.
        assert (Horig : forall e, In e documents ->
                                  String.eqb (fst e) key = true ->
                                  is_revised (snd e) = false).
        { intros [k d] Hin Hk. simpl in Hk. apply String.eqb_eq in Hk. subst k.
          apply (In_map_get _ _ _ Hnodup) in Hin.
          assert (d = doc) by congruence. now subst d. }
        f_equal; [f_equal|].
        -- now rewrite (List.filter_ext_in _ _ _ (Hsame documents Horig)).
        -- simpl. unfold names_original at 2. fold key. rewrite Hget, Hrev.
           simpl. lia.
        -- apply List.filter_ext_in. intros e He.
           now rewrite (Hsame documents Horig e He).
    + (* no document under the id *)
      rewrite IH by exact Hnodup.
      assert (Horig : forall e, In e documents ->
                                String.eqb (fst e) key = true ->
                                is_revised (snd e) = false).
      { intros [k d] Hin Hk. simpl in Hk. apply String.eqb_eq in Hk. subst k.
        exfalso. apply (map_get_None _ _ Hget). unfold keys.
        apply in_map_iff. now exists (key, d). }
      f_equal; [f_equal|].
      * now rewrite (List.filter_ext_in _ _ _ (Hsame documents Horig)).
      * simpl. unfold names_original at 2. fold key. now rewrite Hget.
      * apply List.filter_ext_in. intros e He.
        now rewrite (Hsame documents Horig e He).
Qed.

(** X24.  Deleting documents by id, by the agent's callback, removes
    exactly the revised documents of the session that the ids name:
    every original stays, every document of another session stays, the
    remaining documents keep their order, [deletedCount] is the number of
    entries removed and [skippedOriginals] counts the ids that name an
    original. *)
Theorem deleteDocumentsCallback_deletes_only_revised
        (sessionId : string) (ids : list string) (documents : Documents) :
  List.NoDup (keys documents) ->
  let '(deletedCount, skippedOriginals, documents') :=
    deleteDocumentsCallback sessionId ids documents in
  documents' = List.filter (fun e => negb (selected sessionId ids e)) documents
  /\ (forall e, In e documents -> is_revised (snd e) = false ->
                In e documents')
  /\ (forall other,
        String.length other = String.length sessionId -> other <> sessionId ->
        getSessionDocuments other documents'
        = getSessionDocuments other documents)
  /\ Z.of_nat (length documents') = Z.of_nat (length documents) - deletedCount
  /\ skippedOriginals
     = Z.of_nat (length (List.filter (names_original sessionId documents) ids)).
Proof.
  intros Hnodup. unfold deleteDocumentsCallback.
  rewrite deleteDocumentsCallback_fold by exact Hnodup.
  split; [reflexivity|]. split; [|split; [|split]].
  - intros e Hin Horig. apply filter_In. split; [exact Hin|].
    unfold selected. now rewrite Horig.
  - intros other Hlen Hne. rewrite getSessionDocuments_filter.
    unfold getSessionDocuments. f_equal. apply List.filter_ext_in.
    intros e _. destruct (of_session other e) eqn:Hother;
      [|now rewrite andb_false_r].
    rewrite andb_true_r. apply negb_true_iff. unfold selected.
    apply andb_false_iff. right. apply not_true_is_false. intros Hex.
    apply existsb_exists in Hex as [id [_ Hkey]]. apply String.eqb_eq in Hkey.
    apply Hne. destruct e as [k d]. simpl in Hkey. subst k.
    rewrite of_session_docKey in Hother by exact Hlen.
    now apply String.eqb_eq.
  - pose proof (filter_partition_length (selected sessionId ids) documents).
    lia.
  - lia.
Qed.

Lemma getSessionDocuments_set other sessionId docId doc documents :
  String.length other = String.length sessionId -> other <> sessionId ->
  getSessionDocuments other (map_set (docKey sessionId docId) doc documents)
  = getSessionDocuments other documents.
Proof.
  intros Hlen Hne. unfold getSessionDocuments. f_equal.
  assert (Hkey : forall d, of_session other (docKey sessionId docId, d) = false).
  { intros d. rewrite of_session_docKey by exact Hlen.
    now apply String.eqb_neq. }
  induction documents as [|[k d] rest IH]; simpl.
  - now rewrite Hkey.
  - destruct (String.eqb_spec k (docKey sessionId docId)) as [->|]; simpl.
    + now rewrite !Hkey.
    + now rewrite IH.
Qed.

Lemma getSessionDocuments_delete other sessionId docId documents :
  String.length other = String.length sessionId -> other <> sessionId ->
  getSessionDocuments other (map_delete (docKey sessionId docId) documents)
  = getSessionDocuments other documents.
Proof.
  intros Hlen Hne. unfold getSessionDocuments. f_equal.
  induction documents as [|[k d] rest IH]; simpl; [reflexivity|].
  destruct (String.eqb_spec k (docKey sessionId docId)) as [->|]; simpl.
  - rewrite of_session_docKey by exact Hlen.
    now destruct (String.eqb_spec other sessionId).
  - now rewrite IH.
Qed.

Lemma of_session_key sessionId e :
  of_session sessionId e = true ->
  exists docId, fst e = docKey sessionId docId.
Proof.
  unfold of_session, startsWith.
  destruct (strip_prefix _ (fst e)) as [docId|] eqn:H; [|discriminate].
  intros _. exists docId. apply strip_prefix_Some in H. rewrite H.
  unfold docKey. clear. induction sessionId as [|a s IH]; [reflexivity|].
  change (String a ((s +:+ ":") +:+ docId) = String a (s +:+ ":" +:+ docId)).
  now f_equal.
Qed.

(** X25.  The requests of one session leave the other sessions alone:
    after an upload, after [deleteDocument] and after [clearAll] under
    one session id, every other session sees the documents it saw
    before, in the same order. *)
Theorem requests_leave_other_sessions_alone
        (sessionId other : string) (documents : Documents) :
  String.length other = String.length sessionId -> other <> sessionId ->
  (forall docId filename url type document documents',
      upload (Some sessionId) docId filename url type documents
      = Returned (document, documents') ->
      getSessionDocuments other documents'
      = getSessionDocuments other documents)
  /\ (forall documentId documents',
        deleteDocument (Some sessionId) documentId documents
        = Returned documents' ->
        getSessionDocuments other documents'
        = getSessionDocuments other documents)
  /\ getSessionDocuments other (snd (clearAll (Some sessionId) documents))
     = getSessionDocuments other documents.
Proof.
  intros Hlen Hne. split; [|split].
  - intros docId filename url type document documents'. unfold upload.
    destruct (String.eqb sessionId ""); [discriminate|].
    intros [= <- <-]. now apply getSessionDocuments_set.
  - intros documentId documents'. unfold deleteDocument.
    destruct (String.eqb sessionId ""); [discriminate|].
    destruct (map_get _ documents); [|discriminate].
    intros [= <-]. now apply getSessionDocuments_delete.
  - unfold clearAll.
    destruct (String.eqb sessionId ""); [reflexivity|]. cbn [snd].
    assert (Hkeys : forall k,
              In k (map fst (List.filter (of_session sessionId) documents)) ->
              exists docId, k = docKey sessionId docId).
    { intros k Hk. apply in_map_iff in Hk as [e [<- He]].
      apply filter_In in He as [_ He]. now apply of_session_key. }
    revert Hkeys. generalize (map fst (List.filter (of_session sessionId)
                                                    documents)).
    intros ks. generalize 0. revert documents.
    induction ks as [|k ks IH]; intros documents n Hkeys; [reflexivity|].
    simpl. destruct (Hkeys k) as [docId ->]; [now left|].
    rewrite IH by (intros; apply Hkeys; now right).
    now apply getSessionDocuments_delete.
Qed.

End DocumentMap.

Section SessionDocuments.
Import JsString Session Storage Router DocumentTools.

Variable String_of : JsValue -> string.

Lemma append_inj_r s t u : s +:+ t = s +:+ u -> t = u.
Proof.
  induction s as [|a s IH]; [trivial|].
  rewrite !append_cons. intros [= H]. now apply IH.
Qed.

Lemma docKey_eqb s id id' :
  String.eqb (docKey s id) (docKey s id') = String.eqb id id'.
Proof.
  destruct (String.eqb_spec id id') as [->|Hne]; [apply String.eqb_refl|].
  apply String.eqb_neq. intros H. apply Hne.
  unfold docKey in H. now apply append_inj_r, append_inj_r in H.
Qed.

Lemma has_id_to_js id d i :
  doc_id d = JStr i -> has_id id (to_js d) = Returned (String.eqb i id).
Proof. intros H. unfold has_id, to_js. simpl. now rewrite H. Qed.

Lemma has_type_to_js t d :
  has_type t (to_js d) = Returned (String.eqb (type_name (doc_type d)) t).
Proof. reflexivity. Qed.

(** Among the documents that a session sees, the lookup by id is the
    lookup of the session's key in the map. *)
Lemma find_document_map_get sessionId id documents :
  well_keyed documents -> String.length sessionId = 32%nat ->
  find_document id (map to_js (getSessionDocuments sessionId documents))
  = Returned (option_map to_js (map_get (docKey sessionId id) documents)).
Proof.
  intros Hkeyed Hlen. unfold getSessionDocuments.
  induction documents as [|[k d] rest IH]; [reflexivity|].
  apply List.Forall_cons_iff in Hkeyed as [[i [Hi [Hk Hd]]] Hrest].
  simpl in Hi, Hk, Hd.
  specialize (IH Hrest). subst k.
  cbn [List.filter map_get].
  rewrite of_session_docKey by congruence.
  destruct (String.eqb_spec sessionId (doc_sessionId d)) as [Hs|Hs].
  - rewrite <- Hs, docKey_eqb. cbn [map snd find_document].
    rewrite (has_id_to_js id d i Hi). cbn [bind].
    destruct (String.eqb i id); [reflexivity|exact IH].
  - rewrite IH.
    destruct (String.eqb_spec (docKey (doc_sessionId d) i)
                              (docKey sessionId id)) as [Heq|]; [|reflexivity].
    exfalso. apply Hs.
    assert (H1 : of_session sessionId (docKey (doc_sessionId d) i, d)
                 = true).
    { rewrite Heq, of_session_docKey by reflexivity. apply String.eqb_refl. }
    rewrite of_session_docKey in H1 by congruence.
    now apply String.eqb_eq in H1.
Qed.

Lemma filterM_pure {A} (p : A -> Throws bool) (f : A -> bool) l :
  (forall a, p a = Returned (f a)) -> filterM p l = Returned (List.filter f l).
Proof.
  intros Hp. induction l as [|a l IH]; [reflexivity|].
  simpl. rewrite Hp, IH. simpl. now destruct (f a).
Qed.

(** The type of the document that [id] names in the map. *)
Definition stored_type (sessionId : string) (documents : Documents)
           (id : string) : option DocumentType :=
  option_map doc_type (map_get (docKey sessionId id) documents).

Definition names_revised (sessionId : string) (documents : Documents)
           (id : string) : bool :=
  match stored_type sessionId documents id with
  | Some revised => true
  | _ => false
  end.

Lemma found_with_type_map_get sessionId t id documents :
  well_keyed documents -> String.length sessionId = 32%nat ->
  found_with_type t (map to_js (getSessionDocuments sessionId documents)) id
  = Returned (match stored_type sessionId documents id with
              | Some type => String.eqb (type_name type) t
              | None => false
              end).
Proof.
  intros Hkeyed Hlen. unfold found_with_type, stored_type.
  rewrite find_document_map_get by assumption.
  cbn [bind]. now destruct (map_get _ documents).
Qed.

Lemma extractSessionIdFromKey_build sessionId filename :
  is_session_id sessionId = true ->
  extractSessionIdFromKey (buildSessionScopedKey sessionId filename)
  = Some sessionId.
Proof.
  intros Hid. unfold extractSessionIdFromKey, buildSessionScopedKey.
  rewrite strip_prefix_append.
  pose proof (is_session_id_length _ Hid) as Hlen.
  rewrite <- Hlen, take_chars_append, drop_chars_append, Hid.
  unfold startsWith. now rewrite strip_prefix_append.
Qed.

Lemma map_get_set key doc documents :
  map_get key (map_set key doc documents) = Some doc.
Proof.
  induction documents as [|[k d] rest IH]; simpl.
  - now rewrite String.eqb_refl.
  - destruct (String.eqb_spec k key) as [->|Hne]; simpl.
    + now rewrite String.eqb_refl.
    + destruct (String.eqb_spec k key); [contradiction|exact IH].
Qed.

Lemma well_keyed_set doc id documents :
  well_keyed documents ->
  doc_id doc = JStr id -> String.length (doc_sessionId doc) = 32%nat ->
  well_keyed (map_set (docKey (doc_sessionId doc) id) doc documents).
Proof.
  intros Hkeyed Hid Hlen.
  assert (Hdoc : keyed (docKey (doc_sessionId doc) id, doc))
    by (exists id; auto).
  induction documents as [|[k d] rest IH]; simpl.
  - now repeat constructor.
  - apply List.Forall_cons_iff in Hkeyed as [Hd Hrest].
    destruct (String.eqb_spec k (docKey (doc_sessionId doc) id)) as [->|Hne].
    + now constructor.
    + constructor; [exact Hd|now apply IH].
Qed.

(** X26.  [delete_documents], called at the start of a turn with the
    router's callback, removes the revised documents of the session that
    the ids name and nothing else: an original that is named stays.  The
    tool hands only the revised ids to the callback, so the reply never
    reports a skipped original ([skippedOriginals] is 0 and the message
    does not mention any), whereas the same call without a callback
    counts the named originals in [originalsSkipped]. *)
Theorem delete_documents_keeps_originals
        (sessionId : string) (ids : list string) (documents : Documents) :
  well_keyed documents -> List.NoDup (keys documents) ->
  is_session_id sessionId = true ->
  let context := map to_js (getSessionDocuments sessionId documents) in
  exists (n : Z) (documents' : Documents) (dry_run : string),
    delete_documents Documents ids context
                     (Some (deleteDocumentsCallback sessionId)) documents
    = (Returned
         (Deleted ("Deleted " +:+ Z_to_string n +:+ " revised document(s)")
                  n 0),
       documents')
    /\ documents'
       = List.filter (fun e => negb (selected sessionId ids e)) documents
    /\ (forall e, In e documents -> is_revised (snd e) = false ->
                  In e documents')
    /\ Z.of_nat (length documents') = Z.of_nat (length documents) - n
    /\ delete_documents Documents ids context None documents
       = (Returned
            (WouldDelete
               dry_run
               (Z.of_nat (length (List.filter
                                    (names_revised sessionId documents) ids)))
               (Z.of_nat (length (List.filter
                                    (names_original sessionId documents) ids)))),
          documents).
Proof.
  intros Hkeyed Hnodup Hid context.
  pose proof (is_session_id_length _ Hid) as Hlen.
  set (revisedIds := List.filter (names_revised sessionId documents) ids).
  assert (Hrevised : filterM (found_with_type "revised" context) ids
                     = Returned revisedIds).
  { rewrite (filterM_pure _ (names_revised sessionId documents)); [reflexivity|].
    intros id. unfold context. rewrite found_with_type_map_get by assumption.
    unfold names_revised. now destruct (stored_type _ _ _) as [[]|]. }
  assert (Horiginal : filterM (found_with_type "original" context) ids
                      = Returned (List.filter
                                    (names_original sessionId documents) ids)).
  { rewrite (filterM_pure _ (names_original sessionId documents));
      [reflexivity|].
    intros id. unfold context. rewrite found_with_type_map_get by assumption.
    unfold names_original, stored_type, is_revised.
    destruct (map_get _ documents) as [d|]; [|reflexivity]. simpl.
    now destruct (doc_type d). }
  assert (Hnone : List.filter (names_original sessionId documents) revisedIds
                  = []).
  { apply filter_none. intros id Hin. apply filter_In in Hin as [_ Hin].
    unfold names_revised, names_original, stored_type, is_revised in *.
    destruct (map_get _ documents) as [d|]; [|reflexivity]. simpl in *.
    now destruct (doc_type d). }
  assert (Hselected : forall e, In e documents ->
                        selected sessionId revisedIds e
                        = selected sessionId ids e).
  { intros [k d] Hin. unfold selected. simpl.
    destruct (is_revised d) eqn:Hrev; [|reflexivity]. simpl.
    apply eq_true_iff_eq. rewrite !existsb_exists. split.
    - intros [id [Hid' Hk]]. exists id. split; [|exact Hk].
      now apply filter_In in Hid' as [Hid' _].
    - intros [id [Hid' Hk]]. exists id. split; [|exact Hk].
      apply filter_In. split; [exact Hid'|].
      apply String.eqb_eq in Hk. subst k.
      apply (In_map_get _ _ _ Hnodup) in Hin.
      unfold names_revised, stored_type. rewrite Hin. simpl.
      unfold is_revised in Hrev. now destruct (doc_type d). }
  unfold delete_documents. rewrite Hrevised, Horiginal.
  unfold deleteDocumentsCallback.
  rewrite deleteDocumentsCallback_fold by exact Hnodup.
  rewrite Hnone. cbn [length Z.of_nat Z.add Z.ltb Z.compare].
  rewrite (List.filter_ext_in _ _ _ Hselected).
  rewrite (List.filter_ext_in (fun e => negb (selected sessionId revisedIds e))
             (fun e => negb (selected sessionId ids e)))
    by (intros e He; now rewrite Hselected).
  eexists _, _, _. split; [reflexivity|]. split; [reflexivity|].
  split; [|split; [|reflexivity]].
  - intros e Hin Horig. apply filter_In. split; [exact Hin|].
    unfold selected. now rewrite Horig.
  - pose proof (filter_partition_length (selected sessionId ids) documents).
    lia.
Qed.

(** X27.  An upload can be read back.  The document that [upload]
    registers for a file stored by [localStoragePut] under the
    session-scoped key is, for the tools of the same session, the
    document of that id, and [downloadPdfFromS3] reads it from the very
    path that [localStoragePut] wrote to, whatever the file name.  For
    a document id and a file name without [/] this path is
    [UPLOADS_DIR/sessions/<session>/<id>-<file name>], inside the
    directory of the session. *)
Theorem uploaded_document_is_read_back
        (UPLOADS_DIR : list string)
        (sessionId docId filename : string) (type : DocumentType)
        (documents : Documents) :
  well_keyed documents -> is_session_id sessionId = true ->
  let stored :=
    localStoragePut
      UPLOADS_DIR
      (buildSessionScopedKey sessionId (docId +:+ "-" +:+ filename)) in
  exists document documents' source,
    upload (Some sessionId) docId filename (stored_url stored) type documents
    = Returned (document, documents')
    /\ well_keyed documents'
    /\ downloadPdfFromS3 String_of docId
         (map to_js (getSessionDocuments sessionId documents'))
       = Returned source
    /\ localPath UPLOADS_DIR source = Some (stored_path stored)
    /\ (Forall (fun n => is_name n = true) UPLOADS_DIR ->
        no_slash docId = true -> no_slash filename = true ->
        stored_path stored
        = NodePath.mkPath
            (UPLOADS_DIR ++ ["sessions"; sessionId; docId +:+ "-" +:+ filename])
            false).
Proof.
  intros Hkeyed Hid stored.
  pose proof (is_session_id_length _ Hid) as Hlen.
  assert (Hkey : stored_key stored
                 = buildSessionScopedKey sessionId (docId +:+ "-" +:+ filename))
    by reflexivity.
  assert (Hurl : stored_url stored = "/uploads/" +:+ stored_key stored)
    by reflexivity.
  assert (Hpath : stored_path stored
                  = NodePath.join UPLOADS_DIR (stored_key stored))
    by reflexivity.
  set (document := mkDocument (JStr docId) (JStr filename)
                              (JStr (stored_url stored)) type sessionId
                              None JUndefined).
  exists document, (map_set (docKey sessionId docId) document documents),
         (LocalFile (stored_key stored)).
  split; [|split; [|split; [|split]]].
  - unfold upload. destruct sessionId; [discriminate|reflexivity].
  - now apply (well_keyed_set document docId).
  - unfold downloadPdfFromS3.
    rewrite find_document_map_get
      by (try apply (well_keyed_set document docId); easy).
    rewrite map_get_set. cbn [option_map bind].
    change (prop (to_js document) "url") with (Returned (JStr (stored_url stored))).
    cbn [bind]. rewrite Hurl.
    rewrite strip_prefix_append. reflexivity.
  - unfold localPath. now rewrite Hpath.
  - intros Hdir HdocId Hfilename. rewrite Hpath, Hkey.
    apply join_session_key; [exact Hdir|exact Hid| |apply dash_name].
    rewrite no_slash_append. rewrite HdocId. simpl. exact Hfilename.
Qed.

(** X32.  A file name can leave the directory of its session.  The file
    name is not checked: with the name [/../../<other>/<name>] the path
    that [localStoragePut] writes to lies in the directory of the
    session [other], whatever the session of the upload is. *)
Theorem upload_file_name_can_leave_session_directory
        (UPLOADS_DIR : list string) (sessionId other docId name : string) :
  Forall (fun n => is_name n = true) UPLOADS_DIR ->
  is_session_id sessionId = true -> is_session_id other = true ->
  no_slash docId = true -> no_slash name = true -> is_name name = true ->
  stored_path
    (localStoragePut
       UPLOADS_DIR
       (buildSessionScopedKey
          sessionId
          (docId +:+ "-" +:+ "/../../" +:+ other +:+ "/" +:+ name)))
  = NodePath.mkPath (UPLOADS_DIR ++ ["sessions"; other; name]) false.
Proof.
  intros Hdir Hid Hother HdocId Hslash Hname.
  change (stored_path (localStoragePut UPLOADS_DIR ?key))
    with (NodePath.join UPLOADS_DIR key).
  rewrite <- (append_assoc docId "-").
  apply (join_escape UPLOADS_DIR Hdir sessionId other (docId +:+ "-") name);
    try assumption.
  - rewrite no_slash_append, HdocId. reflexivity.
  - apply (dash_name docId "").
Qed.

End SessionDocuments.

(** ** After the turn: the artifacts in the document map *)

Section ChatStore.
Import JsString Session Router DocumentTools PdfAgent.

Variable String_of : JsValue -> string.
Variable randomId : nat -> string.

(** [`${s}`] of a string is the string. *)
Hypothesis String_of_string : forall s, String_of (JStr s) = s.

(** The key [k] holds a revised document of the session. *)
Definition holds_revised (sessionId k : string) (documents : Documents)
  : Prop :=
  exists d, map_get k documents = Some d
            /\ doc_type d = revised /\ doc_sessionId d = sessionId.

Lemma map_get_set_other k k' doc documents :
  k <> k' -> map_get k (map_set k' doc documents) = map_get k documents.
Proof.
  intros Hne. induction documents as [|[k0 d0] rest IH]; simpl.
  - destruct (String.eqb_spec k' k); [congruence|reflexivity].
  - destruct (String.eqb_spec k0 k') as [->|Hk0]; simpl.
    + destruct (String.eqb_spec k' k); [congruence|reflexivity].
    + destruct (String.eqb_spec k0 k); [reflexivity|exact IH].
Qed.

(** What every step of the loop preserves. *)
Record kept (sessionId other : string) (documents documents' : Documents)
  : Prop := mkKept {
  kept_revised : forall k, holds_revised sessionId k documents ->
                           holds_revised sessionId k documents';
  kept_present : forall k d, map_get k documents = Some d ->
                             exists d', map_get k documents' = Some d';
  kept_other : getSessionDocuments other documents'
               = getSessionDocuments other documents
}.

Lemma kept_refl sessionId other documents :
  kept sessionId other documents documents.
Proof. split; eauto. Qed.

Lemma kept_trans sessionId other d1 d2 d3 :
  kept sessionId other d1 d2 -> kept sessionId other d2 d3 ->
  kept sessionId other d1 d3.
Proof.
  intros [R1 P1 O1] [R2 P2 O2]. split.
  - auto.
  - intros k d Hd. destruct (P1 k d Hd) as [d' Hd']. eauto.
  - congruence.
Qed.

Lemma kept_set sessionId other key id name url tool pages documents :
  String.length other = String.length sessionId -> other <> sessionId ->
  kept sessionId other documents
       (map_set (docKey sessionId key)
                (mkDocument id name url revised sessionId tool pages)
                documents)
  /\ holds_revised sessionId (docKey sessionId key)
       (map_set (docKey sessionId key)
                (mkDocument id name url revised sessionId tool pages)
                documents).
Proof.
  intros Hlen Hne. split; [split|].
  - intros k [d [Hd [Ht Hs]]].
    destruct (String.eqb_spec k (docKey sessionId key)) as [->|Hk].
    + eexists. rewrite map_get_set. repeat split.
    + exists d. now rewrite map_get_set_other.
  - intros k d Hd.
    destruct (String.eqb_spec k (docKey sessionId key)) as [->|Hk].
    + eexists. now rewrite map_get_set.
    + exists d. now rewrite map_get_set_other.
  - now apply getSessionDocuments_set.
  - eexists. rewrite map_get_set. repeat split.
Qed.

Lemma storeFiles_kept sessionId other tool files :
  String.length other = String.length sessionId -> other <> sessionId ->
  forall drawn documents drawn' documents',
    storeFiles String_of randomId sessionId tool files drawn documents
    = Returned (drawn', documents') ->
    kept sessionId other documents documents'.
Proof.
  intros Hlen Hne. induction files as [|file rest IH];
    intros drawn documents drawn' documents' Hstore; simpl in Hstore.
  - inversion Hstore; subst. apply kept_refl.
  - destruct (prop file "id") as [id|]; simpl in Hstore; [|discriminate].
    destruct (prop file "filename") as [filename|]; simpl in Hstore;
      [|discriminate].
    destruct (prop file "url") as [url|]; simpl in Hstore; [|discriminate].
    destruct (prop file "pages") as [pages|]; simpl in Hstore; [|discriminate].
    eapply kept_trans; [|eapply IH; exact Hstore].
    now apply kept_set.
Qed.

Lemma storeOperation_kept sessionId other op :
  String.length other = String.length sessionId -> other <> sessionId ->
  forall drawn documents drawn' documents',
    storeOperation String_of randomId sessionId op drawn documents
    = Returned (drawn', documents') ->
    kept sessionId other documents documents'
    /\ forall url id,
         prop (op_result op) "url" = Returned url -> truthy url = true ->
         prop (op_result op) "id" = Returned id -> truthy id = true ->
         holds_revised sessionId (docKey sessionId (String_of id)) documents'.
Proof.
  intros Hlen Hne drawn documents drawn' documents'. unfold storeOperation.
  destruct (prop (op_result op) "url") as [url|]; simpl; [|discriminate].
  destruct (prop (op_result op) "id") as [id|]; simpl; [|discriminate].
  destruct (prop (op_result op) "filename") as [filename|]; simpl;
    [|discriminate].
  destruct (prop (op_result op) "files") as [files|]; simpl; [|discriminate].
  set (stored := if truthy url && truthy id then _ else documents).
  assert (Hfirst : kept sessionId other documents stored
                   /\ (truthy url = true -> truthy id = true ->
                       holds_revised sessionId
                                     (docKey sessionId (String_of id)) stored)).
  { unfold stored. destruct (truthy url), (truthy id); simpl;
      try (split; [apply kept_refl|discriminate]).
    destruct (kept_set sessionId other (String_of id) id
                (or_else filename (JStr (op_tool op +:+ "_result.pdf")))
                url (Some (op_tool op)) JUndefined documents Hlen Hne).
    auto. }
  destruct Hfirst as [Hkept Hheld].
  intros Hstore.
  assert (Hrest : kept sessionId other stored documents').
  { destruct files; try (inversion Hstore; subst; apply kept_refl).
    eapply storeFiles_kept; eassumption. }
  split; [eapply kept_trans; eassumption|].
  intros url' id' [= <-] Hurl [= <-] Hid.
  apply (kept_revised _ _ _ _ Hrest). auto.
Qed.

(** X28.  After the turn, [chat] registers the artifacts.  For every
    operation of the turn whose result carries a [url] and an [id], the
    document map then holds a revised document of the session under the
    key of this id; nothing that was in the map is removed, and the
    documents of every other session are what they were. *)
Theorem chat_registers_artifacts
        (sessionId other : string) (operations : list Operation)
        (drawn drawn' : nat) (documents documents' : Documents) :
  String.length other = String.length sessionId -> other <> sessionId ->
  storeOperations String_of randomId sessionId operations drawn documents
  = Returned (drawn', documents') ->
  (forall op url id,
      In op operations ->
      prop (op_result op) "url" = Returned url -> truthy url = true ->
      prop (op_result op) "id" = Returned id -> truthy id = true ->
      holds_revised sessionId (docKey sessionId (String_of id)) documents')
  /\ (forall k d, map_get k documents = Some d ->
                  exists d', map_get k documents' = Some d')
  /\ getSessionDocuments other documents'
     = getSessionDocuments other documents.
Proof.
  intros Hlen Hne. revert drawn documents.
  enough (H : forall drawn documents,
             storeOperations String_of randomId sessionId operations drawn
                             documents
             = Returned (drawn', documents') ->
             kept sessionId other documents documents'
             /\ forall op url id,
                  In op operations ->
                  prop (op_result op) "url" = Returned url ->
                  truthy url = true ->
                  prop (op_result op) "id" = Returned id ->
                  truthy id = true ->
                  holds_revised sessionId (docKey sessionId (String_of id))
                                documents').
  { intros drawn documents Hstore.
    destruct (H drawn documents Hstore) as [[_ Hpresent Hother] Hheld].
    auto. }
  induction operations as [|op rest IH]; intros drawn documents Hstore;
    simpl in Hstore.
  - inversion Hstore; subst. split; [apply kept_refl|]. intros ? ? ? [].
  - destruct (storeOperation _ _ _ op drawn documents)
      as [[drawn1 documents1]|] eqn:Hop; simpl in Hstore; [|discriminate].
    destruct (storeOperation_kept sessionId other op Hlen Hne _ _ _ _ Hop)
      as [Hkept1 Hheld1].
    destruct (IH _ _ Hstore) as [Hkept Hheld].
    split; [eapply kept_trans; eassumption|].
    intros op' url id [<-|Hin] Hurl Hu Hid Hi.
    + apply (kept_revised _ _ _ _ Hkept). eauto.
    + eauto.
Qed.

(** A truthy id is a string. *)
Definition string_id (v : JsValue) : Prop :=
  truthy v = true -> exists s, v = JStr s.

(** The ids of the result of an operation and of its files are
    strings, as the ids that the tools generate are. *)
Definition string_ids (op : Operation) : Prop :=
  (forall id, prop (op_result op) "id" = Returned id -> string_id id)
  /\ forall files file id,
       prop (op_result op) "files" = Returned (JArr files) ->
       In file files -> prop file "id" = Returned id -> string_id id.

Lemma well_keyed_stored sessionId id name url tool pages documents :
  well_keyed documents -> String.length sessionId = 32%nat ->
  (exists s, id = JStr s) ->
  well_keyed (map_set (docKey sessionId (String_of id))
                      (mkDocument id name url revised sessionId tool pages)
                      documents).
Proof.
  intros Hkeyed Hlen [s ->]. rewrite String_of_string.
  now apply (well_keyed_set
               (mkDocument (JStr s) name url revised sessionId tool pages) s).
Qed.

Lemma storeFiles_well_keyed sessionId tool files :
  String.length sessionId = 32%nat ->
  (forall file id, In file files -> prop file "id" = Returned id ->
                   string_id id) ->
  forall drawn documents drawn' documents',
    well_keyed documents ->
    storeFiles String_of randomId sessionId tool files drawn documents
    = Returned (drawn', documents') ->
    well_keyed documents'.
Proof.
  intros Hlen. induction files as [|file rest IH];
    intros Hids drawn documents drawn' documents' Hkeyed Hstore;
    simpl in Hstore.
  - now inversion Hstore; subst.
  - destruct (prop file "id") as [id|] eqn:Hid; simpl in Hstore;
      [|discriminate].
    destruct (prop file "filename") as [filename|]; simpl in Hstore;
      [|discriminate].
    destruct (prop file "url") as [url|]; simpl in Hstore; [|discriminate].
    destruct (prop file "pages") as [pages|]; simpl in Hstore; [|discriminate].
    eapply IH; [| |exact Hstore].
    + intros f i Hf. apply Hids. now right.
    + apply well_keyed_stored; [exact Hkeyed|exact Hlen|].
      destruct (truthy id) eqn:Htruthy; [|eauto].
      apply (Hids file id); [now left|exact Hid|exact Htruthy].
Qed.

Lemma storeOperation_well_keyed sessionId op :
  String.length sessionId = 32%nat -> string_ids op ->
  forall drawn documents drawn' documents',
    well_keyed documents ->
    storeOperation String_of randomId sessionId op drawn documents
    = Returned (drawn', documents') ->
    well_keyed documents'.
Proof.
  intros Hlen [Hid Hfiles] drawn documents drawn' documents' Hkeyed.
  unfold storeOperation.
  destruct (prop (op_result op) "url") as [url|]; simpl; [|discriminate].
  destruct (prop (op_result op) "id") as [id|] eqn:Eid; simpl; [|discriminate].
  destruct (prop (op_result op) "filename") as [filename|]; simpl;
    [|discriminate].
  destruct (prop (op_result op) "files") as [files|] eqn:Efiles; simpl;
    [|discriminate].
  set (stored := if truthy url && truthy id then _ else documents).
  assert (Hstored : well_keyed stored).
  { unfold stored. destruct (truthy url); simpl; [|exact Hkeyed].
    destruct (truthy id) eqn:Htruthy; [|exact Hkeyed].
    apply well_keyed_stored; [exact Hkeyed|exact Hlen|].
    now apply (Hid id). }
  intros Hstore.
  destruct files; try (now inversion Hstore; subst).
  eapply storeFiles_well_keyed; [exact Hlen| |exact Hstored|exact Hstore].
  intros file fid Hin. now apply (Hfiles items).
Qed.

Lemma storeOperations_well_keyed sessionId operations :
  String.length sessionId = 32%nat -> List.Forall string_ids operations ->
  forall drawn documents drawn' documents',
    well_keyed documents ->
    storeOperations String_of randomId sessionId operations drawn documents
    = Returned (drawn', documents') ->
    well_keyed documents'.
Proof.
  intros Hlen. induction 1 as [|op rest Hop _ IH];
    intros drawn documents drawn' documents' Hkeyed Hstore; simpl in Hstore.
  - now inversion Hstore; subst.
  - destruct (storeOperation _ _ _ op drawn documents)
      as [[drawn1 documents1]|] eqn:Hone; simpl in Hstore; [|discriminate].
    eapply IH; [|exact Hstore].
    eapply storeOperation_well_keyed; eassumption.
Qed.

Lemma storeOperations_app sessionId ops1 ops2 : forall drawn documents,
  storeOperations String_of randomId sessionId (ops1 ++ ops2) drawn documents
  = let* stored :=
      storeOperations String_of randomId sessionId ops1 drawn documents in
    storeOperations String_of randomId sessionId ops2 (fst stored) (snd stored).
Proof.
  induction ops1 as [|op rest IH]; intros drawn documents; simpl;
    [reflexivity|].
  destruct (storeOperation _ _ _ op drawn documents) as [[n d]|]; simpl;
    [apply IH|reflexivity].
Qed.

(** X29.  The artifact of a turn can be used in the next turn.  When
    the last operation of a turn returned an artifact - a non-empty
    string [id] and [url], and no [files] - and the ids of the turn's
    results are strings, then the documents that the next request of the
    session hands to the agent hold the artifact: the lookup by id that
    every tool performs first finds it under its URL. *)
Theorem artifact_is_found_in_next_turn
        (sessionId : string) (earlier : list Operation) (op : Operation)
        (fields : list (string * JsValue)) (id url : string)
        (drawn drawn' : nat) (documents documents' : Documents) :
  well_keyed documents -> is_session_id sessionId = true ->
  List.Forall string_ids (earlier ++ [op]) ->
  op_result op = JObj fields ->
  assoc "id" fields = JStr id -> id <> "" ->
  assoc "url" fields = JStr url -> url <> "" ->
  assoc "files" fields = JUndefined ->
  storeOperations String_of randomId sessionId (earlier ++ [op])
                  drawn documents
  = Returned (drawn', documents') ->
  downloadPdfFromS3 String_of id
                    (map to_js (getSessionDocuments sessionId documents'))
  = Returned (match strip_prefix "/uploads/" url with
              | Some relativePath => LocalFile relativePath
              | None => RemoteUrl url
              end).
Proof.
  intros Hkeyed Hvalid Hids Hresult Hid Hid_ne Hurl Hurl_ne Hfiles Hstore.
  pose proof (is_session_id_length _ Hvalid) as Hlen.
  pose proof (storeOperations_well_keyed sessionId _ Hlen Hids _ _ _ _
                                         Hkeyed Hstore) as Hkeyed'.
  rewrite storeOperations_app in Hstore.
  destruct (storeOperations _ _ _ earlier drawn documents)
    as [[drawn1 documents1]|]; simpl in Hstore; [|discriminate].
  unfold storeOperation in Hstore. rewrite Hresult in Hstore.
  cbn [prop bind] in Hstore. rewrite Hid, Hurl, Hfiles in Hstore.
  cbn [truthy] in Hstore.
  destruct (String.eqb_spec url ""); [contradiction|].
  destruct (String.eqb_spec id ""); [contradiction|].
  cbn in Hstore. rewrite String_of_string in Hstore.
  inversion Hstore; subst. clear Hstore.
  unfold downloadPdfFromS3.
  rewrite find_document_map_get by assumption.
  rewrite map_get_set. cbn -[strip_prefix].
  destruct (String.eqb_spec url ""); [contradiction|].
  cbn -[strip_prefix]. now destruct (strip_prefix "/uploads/" url).
Qed.

(** X30.  [initSession] always answers with a well-formed session id:
    the client's id when it is well-formed, a generated one otherwise. *)
Theorem initSession_returns_valid_id
        (randomBytes : nat -> list Byte.byte) (sessionId : option string) :
  (forall n, length (randomBytes n) = n) ->
  is_session_id (initSession randomBytes sessionId) = true
  /\ (forall s, sessionId = Some s -> is_session_id s = true ->
                initSession randomBytes sessionId = s)
  /\ (isValidSessionId sessionId = false ->
      initSession randomBytes sessionId = generateSessionId randomBytes).
Proof.
  intros Hlen.
  assert (Hgenerated : is_session_id (generateSessionId randomBytes) = true).
  { destruct (toString_hex_spec (randomBytes 16%nat)) as [Hl Hh].
    rewrite Hlen in Hl. unfold generateSessionId, is_session_id.
    now rewrite Hl, Hh. }
  unfold initSession, isValidSessionId.
  destruct sessionId as [s|];
    [|split; [exact Hgenerated|split; [discriminate|reflexivity]]].
  destruct (String.eqb_spec s "") as [->|Hs]; simpl.
  - split; [exact Hgenerated|]. split; [|reflexivity].
    intros s' [= <-]. discriminate.
  - destruct (is_session_id s) eqn:Hvalid.
    + split; [exact Hvalid|]. split; [|discriminate].
      now intros s' [= <-].
    + split; [exact Hgenerated|]. split; [|reflexivity].
      intros s' [= <-]. congruence.
Qed.

End ChatStore.

(** *** Two sessions *)

Section TwoSessions.
Import JsString Session Storage Router DocumentTools.

Definition session_a : string := "0123456789abcdef0123456789abcdef".
Definition session_b : string := "fedcba9876543210fedcba9876543210".

Definition contract : Document :=
  mkDocument
    (JStr "a1") (JStr "contract.pdf")
    (JStr "/uploads/sessions/0123456789abcdef0123456789abcdef/a1-contract.pdf")
    original session_a None JUndefined.

Definition contract_pages : Document :=
  mkDocument
    (JStr "a2") (JStr "split_1-2")
    (JStr "/uploads/sessions/0123456789abcdef0123456789abcdef/split_1-2-07c1.pdf")
    revised session_a (Some "split_pdf") (JStr "1-2").

Definition invoice : Document :=
  mkDocument
    (JStr "b1") (JStr "invoice.pdf")
    (JStr "/uploads/sessions/fedcba9876543210fedcba9876543210/b1-invoice.pdf")
    original session_b None JUndefined.

Definition invoice_stamped : Document :=
  mkDocument
    (JStr "b2") (JStr "b1_stamped")
    (JStr "/uploads/sessions/fedcba9876543210fedcba9876543210/b1_stamped-5d20.pdf")
    revised session_b (Some "add_stamp") JUndefined.

Definition two_sessions : Documents :=
  [(docKey session_a "a1", contract);
   (docKey session_b "b1", invoice);
   (docKey session_a "a2", contract_pages);
   (docKey session_b "b2", invoice_stamped)].

Lemma two_sessions_well_keyed : well_keyed two_sessions.
Proof.
  repeat (constructor; [eexists; repeat split; reflexivity|]). constructor.
Qed.

Lemma two_sessions_keys : List.NoDup (keys two_sessions).
Proof.
  repeat (apply List.NoDup_cons;
          [simpl; intros H; repeat (destruct H as [H|H]; [discriminate H|]);
           exact H|]).
  apply List.NoDup_nil.
Qed.

Lemma generated_session_id_is_valid_witness :
  let id := generateSessionId (fun n => repeat Byte.xa7 n) in
  isValidSessionId (Some id) = true
  /\ getSessionIdFromRequest (Some (single id)) = Some id
  /\ getSessionIdFromRequest (Some (repeated [id; "other"])) = Some id.
Proof.
  apply (generated_session_id_is_valid (fun n => repeat Byte.xa7 n) ["other"]).
  intros n. apply repeat_length.
Defined.

Lemma getSessionDocuments_own_documents_witness :
  getSessionDocuments session_a two_sessions
  = List.filter (fun d => String.eqb (doc_sessionId d) session_a)
                (map snd two_sessions).
Proof.
  apply (getSessionDocuments_own_documents session_a two_sessions).
  - apply two_sessions_well_keyed.
  - reflexivity.
Defined.

Lemma deleteDocumentsCallback_deletes_only_revised_witness :
  let '(deletedCount, skippedOriginals, documents') :=
    deleteDocumentsCallback session_a ["a1"; "a2"; "b2"] two_sessions in
  documents'
  = List.filter (fun e => negb (selected session_a ["a1"; "a2"; "b2"] e))
                two_sessions
  /\ (forall e, In e two_sessions -> is_revised (snd e) = false ->
                In e documents')
  /\ (forall other,
        String.length other = String.length session_a -> other <> session_a ->
        getSessionDocuments other documents'
        = getSessionDocuments other two_sessions)
  /\ Z.of_nat (length documents')
     = Z.of_nat (length two_sessions) - deletedCount
  /\ skippedOriginals
     = Z.of_nat (length (List.filter (names_original session_a two_sessions)
                                     ["a1"; "a2"; "b2"])).
Proof.
  apply (deleteDocumentsCallback_deletes_only_revised
           session_a ["a1"; "a2"; "b2"] two_sessions).
  apply two_sessions_keys.
Defined.

Lemma clearRevisedCallback_keeps_originals_witness :
  let (deletedCount, documents') :=
    clearRevisedCallback session_a two_sessions in
  getSessionDocuments session_a documents'
  = List.filter (fun d => negb (is_revised d))
                (getSessionDocuments session_a two_sessions)
  /\ (forall other,
        String.length other = String.length session_a -> other <> session_a ->
        getSessionDocuments other documents'
        = getSessionDocuments other two_sessions)
  /\ deletedCount
     = Z.of_nat (length (List.filter is_revised
                                     (getSessionDocuments session_a
                                                          two_sessions)))
  /\ Z.of_nat (length documents')
     = Z.of_nat (length two_sessions) - deletedCount.
Proof.
  apply (clearRevisedCallback_keeps_originals session_a two_sessions).
  apply two_sessions_keys.
Defined.

Lemma requests_leave_other_sessions_alone_witness :
  (forall docId filename url type document documents',
      upload (Some session_a) docId filename url type two_sessions
      = Returned (document, documents') ->
      getSessionDocuments session_b documents'
      = getSessionDocuments session_b two_sessions)
  /\ (forall documentId documents',
        deleteDocument (Some session_a) documentId two_sessions
        = Returned documents' ->
        getSessionDocuments session_b documents'
        = getSessionDocuments session_b two_sessions)
  /\ getSessionDocuments session_b
       (snd (clearAll (Some session_a) two_sessions))
     = getSessionDocuments session_b two_sessions.
Proof.
  apply (requests_leave_other_sessions_alone session_a session_b two_sessions).
  - reflexivity.
  - discriminate.
Defined.

Lemma delete_documents_keeps_originals_witness :
  let context := map to_js (getSessionDocuments session_a two_sessions) in
  exists (n : Z) (documents' : Documents) (dry_run : string),
    delete_documents Documents ["a1"; "a2"] context
                     (Some (deleteDocumentsCallback session_a)) two_sessions
    = (Returned
         (Deleted ("Deleted " +:+ Z_to_string n +:+ " revised document(s)")
                  n 0),
       documents')
    /\ documents'
       = List.filter (fun e => negb (selected session_a ["a1"; "a2"] e))
                     two_sessions
    /\ (forall e, In e two_sessions -> is_revised (snd e) = false ->
                  In e documents')
    /\ Z.of_nat (length documents') = Z.of_nat (length two_sessions) - n
    /\ delete_documents Documents ["a1"; "a2"] context None two_sessions
       = (Returned
            (WouldDelete
               dry_run
               (Z.of_nat (length (List.filter
                                    (names_revised session_a two_sessions)
                                    ["a1"; "a2"])))
               (Z.of_nat (length (List.filter
                                    (names_original session_a two_sessions)
                                    ["a1"; "a2"])))),
          two_sessions).
Proof.
  apply (delete_documents_keeps_originals
           session_a ["a1"; "a2"] two_sessions).
  - apply two_sessions_well_keyed.
  - apply two_sessions_keys.
  - reflexivity.
Defined.

Lemma uploaded_document_is_read_back_witness :
  let stored :=
    localStoragePut
      ["tmp"; "uploads"]
      (buildSessionScopedKey session_a ("a3" +:+ "-" +:+ "lease.pdf")) in
  exists document documents' source,
    upload (Some session_a) "a3" "lease.pdf" (stored_url stored) original
           two_sessions
    = Returned (document, documents')
    /\ well_keyed documents'
    /\ downloadPdfFromS3 (fun _ => "[object Object]") "a3"
         (map to_js (getSessionDocuments session_a documents'))
       = Returned source
    /\ localPath ["tmp"; "uploads"] source = Some (stored_path stored)
    /\ (Forall (fun n => is_name n = true) ["tmp"; "uploads"] ->
        no_slash "a3" = true -> no_slash "lease.pdf" = true ->
        stored_path stored
        = NodePath.mkPath
            (["tmp"; "uploads"]
               ++ ["sessions"; session_a; "a3" +:+ "-" +:+ "lease.pdf"])
            false).
Proof.
  apply (uploaded_document_is_read_back
           (fun _ => "[object Object]") ["tmp"; "uploads"] session_a "a3"
           "lease.pdf" original two_sessions).
  - apply two_sessions_well_keyed.
  - reflexivity.
Defined.

Lemma upload_file_name_can_leave_session_directory_witness :
  stored_path
    (localStoragePut
       ["tmp"; "uploads"]
       (buildSessionScopedKey
          session_a
          ("a3" +:+ "-" +:+ "/../../" +:+ session_b +:+ "/" +:+ "lease.pdf")))
  = NodePath.mkPath (["tmp"; "uploads"] ++ ["sessions"; session_b; "lease.pdf"])
                    false.
Proof.
  apply (upload_file_name_can_leave_session_directory
           ["tmp"; "uploads"] session_a session_b "a3" "lease.pdf");
    try reflexivity.
  repeat constructor.
Defined.

(** The operations of a turn: a failed split and a reordering. *)
Definition failed_split : PdfAgent.Operation :=
  PdfAgent.mkOperation
    "split_pdf" (JObj [("documentId", JStr "a9")])
    (JObj [("success", JBool false);
           ("error", JStr "Document a9 not found. Available documents: a1, a2")]).

Definition reordered_fields : list (string * JsValue) :=
  [("success", JBool true);
   ("message", JStr "Reordered 2 pages. New document ID: 5f1c9a3e7b2d4086");
   ("id", JStr "5f1c9a3e7b2d4086");
   ("url", JStr "/uploads/sessions/0123456789abcdef0123456789abcdef/reordered-9c1e44aa.pdf");
   ("filename", JStr "reordered")].

Definition reordering : PdfAgent.Operation :=
  PdfAgent.mkOperation
    "move_pages"
    (JObj [("documentId", JStr "a1"); ("pageOrder", JArr [JNum 2; JNum 1])])
    (JObj reordered_fields).

Definition reordered : Document :=
  mkDocument
    (JStr "5f1c9a3e7b2d4086") (JStr "reordered")
    (JStr "/uploads/sessions/0123456789abcdef0123456789abcdef/reordered-9c1e44aa.pdf")
    revised session_a (Some "move_pages") JUndefined.

Definition after_turn : Documents :=
  two_sessions ++ [(docKey session_a "5f1c9a3e7b2d4086", reordered)].

Definition template_string (v : JsValue) : string :=
  match v with
  | JStr s => s
  | _ => "[object Object]"
  end.

Definition no_random_id (n : nat) : string := "0000000000000000".

Lemma turn_stored :
  storeOperations template_string no_random_id session_a
                  ([failed_split] ++ [reordering]) 0 two_sessions
  = Returned (0%nat, after_turn).
Proof. reflexivity. Qed.

Lemma turn_string_ids : List.Forall string_ids ([failed_split] ++ [reordering]).
Proof.
  repeat constructor; simpl;
    try (intros id [= <-]; intros H; try discriminate H; eauto);
    try (intros files file id H; discriminate H).
Qed.

Lemma chat_registers_artifacts_witness :
  (forall op url id,
      In op ([failed_split] ++ [reordering]) ->
      prop (PdfAgent.op_result op) "url" = Returned url -> truthy url = true ->
      prop (PdfAgent.op_result op) "id" = Returned id -> truthy id = true ->
      holds_revised session_a (docKey session_a (template_string id))
                    after_turn)
  /\ (forall k d, map_get k two_sessions = Some d ->
                  exists d', map_get k after_turn = Some d')
  /\ getSessionDocuments session_b after_turn
     = getSessionDocuments session_b two_sessions.
Proof.
  apply (chat_registers_artifacts
           template_string no_random_id session_a session_b
           ([failed_split] ++ [reordering]) 0 0 two_sessions after_turn).
  - reflexivity.
  - discriminate.
  - apply turn_stored.
Defined.

Lemma artifact_is_found_in_next_turn_witness :
  downloadPdfFromS3 template_string "5f1c9a3e7b2d4086"
                    (map to_js (getSessionDocuments session_a after_turn))
  = Returned
      (LocalFile
         "sessions/0123456789abcdef0123456789abcdef/reordered-9c1e44aa.pdf").
Proof.
  apply (artifact_is_found_in_next_turn
           template_string no_random_id (fun s => eq_refl)
           session_a [failed_split] reordering reordered_fields
           "5f1c9a3e7b2d4086"
           "/uploads/sessions/0123456789abcdef0123456789abcdef/reordered-9c1e44aa.pdf"
           0 0 two_sessions after_turn).
  - apply two_sessions_well_keyed.
  - reflexivity.
  - apply turn_string_ids.
  - reflexivity.
  - reflexivity.
  - discriminate.
  - reflexivity.
  - discriminate.
  - reflexivity.
  - apply turn_stored.
Defined.

Lemma initSession_returns_valid_id_witness :
  is_session_id (initSession (fun n => repeat Byte.xa7 n) (Some "guest")) = true
  /\ (forall s, Some "guest" = Some s -> is_session_id s = true ->
                initSession (fun n => repeat Byte.xa7 n) (Some "guest") = s)
  /\ (isValidSessionId (Some "guest") = false ->
      initSession (fun n => repeat Byte.xa7 n) (Some "guest")
      = generateSessionId (fun n => repeat Byte.xa7 n)).
Proof.
  apply (initSession_returns_valid_id
           (fun n => repeat Byte.xa7 n) (Some "guest")).
  intros n. apply repeat_length.
Defined.

End TwoSessions.
